(** * eth-scrapper: the page pipeline of [ExternalScrapper]

    A shallow embedding of [externalScrapper.js]: content classification
    and hash extraction ([scrapePage], [parseHTMLForHashes]), the inline
    retry loop ([scrapePageSafe]), the wave scheduler and the retry pass
    ([scrappe], [retryFailedPages]) and page-count detection
    ([detectTotalPages]).

    Conventions of the embedding.
    - A JavaScript string is a list of code units; the code units are
      restricted to one byte ([ascii]), so [length] counts characters and
      bytes alike.
    - JavaScript numbers that hold page numbers, counters and delays are
      integers of [Z].
    - The renderer (an Electron window), the DOM of the detection page and
      the wall clock are not part of the program: they are the fields of a
      [World], which the program queries.
    - [Set] objects keep insertion order and are lists without duplicates.
    - An asynchronous function is a state transformer over a [Session];
      the events it logs record what it did to the windows and the timers.
    - The page tasks of a session run concurrently.  The session keeps the
      pages that are chained on a window and have not settled; a task
      starts when the chain of its window lets it, and settles, with all
      its effects on the session at once, when its promise is awaited and
      every page chained before it on its window has settled.  A task that
      loses the race against the batch timeout stays chained and settles
      later. *)

From Stdlib Require Import List ZArith Lia Bool Ascii String Arith.
Import ListNotations.

Open Scope Z_scope.

(** ** JavaScript strings *)

Definition jsstring := list ascii.

Definition js (s : string) : jsstring := list_ascii_of_string s.

Fixpoint str_eqb (a b : jsstring) : bool :=
  match a, b with
  | [], [] => true
  | x :: a', y :: b' => Ascii.eqb x y && str_eqb a' b'
  | _, _ => false
  end.

Definition strlen (s : jsstring) : Z := Z.of_nat (List.length s).

(** [s.startsWith(p)] *)
Fixpoint startsWith (p s : jsstring) : bool :=
  match p, s with
  | [], _ => true
  | x :: p', y :: s' => Ascii.eqb x y && startsWith p' s'
  | _ :: _, [] => false
  end.

(** [s.includes(p)] *)
Fixpoint includes (s p : jsstring) : bool :=
  startsWith p s ||
  match s with
  | [] => false
  | _ :: s' => includes s' p
  end.

(** [c.toLowerCase()] on one-byte code units: A-Z and the Latin-1 capitals
    (0xC0-0xDE without the multiplication sign 0xD7) move up by 32. *)
Definition lowerChar (c : ascii) : ascii :=
  let n := N_of_ascii c in
  if ((65 <=? n) && (n <=? 90))%N
     || ((192 <=? n) && (n <=? 222) && negb (n =? 215))%N
  then ascii_of_N (n + 32) else c.

Definition toLowerCase (s : jsstring) : jsstring := map lowerChar s.

(** ** [Set] objects: insertion-ordered, duplicate-free *)

Section JsSet.
Context {A : Type} (eqb : A -> A -> bool).

Definition setHas (x : A) (l : list A) : bool := existsb (eqb x) l.

Definition setAdd (x : A) (l : list A) : list A :=
  if setHas x l then l else l ++ [x].

Definition setDelete (x : A) (l : list A) : list A :=
  filter (fun y => negb (eqb x y)) l.

(** [xs.forEach(x => set.add(x))] *)
Definition setAddAll (xs : list A) (l : list A) : list A :=
  fold_left (fun acc x => setAdd x acc) xs l.
End JsSet.

(** ** Regular expressions

    The fragment of ECMAScript regular expressions the program uses:
    literal characters, character classes, greedy class repetition, counted
    class repetition, sequencing and capturing groups.  The matcher
    backtracks through continuations, the way the ECMAScript matcher is
    specified: a greedy star first tries to take one more character and
    gives characters back when the rest of the pattern fails. *)

Inductive regex : Type :=
| RChar (c : ascii)
| RClass (p : ascii -> bool)
| RStar (p : ascii -> bool)
| RRepeat (n : nat) (p : ascii -> bool)
| RSeq (r1 r2 : regex)
| RGroup (r : regex).

Fixpoint RLit (s : jsstring) (r : regex) : regex :=
  match s with
  | [] => r
  | c :: s' => RSeq (RChar c) (RLit s' r)
  end.

Definition RPlus (p : ascii -> bool) : regex := RSeq (RClass p) (RStar p).

Section Matcher.
Context {R : Type}.

(** A matcher state is the index reached, the input from that index on
    and the groups captured so far; a continuation is the rest of the
    pattern. *)
Definition cont : Type := nat -> jsstring -> list jsstring -> option R.

Fixpoint starK (p : ascii -> bool) (k : nat -> jsstring -> option R)
         (i : nat) (s : jsstring) : option R :=
  match s with
  | c :: s' =>
      if p c then
        match starK p k (S i) s' with
        | Some r => Some r
        | None => k i s
        end
      else k i s
  | [] => k i s
  end.

Fixpoint repeatK (n : nat) (p : ascii -> bool)
         (k : nat -> jsstring -> option R)
         (i : nat) (s : jsstring) : option R :=
  match n with
  | O => k i s
  | S n' =>
      match s with
      | c :: s' => if p c then repeatK n' p k (S i) s' else None
      | [] => None
      end
  end.

Fixpoint matchK (r : regex) (i : nat) (s : jsstring)
         (caps : list jsstring) (k : cont) : option R :=
  match r with
  | RChar c =>
      match s with
      | c' :: s' => if Ascii.eqb c c' then k (S i) s' caps else None
      | [] => None
      end
  | RClass p =>
      match s with
      | c' :: s' => if p c' then k (S i) s' caps else None
      | [] => None
      end
  | RStar p => starK p (fun j s' => k j s' caps) i s
  | RRepeat n p => repeatK n p (fun j s' => k j s' caps) i s
  | RSeq r1 r2 =>
      matchK r1 i s caps (fun j s1 caps1 => matchK r2 j s1 caps1 k)
  | RGroup r1 =>
      matchK r1 i s caps
        (fun j s' caps' => k j s' (caps' ++ [firstn (j - i) s]))
  end.
End Matcher.

(** A match: the captured groups ([match[1]] is the head) and the input
    that follows the match (where [lastIndex] points). *)
Definition rmatch : Type := list jsstring * jsstring.

Definition matchAt (r : regex) (s : jsstring) : option rmatch :=
  matchK r 0 s [] (fun _ s' caps => Some (caps, s')).

(** [regex.exec] from the current [lastIndex]: the leftmost position at
    which the pattern matches. *)
Fixpoint exec (r : regex) (s : jsstring) : option rmatch :=
  match matchAt r s with
  | Some m => Some m
  | None =>
      match s with
      | [] => None
      | _ :: s' => exec r s'
      end
  end.

Definition group1 (m : rmatch) : jsstring := nth 0 (fst m) [].

(** ** Character classes *)

Definition inRange (lo hi : N) (c : ascii) : bool :=
  let n := N_of_ascii c in ((lo <=? n) && (n <=? hi))%N.

Definition isDigit : ascii -> bool := inRange 48 57.

(** [[a-fA-F0-9]] *)
Definition isHex (c : ascii) : bool :=
  inRange 97 102 c || inRange 65 70 c || inRange 48 57 c.

(** The double quote, code unit 34. *)
Definition dquote : ascii := "034"%char.

(** The class of every character but the double quote. *)
Definition notQuote (c : ascii) : bool := negb (Ascii.eqb c dquote).

(** ** Extractor: [parseHTMLForHashes] *)

(** The pattern of [parseHTMLForHashes], flag [g]: the literal [href=], a
    double quote, any run of characters other than the double quote, the
    literal [/tx/], group 1 made of [0x] and 64 characters of
    [[a-fA-F0-9]], and a closing double quote. *)
Definition hashRegex : regex :=
  RLit (js "href=") (RSeq (RChar dquote)
    (RSeq (RStar notQuote)
      (RLit (js "/tx/")
        (RSeq (RGroup (RLit (js "0x") (RRepeat 64 isHex)))
              (RChar dquote))))).

(** The [while ((match = hashRegex.exec(htmlContent)) !== null)] loop.
    [rest] is the input from [lastIndex] on.  Every match consumes input,
    so [fuel] one above the length of the input is never used up
    ([hashLoop_matches]). *)
Fixpoint hashLoop (fuel : nat) (rest : jsstring) (hashSet : list jsstring)
         (matchCount : Z) : option (list jsstring) :=
  match fuel with
  | O => None
  | S fuel' =>
      match exec hashRegex rest with
      | None => Some hashSet
      | Some m =>
          let hashSet' := setAdd str_eqb (group1 m) hashSet in
          let matchCount' := matchCount + 1 in
          if matchCount' >? 10000 then Some hashSet'
          else hashLoop fuel' (snd m) hashSet' matchCount'
      end
  end.

Definition parseHTMLForHashes (htmlContent : jsstring) : list jsstring :=
  match hashLoop (S (List.length htmlContent)) htmlContent [] 0 with
  | Some hashes => hashes
  | None => []
  end.

(** ** Classification: the content checks of [scrapePage] *)

Definition failurePatterns : list jsstring :=
  [ js "Access Denied"; js "captcha"; js "CAPTCHA"; js "blocked";
    js "rate limit"; js "temporarily unavailable"; js "service unavailable";
    js "cloudflare"; js "please try again" ].

(** [failurePatterns.find(pattern =>
       contentLower.includes(pattern.toLowerCase()))] *)
Definition detectedFailure (htmlContent : jsstring) : option jsstring :=
  let contentLower := toLowerCase htmlContent in
  find (fun pattern => includes contentLower (toLowerCase pattern))
       failurePatterns.

(** [!htmlContent || htmlContent.length < 500] *)
Definition insufficient (htmlContent : option jsstring) : bool :=
  match htmlContent with
  | None => true
  | Some html => match html with [] => true | _ => strlen html <? 500 end
  end.

(** ** The world outside the program *)

(** What one call of [scrapePage] gets from its window: an exception
    (navigation failure, page load timeout, script failure, extraction
    timeout) or the value of [document.documentElement.outerHTML]. *)
Inductive FetchOutcome : Type :=
| Thrown (message : jsstring)
| Rendered (html : option jsstring).

(** What [detectTotalPages] finds in window 0. *)
Record DetectionDom : Type := {
  navigationOk   : bool;
  pageInfoText   : option jsstring;
  lastButtonHref : option jsstring
}.

Record World : Type := {
  detection     : DetectionDom;
  (** [render page n]: the outcome of call number [n] (from 0) of
      [scrapePage page]. *)
  render        : Z -> nat -> FetchOutcome;
  (** [batchTimedOut page]: the task of [page] has not settled when the
      45 s timer of its wave fires. *)
  batchTimedOut : Z -> bool
}.

(** The arguments of the constructor. *)
Record Config : Type := {
  maxWindows : Z;
  totalPages : Z
}.

(** [this.options], fixed by the constructor. *)
Record Options : Type := {
  windowCooldown  : Z;
  autoRetryFailed : bool;
  maxRetries      : Z;
  pageTimeout     : Z;
  batchDelay      : Z
}.

Definition options : Options := {|
  windowCooldown  := 300;
  autoRetryFailed := true;
  maxRetries      := 2;
  pageTimeout     := 8000;
  batchDelay      := 100
|}.

(** ** Sessions and events *)

(** [TaskStart] and [TaskEnd] are logged in the order in which the tasks
    start and settle.  What a task does in between ([Cooldown],
    [Navigate], [Backoff], [StatusCleared]) is logged in one piece when the
    task settles. *)
Inductive event : Type :=
| Scheduled (page slot : Z)   (* processPage chained the page on its window *)
| TaskStart (page slot : Z)   (* the task of the page is running on the window *)
| TaskEnd (page slot : Z)     (* the task of the page has settled *)
| Cooldown (slot ms : Z)      (* the per-window wait of processPage *)
| Navigate (page slot : Z)    (* window.loadURL of scrapePage *)
| Backoff (page ms : Z)       (* the wait between two attempts *)
| WaveDelay (ms : Z)          (* the wait between two waves *)
| StatusCleared.              (* clearCloudflareStatus *)

(** [processedPages] stands for the local set of [scrappe] and for
    [this.processedPages], which hold the same pages. *)
Record Session : Type := mkSession {
  allHashesSet     : list jsstring;
  failedPages      : list Z;
  processedPages   : list Z;
  completedCount   : Z;
  cloudflarePassed : bool;      (* the status file exists *)
  fetched          : Z -> nat;  (* calls of scrapePage made, per page *)
  pending          : list Z;    (* pages chained on a window, not settled *)
  trace            : list event
}.

Definition newSession (passed : bool) : Session :=
  mkSession [] [] [] 0 passed (fun _ => O) [] [].

(** ** A state monad for the asynchronous functions *)

Definition M (A : Type) : Type := Session -> A * Session.

Definition ret {A : Type} (a : A) : M A := fun st => (a, st).

Definition bind {A B : Type} (m : M A) (f : A -> M B) : M B :=
  fun st => let (a, st') := m st in f a st'.

Declare Scope js_scope.
Delimit Scope js_scope with js.
Notation "x <- m ;; k" := (bind m (fun x => k))
  (at level 100, m at next level, right associativity) : js_scope.
Notation "m ;; k" := (bind m (fun _ => k))
  (at level 100, right associativity) : js_scope.
Open Scope js_scope.

Definition gets {A : Type} (f : Session -> A) : M A := fun st => (f st, st).

Definition modify (f : Session -> Session) : M unit := fun st => (tt, f st).

Definition when (b : bool) (m : M unit) : M unit := if b then m else ret tt.

Fixpoint forEach {A : Type} (f : A -> M unit) (l : list A) : M unit :=
  match l with
  | [] => ret tt
  | x :: l' => f x ;; forEach f l'
  end.

Fixpoint mapM {A B : Type} (f : A -> M B) (l : list A) : M (list B) :=
  match l with
  | [] => ret []
  | x :: l' => y <- f x ;; ys <- mapM f l' ;; ret (y :: ys)
  end.

Definition log (e : event) : M unit :=
  modify (fun st =>
    mkSession st.(allHashesSet) st.(failedPages) st.(processedPages)
              st.(completedCount) st.(cloudflarePassed) st.(fetched)
              st.(pending) (st.(trace) ++ [e])).

Definition setHashes (h : list jsstring) : M unit :=
  modify (fun st =>
    mkSession h st.(failedPages) st.(processedPages)
              st.(completedCount) st.(cloudflarePassed) st.(fetched)
              st.(pending) st.(trace)).

Definition setFailed (f : list Z) : M unit :=
  modify (fun st =>
    mkSession st.(allHashesSet) f st.(processedPages)
              st.(completedCount) st.(cloudflarePassed) st.(fetched)
              st.(pending) st.(trace)).

Definition setProcessed (p : list Z) (c : Z) : M unit :=
  modify (fun st =>
    mkSession st.(allHashesSet) st.(failedPages) p c
              st.(cloudflarePassed) st.(fetched) st.(pending) st.(trace)).

Definition setPassed (b : bool) : M unit :=
  modify (fun st =>
    mkSession st.(allHashesSet) st.(failedPages) st.(processedPages)
              st.(completedCount) b st.(fetched) st.(pending) st.(trace)).

Definition setFetched (f : Z -> nat) : M unit :=
  modify (fun st =>
    mkSession st.(allHashesSet) st.(failedPages) st.(processedPages)
              st.(completedCount) st.(cloudflarePassed) f
              st.(pending) st.(trace)).

Definition setPending (p : list Z) : M unit :=
  modify (fun st =>
    mkSession st.(allHashesSet) st.(failedPages) st.(processedPages)
              st.(completedCount) st.(cloudflarePassed) st.(fetched)
              p st.(trace)).

(** [clearCloudflareStatus]: unlink the status file when it exists. *)
Definition clearCloudflareStatus : M unit :=
  passed <- gets cloudflarePassed ;;
  when passed (setPassed false ;; log StatusCleared).

(** ** Promises *)

Inductive settled (A : Type) : Type :=
| Fulfilled (value : A)
| Rejected (reason : jsstring).
Arguments Fulfilled {A} value.
Arguments Rejected {A} reason.

Definition isRejected {A : Type} (s : settled A) : bool :=
  match s with Rejected _ => true | Fulfilled _ => false end.

(** [p.then(f)] and [p.catch(h)], for a promise that is run when awaited. *)
Definition thenP {A B : Type} (p : M (settled A)) (f : A -> M (settled B))
  : M (settled B) :=
  s <- p ;;
  match s with
  | Fulfilled v => f v
  | Rejected e => ret (Rejected e)
  end.

Definition catchP {A : Type} (p : M (settled A)) (h : jsstring -> M (settled A))
  : M (settled A) :=
  s <- p ;;
  match s with
  | Fulfilled v => ret (Fulfilled v)
  | Rejected e => h e
  end.

(** ** Page-count detection: the script of [detectTotalPages] *)

(** [/Page \d+ of (\d+)/] *)
Definition pageOfRegex : regex :=
  RLit (js "Page ") (RSeq (RPlus isDigit)
    (RLit (js " of ") (RGroup (RPlus isDigit)))).

(** [/p=(\d+)/] *)
Definition pParamRegex : regex :=
  RLit (js "p=") (RGroup (RPlus isDigit)).

(** [parseInt] on a string of decimal digits; the value is exact, where a
    JavaScript number rounds above 2^53. *)
Definition parseInt (digits : jsstring) : Z :=
  fold_left (fun acc c => 10 * acc + (Z.of_N (N_of_ascii c) - 48)) digits 0.

(** [text.match(regex)] for a pattern without the [g] flag. *)
Definition strMatch (text : jsstring) (r : regex) : option rmatch := exec r text.

Definition detectionScript (dom : DetectionDom) : Z :=
  let fromPageInfo :=
    match dom.(pageInfoText) with
    | Some (c :: t) => strMatch (c :: t) pageOfRegex
    | _ => None
    end in
  match fromPageInfo with
  | Some m => parseInt (group1 m)
  | None =>
      match dom.(lastButtonHref) with
      | Some href =>
          match strMatch href pParamRegex with
          | Some m => parseInt (group1 m)
          | None => 1
          end
      | None => 1
      end
  end.

Record PageResult : Type := {
  prPage      : Z;
  htmlContent : option jsstring
}.

Record TaskResult : Type := {
  trPage    : Z;
  hashCount : Z
}.

(** The truthiness test [if (result.htmlContent)]. *)
Definition truthy (htmlContent : option jsstring) : option jsstring :=
  match htmlContent with
  | Some (c :: t) => Some (c :: t)
  | _ => None
  end.

(** [for (let page = batchStart; page <= batchEnd; page++)] *)
Definition pageRange (batchStart batchEnd : Z) : list Z :=
  map (fun k => batchStart + Z.of_nat k)
      (seq 0 (Z.to_nat (batchEnd - batchStart + 1))).

Section Scrapper.
Variable w : World.
Variable cfg : Config.

(** [(page - 1) % this.maxWindows]: [Z.rem] takes the sign of the dividend,
    as [%] does.  (Without a window [%] gives [NaN]; no page is fetched
    then.) *)
Definition windowIndex (page : Z) : Z := Z.rem (page - 1) cfg.(maxWindows).

(** [detectTotalPages]: window 0 is loaded and asked for the page count;
    any exception gives 1, and so does a count of 0. *)
Definition detectTotalPages : Z :=
  if w.(detection).(navigationOk) then
    let total := detectionScript w.(detection) in
    if total =? 0 then 1 else total
  else 1.

(** The [try] block of [scrapePage]: [inl] is the message of the
    exception thrown, [inr] the content returned. *)
Definition scrapePageTry (page : Z) : M (jsstring + jsstring) :=
  f <- gets fetched ;;
  setFetched (fun q => if q =? page then S (f q) else f q) ;;
  log (Navigate page (windowIndex page)) ;;
  match w.(render) page (f page) with
  | Thrown message => ret (inl message)
  | Rendered htmlContent =>
      if insufficient htmlContent then
        ret (inl (js "Insufficient HTML content received"))
      else
        let html := match htmlContent with Some h => h | None => [] end in
        match detectedFailure html with
        | Some pattern =>
            when (str_eqb pattern (js "cloudflare")) clearCloudflareStatus ;;
            ret (inl (js "Blocked by Etherscan or " ++ pattern
                        ++ js " detected"))
        | None => ret (inr html)
        end
  end.

(** [scrapePage]: the [catch] block turns every exception into a result
    without content. *)
Definition scrapePage (page : Z) : M PageResult :=
  r <- scrapePageTry page ;;
  match r with
  | inr html => ret {| prPage := page; htmlContent := Some html |}
  | inl _ => ret {| prPage := page; htmlContent := None |}
  end.

(** [result.htmlContent && result.htmlContent.length > 500] *)
Definition validated (result : PageResult) : bool :=
  match truthy result.(htmlContent) with
  | Some html => strlen html >? 500
  | None => false
  end.

(** The [for (let attempt = 1; attempt <= maxRetries; attempt++)] loop of
    [scrapePageSafe], [n] iterations from [attempt] on.  [scrapePage]
    throws nothing, so the [catch] block of the loop is never entered. *)
Fixpoint attemptLoop (n : nat) (attempt : Z) (page : Z) : M PageResult :=
  match n with
  | O => ret {| prPage := page; htmlContent := None |}
  | S n' =>
      result <- scrapePage page ;;
      if validated result then ret result
      else
        when (attempt <? options.(maxRetries))
             (log (Backoff page (Z.min (500 * attempt) 2000))) ;;
        attemptLoop n' (attempt + 1) page
  end.

Definition scrapePageSafe (page : Z) : M PageResult :=
  attemptLoop (Z.to_nat options.(maxRetries)) 1 page.

(** *** [processPage]: the promise chain of one page *)

Definition addHashes (hashes : list jsstring) : M unit :=
  set <- gets allHashesSet ;;
  setHashes (setAddAll str_eqb hashes set).

Definition addFailed (page : Z) : M unit :=
  failed <- gets failedPages ;;
  setFailed (setAdd Z.eqb page failed).

(** First [then]: the window cooldown, then [scrapePageSafe]. *)
Definition processPageFetch (page : Z) : M (settled PageResult) :=
  log (Cooldown (windowIndex page) options.(windowCooldown)) ;;
  result <- scrapePageSafe page ;;
  ret (Fulfilled result).

(** Second [then]: parse and merge, or record the failure. *)
Definition processPageMerge (page : Z) (result : PageResult)
  : M (settled TaskResult) :=
  match truthy result.(htmlContent) with
  | Some html =>
      let hashes := parseHTMLForHashes html in
      addHashes hashes ;;
      processed <- gets processedPages ;;
      count <- gets completedCount ;;
      when (negb (setHas Z.eqb page processed))
           (setProcessed (setAdd Z.eqb page processed) (count + 1)) ;;
      ret (Fulfilled {| trPage := page;
                        hashCount := Z.of_nat (List.length hashes) |})
  | None =>
      addFailed page ;;
      ret (Fulfilled {| trPage := page; hashCount := 0 |})
  end.

(** The [catch] at the end of the chain. *)
Definition processPageCatch (page : Z) (reason : jsstring)
  : M (settled TaskResult) :=
  addFailed page ;;
  ret (Fulfilled {| trPage := page; hashCount := 0 |}).

Definition pagePromise (page : Z) : M (settled TaskResult) :=
  catchP (thenP (processPageFetch page) (processPageMerge page))
         (processPageCatch page).

(** *** Window chains

    [activePromises] holds, per window, the promise of the last page
    chained on it.  [pending] lists the pages chained and not settled, in
    the order of chaining; the pages of one window in it form the chain of
    that window, and only the first of them is running. *)

Definition chainOf (slot : Z) (pend : list Z) : list Z :=
  filter (fun q => windowIndex q =? slot) pend.

Fixpoint before (page : Z) (chain : list Z) : list Z :=
  match chain with
  | [] => []
  | q :: chain' => if q =? page then [] else q :: before page chain'
  end.

(** The synchronous part of [processPage(page)]: the chain of the window
    grows by the page; the task runs at once when the chain was empty. *)
Definition processPage (page : Z) : M unit :=
  let slot := windowIndex page in
  pend <- gets pending ;;
  log (Scheduled page slot) ;;
  setPending (pend ++ [page]) ;;
  when (match chainOf slot pend with [] => true | _ => false end)
       (log (TaskStart page slot)).

(** The running task of a window settles; the next page of the chain
    starts. *)
Definition settle (page : Z) : M (settled TaskResult) :=
  let slot := windowIndex page in
  r <- pagePromise page ;;
  log (TaskEnd page slot) ;;
  pend <- gets pending ;;
  let pend' := setDelete Z.eqb page pend in
  setPending pend' ;;
  match chainOf slot pend' with
  | next :: _ => log (TaskStart next slot)
  | [] => ret tt
  end ;;
  ret r.

(** The promise of [page] settles: the pages chained before it on its
    window have settled first. *)
Definition awaitPage (page : Z) : M (settled TaskResult) :=
  pend <- gets pending ;;
  forEach (fun q => settle q ;; ret tt)
          (before page (chainOf (windowIndex page) pend)) ;;
  settle page.

(** [Promise.race([p, batchTimeout])] *)
Definition raceBatchTimeout (page : Z) : M (settled TaskResult) :=
  if w.(batchTimedOut) page then ret (Rejected (js "Batch timeout"))
  else awaitPage page.

(** One wave: [processPage] for every page, then [Promise.allSettled]
    over the races. *)
Definition runBatch (pages : list Z) : M (list (settled TaskResult)) :=
  forEach processPage pages ;;
  mapM raceBatchTimeout pages.

Definition countRejected (batchResults : list (settled TaskResult)) : Z :=
  Z.of_nat (List.length (filter isRejected batchResults)).

(** The delay chosen from the errors of the wave. *)
Definition adaptiveDelay (batchErrors : Z) : Z :=
  if batchErrors >? 5 then 2000
  else if batchErrors >? 2 then 800
  else options.(batchDelay).

(** [if (delay > this.options.batchDelay) await sleep(delay)] *)
Definition interWaveWait (batchErrors : Z) : M unit :=
  let delay := adaptiveDelay batchErrors in
  when (delay >? options.(batchDelay)) (log (WaveDelay delay)).

(** The [while (batchStart <= actualTotalPages)] loop; [None] when the
    fuel runs out. *)
Fixpoint waveLoop (fuel : nat) (actualTotalPages batchStart errorCount : Z)
  : M (option Z) :=
  match fuel with
  | O => ret None
  | S fuel' =>
      if batchStart <=? actualTotalPages then
        let batchEnd :=
          Z.min (batchStart + cfg.(maxWindows) - 1) actualTotalPages in
        batchResults <- runBatch (pageRange batchStart batchEnd) ;;
        let batchErrors := countRejected batchResults in
        let batchStart' := batchEnd + 1 in
        when (batchStart' <=? actualTotalPages)
             (interWaveWait batchErrors) ;;
        waveLoop fuel' actualTotalPages batchStart'
                 (errorCount + batchErrors)
      else ret (Some errorCount)
  end.

(** [await Promise.allSettled(Array.from(activePromises.values()))] *)
Definition awaitStragglers : M unit :=
  pend <- gets pending ;;
  forEach (fun q => settle q ;; ret tt) pend.

(** *** The retry pass *)

(** The body of the [async (page) => ...] callback of
    [retryFailedPages], from the result of its first navigation on. *)
Definition retryPage (page : Z) : M bool :=
  result <- scrapePageSafe page ;;
  success <-
    match truthy result.(htmlContent) with
    | Some html =>
        addHashes (parseHTMLForHashes html) ;;
        failed <- gets failedPages ;;
        setFailed (setDelete Z.eqb page failed) ;;
        ret true
    | None => ret false
    end ;;
  log (TaskEnd page (windowIndex page)) ;;
  ret success.

(** [failedArray.map(async ...)] calls every callback in turn, and each
    runs without interruption up to the first navigation of its page: all
    the pages have started on their windows before any of them settles. *)
Definition retryFailedPages : M (list bool) :=
  failedArray <- gets failedPages ;;
  forEach (fun page => log (TaskStart page (windowIndex page)))
          failedArray ;;
  mapM retryPage failedArray.

(** *** [scrappe] *)

(** [Math.min(detectedPages, this.totalPages)] *)
Definition actualTotalPages : Z := Z.min detectTotalPages cfg.(totalPages).

(** The first part of [scrappe]: a new hash set, the waves, and the final
    wait for the promises of all the windows. *)
Definition runWaves (fuel : nat) : M (option Z) :=
  setHashes [] ;;
  r <- waveLoop fuel actualTotalPages 1 0 ;;
  match r with
  | None => ret None
  | Some errorCount => awaitStragglers ;; ret (Some errorCount)
  end.

(** The rest of [scrappe]: [uniqueHashes] is taken from the set, then the
    failed pages are retried, then [uniqueHashes] is returned. *)
Definition scrappeWith (fuel : nat) : M (option (list jsstring)) :=
  r <- runWaves fuel ;;
  match r with
  | None => ret None
  | Some _ =>
      uniqueHashes <- gets allHashesSet ;;
      failed <- gets failedPages ;;
      when (options.(autoRetryFailed)
            && (0 <? Z.of_nat (List.length failed)))
           (retryFailedPages ;; ret tt) ;;
      ret (Some uniqueHashes)
  end.

(** Every wave moves [batchStart] forward when there is a window, so one
    unit of fuel per page and one for the last test are enough
    ([scrappe_scheduled]). *)
Definition enoughFuel : nat := S (Z.to_nat actualTotalPages).

Definition scrappe : M (option (list jsstring)) := scrappeWith enoughFuel.

End Scrapper.

(** * Vocabulary of the statements *)

(** ** Traces *)

(** The events logged by [m] from state [st]. *)
Definition emitted {A : Type} (m : M A) (st : Session) : list event :=
  skipn (List.length (trace st)) (trace (snd (m st))).

(** [emits ok m]: the code [m] only adds events to the trace, and the
    events it adds all satisfy [ok]. *)
Definition emits (ok : event -> bool) {A : Type} (m : M A) : Prop :=
  forall st, exists evs,
    trace (snd (m st)) = trace st ++ evs /\ forallb ok evs = true.

Definition isNavigate (page : Z) (e : event) : bool :=
  match e with Navigate p _ => p =? page | _ => false end.

(** The number of navigations to a page. *)
Definition navigations (page : Z) (evs : list event) : nat :=
  List.length (filter (isNavigate page) evs).

Definition isWaveDelay (e : event) : bool :=
  match e with WaveDelay _ => true | _ => false end.

Definition isScheduled (e : event) : bool :=
  match e with Scheduled _ _ => true | _ => false end.

Definition notScheduled (e : event) : bool := negb (isScheduled e).

Definition isTaskStart (e : event) : bool :=
  match e with TaskStart _ _ => true | _ => false end.

(** Pacing events: the window cooldown and the inter-wave wait. *)
Definition isPacing (e : event) : bool :=
  match e with Cooldown _ _ | WaveDelay _ => true | _ => false end.

(** The events a retry pass never logs after its launch: pacing and
    starts. *)
Definition isPacingOrStart (e : event) : bool := isPacing e || isTaskStart e.

(** The events of a page task between its start and its end. *)
Definition fetchLevel (e : event) : bool :=
  match e with
  | Cooldown _ _ | Navigate _ _ | Backoff _ _ | StatusCleared => true
  | _ => false
  end.

(** The events of fetching one page. *)
Definition fetchEvent (cfg : Config) (page : Z) (e : event) : Prop :=
  e = Navigate page (windowIndex cfg page) \/
  (exists ms, e = Backoff page ms) \/
  e = StatusCleared.

Definition unmarked (e : event) : bool :=
  match e with TaskStart _ _ | TaskEnd _ _ => false | _ => true end.

(** The pages for which [processPage] was called, in order. *)
Definition scheduledPages (evs : list event) : list Z :=
  flat_map (fun e => match e with Scheduled p _ => [p] | _ => [] end) evs.

(** The wait of the three-tier table, as an event list. *)
Definition tierWait (batchErrors : Z) : list event :=
  if 5 <? batchErrors then [WaveDelay 2000]
  else if 2 <? batchErrors then [WaveDelay 800]
  else [].

(** ** Tasks in flight *)

Definition startsOn (slot : Z) (e : event) : bool :=
  match e with TaskStart _ s => s =? slot | _ => false end.

Definition endsOn (slot : Z) (e : event) : bool :=
  match e with TaskEnd _ s => s =? slot | _ => false end.

(** The number of page tasks running on a window after the events [evs]. *)
Definition inFlight (slot : Z) (evs : list event) : Z :=
  Z.of_nat (List.length (filter (startsOn slot) evs))
  - Z.of_nat (List.length (filter (endsOn slot) evs)).

(** The largest number of page tasks running on a window at an instant of
    [evs], that is, after one of its prefixes. *)
Fixpoint peakInFlight (slot : Z) (seen evs : list event) : Z :=
  match evs with
  | [] => inFlight slot seen
  | e :: evs' =>
      Z.max (inFlight slot seen) (peakInFlight slot (seen ++ [e]) evs')
  end.

(** At every instant of [evs], at most one task runs on each window. *)
Definition exclusive (evs : list event) : Prop :=
  forall slot n, inFlight slot (firstn n evs) <= 1.

(** The number of running tasks that the chain of a window stands for: its
    first page runs, the others wait. *)
Definition chainBusy (cfg : Config) (slot : Z) (pend : list Z) : Z :=
  match chainOf cfg slot pend with
  | [] => 0
  | _ :: _ => 1
  end.

(** ** States *)

(** [sameData st st']: only the trace may differ. *)
Definition sameData (st st' : Session) : Prop :=
  allHashesSet st' = allHashesSet st /\
  failedPages st' = failedPages st /\
  processedPages st' = processedPages st /\
  completedCount st' = completedCount st /\
  cloudflarePassed st' = cloudflarePassed st /\
  fetched st' = fetched st /\
  pending st' = pending st.

(** [fetchOnly page st st']: between [st] and [st'] only page [page] was
    fetched; the sets and the chains are the same, the status file can only
    have been removed. *)
Definition fetchOnly (page : Z) (st st' : Session) : Prop :=
  allHashesSet st' = allHashesSet st /\
  failedPages st' = failedPages st /\
  processedPages st' = processedPages st /\
  completedCount st' = completedCount st /\
  pending st' = pending st /\
  (forall q, q <> page -> fetched st' q = fetched st q).

(** The state in which the first [then] of the chain calls
    [scrapePageSafe]: the cooldown has been waited out. *)
Definition afterCooldown (cfg : Config) (page : Z) (st : Session) : Session :=
  snd (log (Cooldown (windowIndex cfg page) options.(windowCooldown)) st).

(** The state of a new session when its retry pass begins. *)
Definition atRetry (w : World) (cfg : Config) : Session :=
  snd (runWaves w cfg (enoughFuel w cfg) (newSession true)).

(** ** What a fetch returns *)

(** The content [scrapePage] returns for an outcome of its window. *)
Definition classify (o : FetchOutcome) : option jsstring :=
  match o with
  | Thrown _ => None
  | Rendered htmlContent =>
      if insufficient htmlContent then None
      else
        match htmlContent with
        | Some html =>
            match detectedFailure html with
            | Some _ => None
            | None => Some html
            end
        | None => None
        end
  end.

(** The outcome makes [scrapePage] call [clearCloudflareStatus]. *)
Definition challengeSeen (o : FetchOutcome) : bool :=
  match o with
  | Rendered (Some html) =>
      negb (insufficient (Some html)) &&
      match detectedFailure html with
      | Some pattern => str_eqb pattern (js "cloudflare")
      | None => false
      end
  | _ => false
  end.

(** The validation of [scrapePageSafe], on the content of a result. *)
Definition accepted (content : option jsstring) : bool :=
  match truthy content with
  | Some html => strlen html >? 500
  | None => false
  end.

(** The content [scrapePageSafe] ends with when it has [n] attempts left
    and [base] calls of [scrapePage] were made for the page before. *)
Fixpoint safeContent (w : World) (page : Z) (n base : nat)
  : option jsstring :=
  match n with
  | O => None
  | S n' =>
      let content := classify (w.(render) page base) in
      if accepted content then content
      else safeContent w page n' (S base)
  end.

(** The number of attempts [scrapePageSafe] makes. *)
Fixpoint attemptsMade (w : World) (page : Z) (n base : nat) : nat :=
  match n with
  | O => O
  | S n' =>
      if accepted (classify (w.(render) page base)) then 1%nat
      else S (attemptsMade w page n' (S base))
  end.

(** The value a page task settles with, from the result of its
    [scrapePageSafe]. *)
Definition taskValue (page : Z) (result : PageResult) : TaskResult :=
  match truthy result.(htmlContent) with
  | Some html =>
      {| trPage := page;
         hashCount := Z.of_nat (List.length (parseHTMLForHashes html)) |}
  | None => {| trPage := page; hashCount := 0 |}
  end.

(** ** The invariants of the waves *)

(** The chains account for the tasks that run. *)
Definition waveInv (cfg : Config) (st : Session) : Prop :=
  NoDup (pending st) /\
  exclusive (trace st) /\
  forall slot, inFlight slot (trace st) = chainBusy cfg slot (pending st).

(** The page has been chained on its window and its task has settled. *)
Definition settledPage (st : Session) (p : Z) : Prop :=
  In p (scheduledPages (trace st)) /\ ~ In p (pending st).

(** The content the task of a page works on during the waves, when [f0]
    counts the navigations made for the pages before the waves: the content
    its [scrapePageSafe] returned, if any. *)
Definition waveContent (w : World) (f0 : Z -> nat) (p : Z) : option jsstring :=
  truthy (safeContent w p (Z.to_nat options.(maxRetries)) (f0 p)).

(** Every task runs once, from the navigation count the page began with,
    and the two sets hold what the settled tasks have put into them: the
    failed pages ([F0] are those recorded before) and the hashes. *)
Definition doneInv (w : World) (f0 : Z -> nat) (F0 : list Z) (st : Session)
  : Prop :=
  incl (pending st) (scheduledPages (trace st)) /\
  (forall p, In p (pending st) \/ ~ In p (scheduledPages (trace st)) ->
             fetched st p = f0 p) /\
  (forall p, In p (failedPages st) <->
             In p F0 \/ (settledPage st p /\ waveContent w f0 p = None)) /\
  (forall h, In h (allHashesSet st) <->
             exists p html, settledPage st p /\
                            waveContent w f0 p = Some html /\
                            In h (parseHTMLForHashes html)).

Definition fullInv (w : World) (cfg : Config) (f0 : Z -> nat) (F0 : list Z)
           (st : Session) : Prop :=
  waveInv cfg st /\ doneInv w f0 F0 st.

(** ** What a pattern matches

    [lang r l caps]: the pattern [r] matches the string [l] and captures
    the groups [caps].  (The groups of the patterns of the program do not
    nest.) *)
Fixpoint lang (r : regex) (l : jsstring) (caps : list jsstring) : Prop :=
  match r with
  | RChar c => l = [c] /\ caps = []
  | RClass p => exists c, l = [c] /\ p c = true /\ caps = []
  | RStar p => forallb p l = true /\ caps = []
  | RRepeat n p => List.length l = n /\ forallb p l = true /\ caps = []
  | RSeq r1 r2 =>
      exists l1 l2 c1 c2,
        l = l1 ++ l2 /\ caps = c1 ++ c2 /\ lang r1 l1 c1 /\ lang r2 l2 c2
  | RGroup r1 => exists c1, lang r1 l c1 /\ caps = c1 ++ [l]
  end.

(** ** Link occurrences, in the words of the specification *)

(** A transaction identifier: [0x] and 64 hexadecimal digits. *)
Definition isIdentifier (id : jsstring) : Prop :=
  exists h, id = js "0x" ++ h /\ List.length h = 64%nat /\
            forallb isHex h = true.

(** The text of a link to the transaction [id]: an [href] attribute in
    double quotes whose value is any run [r] of characters other than the
    double quote, then [/tx/], then the identifier. *)
Definition linkText (r id : jsstring) : jsstring :=
  js "href=" ++ [dquote] ++ r ++ js "/tx/" ++ id ++ [dquote].

(** The identifier [id] occurs in a transaction link of [content]. *)
Definition LinkOccurs (id content : jsstring) : Prop :=
  exists pre r post,
    content = pre ++ linkText r id ++ post /\
    forallb notQuote r = true /\ isIdentifier id.

(** The identifiers of all the matches of the pattern, in the order of the
    text: the loop of [parseHTMLForHashes] without its set and without its
    cap. *)
Fixpoint linkMatches (fuel : nat) (rest : jsstring) : list jsstring :=
  match fuel with
  | O => []
  | S fuel' =>
      match exec hashRegex rest with
      | None => []
      | Some m => group1 m :: linkMatches fuel' (snd m)
      end
  end.

Definition allLinkMatches (content : jsstring) : list jsstring :=
  linkMatches (S (List.length content)) content.

(** The number of matches the loop of [parseHTMLForHashes] lets through:
    it leaves when the counter, raised after each match, is above 10000. *)
Definition matchCap : nat := Z.to_nat 10001.

(** * Concrete sessions *)

Definition idA : jsstring := js "0x" ++ repeat "A"%char 64.
Definition idB : jsstring := js "0x" ++ repeat "B"%char 64.

(** An anchor whose target is the transaction [id]. *)
Definition txLink (id : jsstring) : jsstring :=
  js "<a href=" ++ [dquote] ++ js "/tx/" ++ id ++ [dquote] ++ js ">tx</a>".

Definition filler (n : nat) : jsstring := repeat " "%char n.

(** A page of transactions, long enough to be accepted. *)
Definition goodPage (id : jsstring) : jsstring := txLink id ++ filler 600.

(** A page of exactly 500 characters. *)
Definition page500 : jsstring := txLink idA ++ filler 413.

(** A short page that carries the challenge signature. *)
Definition challengeStub : jsstring := js "Checking your browser - Cloudflare".

(** A long page whose only signature is the challenge signature. *)
Definition challengePage : jsstring := js "Cloudflare" ++ filler 600.

(** A long page that carries the challenge signature and, before it in the
    list of patterns, the captcha signature. *)
Definition challengeWithCaptcha : jsstring :=
  js "Cloudflare captcha" ++ filler 600.

(** Scenario A: two links to [idA] and one link to [idB]. *)
Definition scenarioA : jsstring :=
  txLink idA ++ txLink idB ++ txLink idA.

(** More matches than the loop lets through: 10001 links to [idA], then
    one link to [idB]. *)
Definition crowdedPage : jsstring :=
  List.concat (repeat (txLink idA) matchCap) ++ txLink idB.

(** The detection page shows no page marker and no last-page link. *)
Definition noMarker : DetectionDom :=
  {| navigationOk := true; pageInfoText := None; lastButtonHref := None |}.

(** The detection page shows the marker of page 1 of [total]. *)
Definition pageOf (total : jsstring) : DetectionDom :=
  {| navigationOk := true;
     pageInfoText := Some (js "Page 1 of " ++ total);
     lastButtonHref := None |}.

Definition oneWindow (pages : Z) : Config :=
  {| maxWindows := 1; totalPages := pages |}.

(** Scenario D: ten pages requested, on two windows. *)
Definition tenPages : Config := {| maxWindows := 2; totalPages := 10 |}.

(** Every page renders the same content, no task times out. *)
Definition constantWorld (dom : DetectionDom) (html : jsstring) : World :=
  {| detection := dom;
     render := fun _ _ => Rendered (Some html);
     batchTimedOut := fun _ => false |}.

(** Two pages, both good: with one window, a session of two waves without
    an error. *)
Definition twoWaveWorld : World := constantWorld (pageOf (js "2")) (goodPage idA).

(** Two pages, and no page ever renders enough content. *)
Definition shortWorld : World := constantWorld (pageOf (js "2")) (js "short").

(** Scenario D: the detection page says that there are 37 pages. *)
Definition world37 : World := constantWorld (pageOf (js "37")) (goodPage idA).

(** One page, whose two inline attempts fail and which renders a page of
    transactions from the third navigation on. *)
Definition flakyWorld : World :=
  {| detection := noMarker;
     render := fun _ n =>
       if (n <? 2)%nat then Thrown (js "Navigation failed: -3 - ERR_ABORTED")
       else Rendered (Some (goodPage idA));
     batchTimedOut := fun _ => false |}.

(** * More of the program *)

(** ** Numbers in template strings *)




(** ** The constructor and its windows *)


(** [createWindows]: the loop pushes [maxWindows] windows, none when
    [maxWindows] is not positive.  A window is known by the index at which
    it was pushed. *)
Definition createWindows (cfg : Config) : list Z :=
  map Z.of_nat (seq 0 (Z.to_nat cfg.(maxWindows))).

(** [this.windows[index]]: [None] is [undefined]. *)
Definition windowAt (windows : list Z) (index : Z) : option Z :=
  if index <? 0 then None else nth_error windows (Z.to_nat index).

(** ** The summary of [runScraper] *)

(** [Math.round((totalEndTime - totalStartTime) / 1000)]: [Math.round]
    takes a half up. *)
Definition totalSeconds (totalStartTime totalEndTime : Z) : Z :=
  (totalEndTime - totalStartTime + 500) / 1000.

(** [Math.floor(totalSeconds / 60)] *)
Definition totalMinutes (seconds : Z) : Z := seconds / 60.

(** [totalSeconds % 60], with the sign of [totalSeconds]. *)
Definition remainingSeconds (seconds : Z) : Z := Z.rem seconds 60.

(** * More vocabulary *)

(** [p] occurs in [s]. *)
Definition Substring (p s : jsstring) : Prop :=
  exists pre post, s = pre ++ p ++ post.

(** The content carries the pattern, letter case apart. *)
Definition carries (html pattern : jsstring) : Prop :=
  Substring (toLowerCase pattern) (toLowerCase html).

(** ** Relations between two states of a session *)

(** [holds R m]: the code [m] takes every state to a state related to it
    by [R]. *)
Definition holds (R : Session -> Session -> Prop) {A : Type} (m : M A)
  : Prop :=
  forall st, R st (snd (m st)).

Definition isStatusCleared (e : event) : bool :=
  match e with StatusCleared => true | _ => false end.

(** The number of times [clearCloudflareStatus] removed the status file. *)
Definition clearings (evs : list event) : nat :=
  List.length (filter isStatusCleared evs).

(** The number of status files: one or none. *)
Definition fileCount (passed : bool) : nat := if passed then 1%nat else O.

(** The events that are neither a navigation nor a removal of the status
    file. *)
Definition untracked (e : event) : bool :=
  match e with Navigate _ _ | StatusCleared => false | _ => true end.

(** What happened to the windows and to the status file between two
    states: the events logged in between hold one navigation for every call
    of [scrapePage]; the status file is still there exactly when it was
    there before and none of these calls met the challenge; and every
    removal of the file is logged. *)
Definition audit (w : World) (st st' : Session) : Prop :=
  exists evs,
    trace st' = trace st ++ evs /\
    (forall p, (navigations p evs + fetched st p = fetched st' p)%nat) /\
    (cloudflarePassed st' = true <->
     cloudflarePassed st = true /\
     forall p k, (fetched st p <= k < fetched st' p)%nat ->
                 challengeSeen (w.(render) p k) = false) /\
    (clearings evs + fileCount (cloudflarePassed st')
     = fileCount (cloudflarePassed st))%nat.

(** ** The steps of the waves

    What the waves do to a session, one step at a time: [processPage]
    chains a page that was not chained before, the task of the first page
    of a chain settles, or the loop waits between two waves. *)
Inductive waveStep (w : World) (cfg : Config) (st : Session)
  : Session -> Prop :=
| StepSchedule (p : Z) :
    ~ In p (scheduledPages (trace st)) ->
    waveStep w cfg st (snd (processPage cfg p st))
| StepSettle (q : Z) :
    hd_error (chainOf cfg (windowIndex cfg q) (pending st)) = Some q ->
    waveStep w cfg st (snd (settle w cfg q st))
| StepWait (batchErrors : Z) :
    waveStep w cfg st (snd (interWaveWait batchErrors st)).

Inductive waveSteps (w : World) (cfg : Config) (st : Session)
  : Session -> Prop :=
| StepsNone : waveSteps w cfg st st
| StepsSnoc (st1 st2 : Session) :
    waveSteps w cfg st st1 -> waveStep w cfg st1 st2 ->
    waveSteps w cfg st st2.

(** The books of the waves, for a session in which [f0] counts the
    navigations made before: the processed pages are the settled pages
    whose [scrapePageSafe] returned content, [completedCount] counts them,
    and a settled page has been navigated to as often as its
    [scrapePageSafe] made attempts. *)
Definition ledger (w : World) (f0 : Z -> nat) (st : Session) : Prop :=
  NoDup (failedPages st) /\
  NoDup (processedPages st) /\
  completedCount st = Z.of_nat (List.length (processedPages st)) /\
  (forall p, In p (processedPages st) <->
             settledPage st p /\ waveContent w f0 p <> None) /\
  (forall p, settledPage st p ->
             fetched st p =
               (f0 p + attemptsMade w p (Z.to_nat options.(maxRetries))
                                    (f0 p))%nat).

(** ** The retry pass *)

(** The content that the retry pass gets for a page, when the pass begins
    in the state [st]. *)
Definition retryContent (w : World) (st : Session) (p : Z)
  : option jsstring :=
  truthy (safeContent w p (Z.to_nat options.(maxRetries)) (st.(fetched) p)).

Definition recovered (w : World) (st : Session) (p : Z) : bool :=
  match retryContent w st p with Some _ => true | None => false end.

(** The state in which a new session ends. *)
Definition atEnd (w : World) (cfg : Config) : Session :=
  snd (scrappe w cfg (newSession true)).

(** The attempts that a session makes for a page at most: the inline
    attempts of its task and those of the retry pass. *)
Definition sessionAttempts : nat :=
  (Z.to_nat options.(maxRetries) + Z.to_nat options.(maxRetries))%nat.

(** ** Waits between the waves *)

Definition notWaveDelay (e : event) : bool := negb (isWaveDelay e).

(** Every wait between two waves is the one of 800 ms. *)
Definition moderateWait (e : event) : bool :=
  match e with WaveDelay ms => ms =? 800 | _ => true end.

(** ** Texts that the detection script reads *)




(** ** The waits of a session *)

(** The lengths of the waits: 300 ms for the cooldown of a window, 500 ms
    between two attempts, 800 ms or 2000 ms between two waves.  A
    navigation goes to the window of its page. *)
Definition regular (cfg : Config) (e : event) : bool :=
  match e with
  | Cooldown _ ms => ms =? 300
  | Backoff _ ms => ms =? 500
  | WaveDelay ms => (ms =? 800) || (ms =? 2000)
  | Navigate page slot => slot =? windowIndex cfg page
  | _ => true
  end.

(** ** [parseHTMLAsync] *)

Record ParsedPage : Type := {
  ppPage : Z;
  hashes : list jsstring
}.

(** [parseHTMLAsync(pageData)]: the promise is always resolved, with no
    hashes when the page has no content. *)
Definition parseHTMLAsync (pageData : PageResult) : ParsedPage :=
  match truthy pageData.(htmlContent) with
  | None => {| ppPage := pageData.(prPage); hashes := [] |}
  | Some html =>
      {| ppPage := pageData.(prPage); hashes := parseHTMLForHashes html |}
  end.

(** ** Cooldowns *)

Definition isCooldown (e : event) : bool :=
  match e with Cooldown _ _ => true | _ => false end.

(** The number of cooldowns waited. *)
Definition cooldowns (evs : list event) : nat :=
  List.length (filter isCooldown evs).

(** ** The tasks of a window, in their turn *)

(** The starts and the ends of the page tasks of a window. *)
Definition marksOn (slot : Z) (evs : list event) : list event :=
  filter (fun e => startsOn slot e || endsOn slot e) evs.

(** The tasks of the pages run on the window one after the other, each
    from its start to its end. *)
Definition served (slot : Z) (pages : list Z) : list event :=
  flat_map (fun p => [TaskStart p slot; TaskEnd p slot]) pages.

(** The start of the task that is running on a window: the task of the
    first page of its chain. *)
Definition running (slot : Z) (chain : list Z) : list event :=
  match chain with
  | [] => []
  | q :: _ => [TaskStart q slot]
  end.

(** On every window the pages chained so far are the pages served, in
    their order, and then the pages of the chain, the first of which is
    running. *)
Definition inTurn (cfg : Config) (st : Session) : Prop :=
  forall slot, exists done,
    chainOf cfg slot (scheduledPages (trace st))
      = done ++ chainOf cfg slot (pending st) /\
    marksOn slot (trace st)
      = served slot done ++ running slot (chainOf cfg slot (pending st)).
(** * Properties *)

(** ** Running monadic code *)

Lemma bind_run {A B : Type} (m : M A) (f : A -> M B) (st : Session) :
  bind m f st = f (fst (m st)) (snd (m st)).
Proof. unfold bind. destruct (m st); reflexivity. Qed.

Lemma forallb_impl {A : Type} (f g : A -> bool) (l : list A) :
  (forall x, f x = true -> g x = true) ->
  forallb f l = true -> forallb g l = true.
Proof.
  intros Hfg H. rewrite forallb_forall in *. auto.
Qed.

Ltac run :=
  repeat (rewrite bind_run
          || (progress unfold ret, gets, modify, when, log, setHashes,
                 setFailed, setProcessed, setPassed, setFetched, setPending)
          || (progress cbn [fst snd allHashesSet failedPages processedPages
                            completedCount cloudflarePassed fetched pending
                            trace])).

(** ** The inter-wave delay *)

Lemma adaptiveDelay_tiers (batchErrors : Z) :
  (5 < batchErrors -> adaptiveDelay batchErrors = 2000) /\
  (2 < batchErrors <= 5 -> adaptiveDelay batchErrors = 800) /\
  (batchErrors <= 2 -> adaptiveDelay batchErrors = 100).
Proof.
  unfold adaptiveDelay; simpl.
  repeat split; intros;
    destruct (Z.gtb_spec batchErrors 5); destruct (Z.gtb_spec batchErrors 2);
    try lia; reflexivity.
Qed.

Lemma interWaveWait_run (batchErrors : Z) (st : Session) :
  sameData st (snd (interWaveWait batchErrors st)) /\
  trace (snd (interWaveWait batchErrors st)) = trace st ++ tierWait batchErrors.
Proof.
  unfold interWaveWait, adaptiveDelay, sameData, tierWait; simpl.
  rewrite !Z.gtb_ltb.
  destruct (5 <? batchErrors); [simpl; auto 10|].
  destruct (2 <? batchErrors); simpl; rewrite ?app_nil_r; auto 10.
Qed.

Lemma tierWait_tiers (batchErrors : Z) :
  tierWait batchErrors =
    if 6 <=? batchErrors then [WaveDelay 2000]
    else if 3 <=? batchErrors then [WaveDelay 800]
    else [].
Proof.
  unfold tierWait.
  destruct (Z.ltb_spec 5 batchErrors), (Z.leb_spec 6 batchErrors); try lia;
    try reflexivity.
  destruct (Z.ltb_spec 2 batchErrors), (Z.leb_spec 3 batchErrors); try lia;
    reflexivity.
Qed.

Section WaveProperties.
Variable w : World.
Variable cfg : Config.

Lemma waveLoop_step (fuel : nat) (actual batchStart errorCount : Z)
      (st : Session) :
  batchStart <= actual ->
  let batchEnd := Z.min (batchStart + cfg.(maxWindows) - 1) actual in
  let batch := runBatch w cfg (pageRange batchStart batchEnd) st in
  let batchErrors := countRejected (fst batch) in
  waveLoop w cfg (S fuel) actual batchStart errorCount st =
    waveLoop w cfg fuel actual (batchEnd + 1) (errorCount + batchErrors)
      (if batchEnd + 1 <=? actual
       then snd (interWaveWait batchErrors (snd batch))
       else snd batch).
Proof.
  intros Hle. cbn zeta. cbn [waveLoop].
  destruct (Z.leb_spec batchStart actual); [|lia].
  rewrite !bind_run. unfold when.
  destruct (_ <=? actual); reflexivity.
Qed.

(** *** Settlement of a page task *)

Lemma pagePromise_run (page : Z) (st : Session) :
  fst (pagePromise w cfg page st) =
    Fulfilled (taskValue page
                 (fst (scrapePageSafe w cfg page (afterCooldown cfg page st)))).
Proof.
  unfold pagePromise, catchP, thenP, processPageFetch, afterCooldown.
  rewrite !bind_run. cbn [fst snd ret].
  unfold processPageMerge, taskValue.
  destruct (truthy _); rewrite !bind_run; reflexivity.
Qed.

Lemma catch_rejected (page : Z) (reason : jsstring) (st : Session) :
  fst (catchP (ret (Rejected reason)) (processPageCatch page) st) =
    Fulfilled {| trPage := page; hashCount := 0 |} /\
  failedPages (snd (catchP (ret (Rejected reason)) (processPageCatch page) st))
    = setAdd Z.eqb page (failedPages st).
Proof.
  unfold catchP, processPageCatch, addFailed. run. split; reflexivity.
Qed.

Lemma settle_fulfilled (page : Z) (st : Session) :
  isRejected (fst (settle w cfg page st)) = false.
Proof.
  unfold settle. rewrite !bind_run. cbn [ret fst].
  rewrite pagePromise_run. reflexivity.
Qed.

Lemma race_rejected (page : Z) (st : Session) :
  isRejected (fst (raceBatchTimeout w cfg page st)) = w.(batchTimedOut) page.
Proof.
  unfold raceBatchTimeout. destruct (batchTimedOut w page); [reflexivity|].
  unfold awaitPage. rewrite !bind_run. apply settle_fulfilled.
Qed.

Lemma races_count (pages : list Z) (st : Session) :
  List.length (filter isRejected (fst (mapM (raceBatchTimeout w cfg) pages st)))
  = List.length (filter w.(batchTimedOut) pages).
Proof.
  revert st. induction pages as [|p pages IH]; intro st; [reflexivity|].
  cbn [mapM]. rewrite !bind_run. cbn [ret fst filter].
  rewrite race_rejected.
  destruct (batchTimedOut w p); cbn [List.length]; rewrite IH; reflexivity.
Qed.

Lemma runBatch_errors (pages : list Z) (st : Session) :
  countRejected (fst (runBatch w cfg pages st)) =
    Z.of_nat (List.length (filter w.(batchTimedOut) pages)).
Proof.
  unfold runBatch, countRejected. rewrite bind_run, races_count. reflexivity.
Qed.

End WaveProperties.

(** ** One attempt: [scrapePage] *)

Section FetchProperties.
Variable w : World.
Variable cfg : Config.

Lemma clearCloudflareStatus_run (st : Session) :
  snd (clearCloudflareStatus st) =
    mkSession st.(allHashesSet) st.(failedPages) st.(processedPages)
              st.(completedCount) false st.(fetched) st.(pending)
              (st.(trace) ++ if st.(cloudflarePassed) then [StatusCleared]
                             else []).
Proof.
  unfold clearCloudflareStatus. run.
  destruct st as [h f p c passed fe pe tr]; cbn.
  destruct passed; cbn; rewrite ?app_nil_r; reflexivity.
Qed.

Lemma scrapePage_run (page : Z) (st : Session) :
  let o := w.(render) page (st.(fetched) page) in
  scrapePage w cfg page st =
    ({| prPage := page; htmlContent := classify o |},
     mkSession st.(allHashesSet) st.(failedPages) st.(processedPages)
               st.(completedCount)
               (st.(cloudflarePassed) && negb (challengeSeen o))
               (fun q => if q =? page then S (st.(fetched) q)
                         else st.(fetched) q)
               st.(pending)
               (st.(trace) ++ Navigate page (windowIndex cfg page) ::
                  if st.(cloudflarePassed) && challengeSeen o
                  then [StatusCleared] else [])).
Proof.
  cbn zeta. unfold scrapePage, scrapePageTry. run.
  destruct st as [h f p c passed fe pe tr].
  cbn [fst snd allHashesSet failedPages processedPages completedCount
       cloudflarePassed fetched pending trace].
  unfold classify, challengeSeen.
  destruct (render w page (fe page)) as [msg|[html|]].
  - cbn. rewrite !andb_false_r, andb_true_r. reflexivity.
  - destruct (insufficient (Some html)) eqn:Hins.
    + cbn. rewrite !andb_false_r, andb_true_r. reflexivity.
    + destruct (detectedFailure html) as [pat|] eqn:Hdet.
      * rewrite !bind_run. unfold when.
        destruct (str_eqb pat (js "cloudflare")).
        -- rewrite clearCloudflareStatus_run. cbn.
           rewrite andb_true_r, andb_false_r.
           destruct passed; cbn; rewrite <- ?app_assoc; reflexivity.
        -- cbn. rewrite !andb_false_r, andb_true_r. reflexivity.
      * cbn. rewrite !andb_false_r, andb_true_r. reflexivity.
  - cbn. rewrite !andb_false_r, andb_true_r. reflexivity.
Qed.

Lemma scrapePage_result (page : Z) (st : Session) :
  fst (scrapePage w cfg page st) =
    {| prPage := page;
       htmlContent := classify (w.(render) page (st.(fetched) page)) |}.
Proof. rewrite scrapePage_run. reflexivity. Qed.

Lemma scrapePage_fetchOnly (page : Z) (st : Session) :
  fetchOnly page st (snd (scrapePage w cfg page st)).
Proof.
  rewrite scrapePage_run. unfold fetchOnly; cbn.
  repeat split; try reflexivity.
  intros q Hq. destruct (Z.eqb_spec q page); [contradiction|reflexivity].
Qed.

Lemma scrapePage_fetched (page : Z) (st : Session) :
  fetched (snd (scrapePage w cfg page st)) page = S (fetched st page).
Proof. rewrite scrapePage_run. cbn. rewrite Z.eqb_refl. reflexivity. Qed.

Lemma validated_accepted (page : Z) (content : option jsstring) :
  validated {| prPage := page; htmlContent := content |} = accepted content.
Proof. reflexivity. Qed.

Lemma fetchOnly_refl (page : Z) (st : Session) : fetchOnly page st st.
Proof. unfold fetchOnly; auto 10. Qed.

Lemma fetchOnly_trans (page : Z) (st1 st2 st3 : Session) :
  fetchOnly page st1 st2 -> fetchOnly page st2 st3 -> fetchOnly page st1 st3.
Proof.
  unfold fetchOnly.
  intros (A1 & A2 & A3 & A4 & A5 & A6) (B1 & B2 & B3 & B4 & B5 & B6).
  repeat split; try congruence.
  intros q Hq. rewrite B6, A6; auto.
Qed.

Lemma log_fetchOnly (page : Z) (e : event) (st : Session) :
  fetchOnly page st (snd (log e st)).
Proof. unfold fetchOnly, log, modify; cbn. auto 10. Qed.

(** ** The inline retry loop: [scrapePageSafe] *)

Lemma attemptLoop_result (n : nat) (attempt page : Z) (st : Session) :
  fst (attemptLoop w cfg n attempt page st) =
    {| prPage := page;
       htmlContent := safeContent w page n (st.(fetched) page) |}.
Proof.
  revert attempt st. induction n as [|n IH]; intros attempt st.
  - reflexivity.
  - cbn [attemptLoop safeContent]. rewrite bind_run, scrapePage_result.
    rewrite validated_accepted.
    destruct (accepted _); [reflexivity|].
    rewrite bind_run, IH. f_equal. f_equal.
    unfold when. destruct (attempt <? _); run;
      rewrite scrapePage_fetched; reflexivity.
Qed.

Lemma attemptLoop_fetchOnly (n : nat) (attempt page : Z) (st : Session) :
  fetchOnly page st (snd (attemptLoop w cfg n attempt page st)).
Proof.
  revert attempt st. induction n as [|n IH]; intros attempt st.
  - apply fetchOnly_refl.
  - cbn [attemptLoop]. rewrite bind_run, scrapePage_result.
    rewrite validated_accepted.
    destruct (accepted _); [apply scrapePage_fetchOnly|].
    rewrite bind_run.
    eapply fetchOnly_trans; [apply scrapePage_fetchOnly|].
    eapply fetchOnly_trans; [|apply IH].
    unfold when. destruct (attempt <? _);
      [apply log_fetchOnly | apply fetchOnly_refl].
Qed.

Lemma scrapePageSafe_result (page : Z) (st : Session) :
  fst (scrapePageSafe w cfg page st) =
    {| prPage := page;
       htmlContent := safeContent w page (Z.to_nat options.(maxRetries))
                                  (st.(fetched) page) |}.
Proof. apply attemptLoop_result. Qed.

Lemma scrapePageSafe_fetchOnly (page : Z) (st : Session) :
  fetchOnly page st (snd (scrapePageSafe w cfg page st)).
Proof. apply attemptLoop_fetchOnly. Qed.

End FetchProperties.

(** ** Counting navigations *)

Lemma navigations_app (page : Z) (evs1 evs2 : list event) :
  navigations page (evs1 ++ evs2) =
    (navigations page evs1 + navigations page evs2)%nat.
Proof. unfold navigations. rewrite filter_app, length_app. reflexivity. Qed.

Lemma emitted_extends {A : Type} (m : M A) (st : Session) (evs : list event) :
  trace (snd (m st)) = trace st ++ evs -> emitted m st = evs.
Proof.
  intro H. unfold emitted. rewrite H.
  rewrite skipn_app, skipn_all, Nat.sub_diag. reflexivity.
Qed.

Lemma safeContent_none (w : World) (page : Z) (n base : nat) :
  (forall k, (k < n)%nat ->
     accepted (classify (w.(render) page (base + k)%nat)) = false) ->
  safeContent w page n base = None /\ attemptsMade w page n base = n.
Proof.
  revert base. induction n as [|n IH]; intros base H; [split; reflexivity|].
  cbn [safeContent attemptsMade].
  pose proof (H O ltac:(lia)) as H0. rewrite Nat.add_0_r in H0. rewrite H0.
  destruct (IH (S base)) as [IH1 IH2].
  - intros k Hk. replace (S base + k)%nat with (base + S k)%nat by lia.
    apply H. lia.
  - split; congruence.
Qed.

Section TaskProperties.
Variable w : World.
Variable cfg : Config.

Lemma attemptLoop_trace (n : nat) (attempt page : Z) (st : Session) :
  exists evs,
    trace (snd (attemptLoop w cfg n attempt page st)) = trace st ++ evs /\
    Forall (fetchEvent cfg page) evs /\
    navigations page evs = attemptsMade w page n (st.(fetched) page).
Proof.
  revert attempt st. induction n as [|n IH]; intros attempt st.
  - exists []. cbn. rewrite app_nil_r. auto.
  - cbn [attemptLoop attemptsMade]. rewrite bind_run, scrapePage_result.
    rewrite validated_accepted.
    set (o := render w page (fetched st page)).
    assert (Hnav : forall tail, Forall (fetchEvent cfg page) tail ->
              exists evs,
                trace (snd (scrapePage w cfg page st)) ++ tail
                  = trace st ++ evs /\
                Forall (fetchEvent cfg page) evs /\
                navigations page evs = S (navigations page tail)).
    { intros tail Htail. rewrite scrapePage_run. cbn [snd trace]. fold o.
      eexists. split; [rewrite <- app_assoc; reflexivity|].
      split.
      - apply Forall_app. split; [|exact Htail].
        constructor; [left; reflexivity|].
        destruct (_ && _); constructor; [right; right; reflexivity|constructor].
      - cbn [app]. unfold navigations at 1. cbn [filter isNavigate].
        rewrite Z.eqb_refl. cbn [List.length]. f_equal.
        rewrite filter_app, length_app.
        destruct (_ && _); reflexivity. }
    destruct (accepted (classify o)).
    + destruct (Hnav [] (Forall_nil _)) as (evs & E1 & E2 & E3).
      rewrite app_nil_r in E1. exists evs. auto.
    + rewrite bind_run.
      set (st1 := snd (scrapePage w cfg page st)).
      set (st2 := snd (when _ _ st1)).
      destruct (IH (attempt + 1) st2) as (evs2 & T2 & F2 & N2).
      assert (Hst2 : exists b, trace st2 = trace st1 ++ b /\
                 Forall (fetchEvent cfg page) b /\ navigations page b = O /\
                 fetched st2 = fetched st1).
      { unfold st2, when. destruct (attempt <? _).
        - eexists. split; [reflexivity|]. split; [|split; reflexivity].
          constructor; [right; left; eexists; reflexivity|constructor].
        - exists []. cbn. rewrite app_nil_r. auto. }
      destruct Hst2 as (b & Tb & Fb & Nb & Eb).
      destruct (Hnav (b ++ evs2)) as (evs & E1 & E2 & E3).
      { apply Forall_app; auto. }
      exists evs. split; [|split; [exact E2|]].
      * rewrite T2, Tb, <- app_assoc. exact E1.
      * rewrite E3, navigations_app, Nb, N2, Eb. unfold st1.
        rewrite scrapePage_fetched. reflexivity.
Qed.

(** *** The state after a page task *)

Lemma pagePromise_state (page : Z) (st : Session) :
  let content :=
    safeContent w page (Z.to_nat options.(maxRetries)) (st.(fetched) page) in
  let st' := snd (pagePromise w cfg page st) in
  allHashesSet st' =
    match truthy content with
    | Some html => setAddAll str_eqb (parseHTMLForHashes html) (allHashesSet st)
    | None => allHashesSet st
    end /\
  failedPages st' =
    match truthy content with
    | Some _ => failedPages st
    | None => setAdd Z.eqb page (failedPages st)
    end /\
  pending st' = pending st.
Proof.
  cbn zeta.
  unfold pagePromise, catchP, thenP, processPageFetch.
  rewrite !bind_run. cbn [ret fst snd].
  fold (afterCooldown cfg page st).
  set (st0 := afterCooldown cfg page st).
  assert (H0 : fetched st0 = fetched st) by reflexivity.
  rewrite scrapePageSafe_result, H0.
  destruct (scrapePageSafe_fetchOnly w cfg page st0)
    as (A1 & A2 & A3 & A4 & A5 & A6).
  unfold processPageMerge. cbn [htmlContent].
  destruct (truthy _) as [html|].
  - unfold addHashes. run. rewrite A1, A2, A5.
    destruct (negb _); cbn; auto.
  - unfold addFailed. run. rewrite A1, A2, A5. auto.
Qed.

Lemma pagePromise_fetched (page q : Z) (st : Session) :
  q <> page ->
  fetched (snd (pagePromise w cfg page st)) q = fetched st q.
Proof.
  intro Hq.
  unfold pagePromise, catchP, thenP, processPageFetch.
  rewrite !bind_run. cbn [ret fst snd].
  fold (afterCooldown cfg page st).
  set (st0 := afterCooldown cfg page st).
  assert (H0 : fetched st0 = fetched st) by reflexivity.
  destruct (scrapePageSafe_fetchOnly w cfg page st0)
    as (_ & _ & _ & _ & _ & A6).
  rewrite <- H0, <- (A6 q Hq).
  unfold processPageMerge.
  destruct (truthy _) as [html|].
  - unfold addHashes. run. destruct (negb _); reflexivity.
  - unfold addFailed. run. reflexivity.
Qed.

End TaskProperties.

(** ** Sets *)

Lemma setAdd_In (x : Z) (l : list Z) : In x (setAdd Z.eqb x l).
Proof.
  unfold setAdd, setHas. destruct (existsb (Z.eqb x) l) eqn:E.
  - apply existsb_exists in E. destruct E as (y & Hy & Hxy).
    apply Z.eqb_eq in Hxy. subst. exact Hy.
  - apply in_or_app. right. left. reflexivity.
Qed.

(** ** Single pages *)

Section PageProperties.
Variable w : World.
Variable cfg : Config.

Lemma insufficient_classify (h : option jsstring) :
  insufficient h = true -> classify (Rendered h) = None.
Proof. intro H. unfold classify. rewrite H. reflexivity. Qed.

Lemma exactly500_checks (html : jsstring) :
  strlen html = 500 ->
  insufficient (Some html) = false /\ accepted (Some html) = false /\
  accepted (classify (Rendered (Some html))) = false.
Proof.
  intro H. assert (Hi : insufficient (Some html) = false).
  { unfold insufficient. destruct html as [|c t]; [discriminate|].
    rewrite H. reflexivity. }
  assert (Ha : accepted (Some html) = false).
  { unfold accepted, truthy. destruct html as [|c t]; [reflexivity|].
    rewrite H. reflexivity. }
  repeat split; auto.
  unfold classify. rewrite Hi.
  destruct (detectedFailure html); [reflexivity|exact Ha].
Qed.

Lemma task_without_content (page : Z) (st : Session) :
  safeContent w page (Z.to_nat options.(maxRetries)) (st.(fetched) page)
    = None ->
  fst (pagePromise w cfg page st)
    = Fulfilled {| trPage := page; hashCount := 0 |} /\
  allHashesSet (snd (pagePromise w cfg page st)) = allHashesSet st /\
  In page (failedPages (snd (pagePromise w cfg page st))).
Proof.
  intro Hnone.
  destruct (pagePromise_state w cfg page st) as (H1 & H2 & _).
  rewrite Hnone in H1, H2. cbn [truthy] in H1, H2.
  split; [|split; [exact H1|rewrite H2; apply setAdd_In]].
  rewrite pagePromise_run, scrapePageSafe_result. unfold taskValue.
  cbn [htmlContent]. assert (E : fetched (afterCooldown cfg page st) = fetched st)
    by reflexivity.
  rewrite E, Hnone. reflexivity.
Qed.

Lemma scrapePageSafe_navigations (page : Z) (st : Session) :
  navigations page (emitted (scrapePageSafe w cfg page) st) =
    attemptsMade w page (Z.to_nat options.(maxRetries)) (st.(fetched) page).
Proof.
  destruct (attemptLoop_trace w cfg (Z.to_nat options.(maxRetries)) 1 page st)
    as (evs & T & _ & N).
  unfold scrapePageSafe. rewrite (emitted_extends _ _ _ T). exact N.
Qed.

Lemma find_app_none {A : Type} (f : A -> bool) (l1 l2 : list A) :
  existsb f l1 = false -> find f (l1 ++ l2) = find f l2.
Proof.
  induction l1 as [|x l1 IH]; cbn; [reflexivity|].
  destruct (f x); [discriminate|]. exact IH.
Qed.

Lemma detectedFailure_some (html : jsstring) :
  (exists pattern, In pattern failurePatterns /\
     includes (toLowerCase html) (toLowerCase pattern) = true) ->
  detectedFailure html <> None.
Proof.
  intros (pat & Hin & Hinc) Hnone. unfold detectedFailure in Hnone.
  pose proof (find_none _ _ Hnone pat Hin) as Hf. cbn beta in Hf. congruence.
Qed.

Lemma detectedFailure_challenge (html : jsstring) :
  existsb (fun pattern => includes (toLowerCase html) (toLowerCase pattern))
          (firstn 7 failurePatterns) = false ->
  includes (toLowerCase html) (js "cloudflare") = true ->
  detectedFailure html = Some (js "cloudflare").
Proof.
  intros Hfirst Hinc. unfold detectedFailure.
  change failurePatterns
    with (firstn 7 failurePatterns ++ [js "cloudflare"; js "please try again"]).
  rewrite find_app_none by exact Hfirst.
  cbn [find]. change (toLowerCase (js "cloudflare")) with (js "cloudflare").
  rewrite Hinc. reflexivity.
Qed.

End PageProperties.

(** ** The retry pass *)

Section RetryProperties.
Variable w : World.
Variable cfg : Config.

Lemma fetchEvent_quiet (q : Z) (e : event) :
  fetchEvent cfg q e ->
  isPacingOrStart e = false /\ (forall p, p <> q -> isNavigate p e = false).
Proof.
  intros [H|[[ms H]|H]]; subst; split; try reflexivity; intros p Hp; cbn;
    try reflexivity.
  destruct (Z.eqb_spec q p); [congruence|reflexivity].
Qed.

Lemma navigations_other (q p : Z) (evs : list event) :
  Forall (fetchEvent cfg q) evs -> p <> q -> navigations p evs = O.
Proof.
  intros H Hp. unfold navigations. induction H as [|e evs He _ IH]; [reflexivity|].
  cbn [filter]. destruct (fetchEvent_quiet q e He) as [_ Hn].
  rewrite (Hn p Hp). exact IH.
Qed.

Lemma pacing_none (q : Z) (evs : list event) :
  Forall (fetchEvent cfg q) evs -> filter isPacingOrStart evs = [].
Proof.
  intros H. induction H as [|e evs He _ IH]; [reflexivity|].
  cbn [filter]. destruct (fetchEvent_quiet q e He) as [Hq _].
  rewrite Hq. exact IH.
Qed.

Lemma retryPage_trace (q : Z) (st : Session) :
  exists evs,
    trace (snd (retryPage w cfg q st)) =
      trace st ++ evs ++ [TaskEnd q (windowIndex cfg q)] /\
    Forall (fetchEvent cfg q) evs /\
    navigations q evs =
      attemptsMade w q (Z.to_nat options.(maxRetries)) (st.(fetched) q) /\
    (forall p, p <> q ->
       fetched (snd (retryPage w cfg q st)) p = fetched st p).
Proof.
  destruct (attemptLoop_trace w cfg (Z.to_nat options.(maxRetries)) 1 q st)
    as (evs & T & F & N).
  destruct (scrapePageSafe_fetchOnly w cfg q st) as (_ & _ & _ & _ & _ & Hf).
  fold (scrapePageSafe w cfg q) in T.
  exists evs. unfold retryPage. rewrite !bind_run.
  set (st1 := snd (scrapePageSafe w cfg q st)) in *.
  destruct (truthy (htmlContent (fst (scrapePageSafe w cfg q st)))) as [html|];
    unfold addHashes; run; rewrite T, <- app_assoc; auto.
Qed.

Lemma retryPages_trace (l : list Z) (st : Session) :
  exists evs,
    trace (snd (mapM (retryPage w cfg) l st)) = trace st ++ evs /\
    filter isPacingOrStart evs = [] /\
    (forall p, ~ In p l -> navigations p evs = O /\
       fetched (snd (mapM (retryPage w cfg) l st)) p = fetched st p) /\
    (forall p, In p l -> NoDup l ->
       navigations p evs =
         attemptsMade w p (Z.to_nat options.(maxRetries)) (st.(fetched) p)).
Proof.
  revert st. induction l as [|q l IH]; intro st.
  - exists []. cbn. rewrite app_nil_r. repeat split; auto. contradiction.
  - cbn [mapM]. rewrite !bind_run. cbn [ret snd].
    destruct (retryPage_trace q st) as (evs1 & T1 & F1 & N1 & Hf1).
    set (st1 := snd (retryPage w cfg q st)) in *.
    destruct (IH st1) as (evs2 & T2 & P2 & Out2 & In2).
    exists ((evs1 ++ [TaskEnd q (windowIndex cfg q)]) ++ evs2).
    split; [rewrite T2, T1, <- !app_assoc; reflexivity|].
    split; [|split].
    + rewrite !filter_app, (pacing_none q evs1 F1), P2. reflexivity.
    + intros p Hp. assert (Hpq : p <> q) by (intro; subst; apply Hp; left; auto).
      assert (Hpl : ~ In p l) by (intro; apply Hp; right; auto).
      destruct (Out2 p Hpl) as [O1 O2].
      rewrite !navigations_app, (navigations_other q p evs1 F1 Hpq), O1.
      split; [reflexivity|]. rewrite O2. apply Hf1, Hpq.
    + intros p Hp Hnd. inversion Hnd as [|x l' Hnotin Hnd']; subst.
      rewrite !navigations_app.
      destruct Hp as [Hp|Hp].
      * subst p. destruct (Out2 q Hnotin) as [O1 _].
        rewrite N1, O1. cbn. lia.
      * assert (Hpq : p <> q) by (intro; subst; contradiction).
        rewrite (navigations_other q p evs1 F1 Hpq), (In2 p Hp Hnd').
        rewrite (Hf1 p Hpq). cbn.
        destruct (Z.eqb_spec p q); [contradiction|reflexivity].
Qed.

Lemma launch_trace (l : list Z) (st : Session) :
  let st' := snd (forEach (fun page => log (TaskStart page (windowIndex cfg page)))
                          l st) in
  trace st' = trace st ++ map (fun page => TaskStart page (windowIndex cfg page)) l /\
  fetched st' = fetched st /\ failedPages st' = failedPages st /\
  allHashesSet st' = allHashesSet st.
Proof.
  revert st. induction l as [|q l IH]; intro st; cbn zeta.
  - cbn. rewrite app_nil_r. auto.
  - cbn [forEach map]. rewrite bind_run.
    destruct (IH (snd (log (TaskStart q (windowIndex cfg q)) st)))
      as (T & F & Fa & H).
    rewrite T, F, Fa, H. cbn. rewrite <- app_assoc. auto.
Qed.

Lemma attemptsMade_bounds (page : Z) (base : nat) :
  (1 <= attemptsMade w page (Z.to_nat options.(maxRetries)) base <= 2)%nat /\
  (attemptsMade w page (Z.to_nat options.(maxRetries)) base = 1%nat <->
   accepted (classify (w.(render) page base)) = true).
Proof.
  change (Z.to_nat options.(maxRetries)) with 2%nat. cbn [attemptsMade].
  destruct (accepted (classify (render w page base))).
  - split; [lia|tauto].
  - destruct (accepted _); split; try lia; split; intro; try lia; discriminate.
Qed.

End RetryProperties.

(** ** The value [scrappe] returns *)

Lemma scrappe_returns_snapshot (w : World) (cfg : Config) (fuel : nat)
      (st : Session) (hashes : list jsstring) :
  fst (scrappeWith w cfg fuel st) = Some hashes ->
  hashes = allHashesSet (snd (runWaves w cfg fuel st)).
Proof.
  unfold scrappeWith. rewrite bind_run.
  destruct (fst (runWaves w cfg fuel st)); [|discriminate].
  rewrite !bind_run. cbn [gets fst snd ret]. congruence.
Qed.

(** ** The pages a session schedules *)

Lemma scheduledPages_app (evs1 evs2 : list event) :
  scheduledPages (evs1 ++ evs2) = scheduledPages evs1 ++ scheduledPages evs2.
Proof. apply flat_map_app. Qed.

Lemma emits_ret (ok : event -> bool) {A : Type} (a : A) : emits ok (ret a).
Proof. intro st. exists []. cbn. rewrite app_nil_r. auto. Qed.

Lemma emits_bind (ok : event -> bool) {A B : Type} (m : M A) (f : A -> M B) :
  emits ok m -> (forall a, emits ok (f a)) -> emits ok (bind m f).
Proof.
  intros Hm Hf st. rewrite bind_run.
  destruct (Hm st) as (evs1 & T1 & S1).
  destruct (Hf (fst (m st)) (snd (m st))) as (evs2 & T2 & S2).
  exists (evs1 ++ evs2). rewrite T2, T1, <- app_assoc, forallb_app, S1, S2.
  auto.
Qed.

Lemma emits_gets (ok : event -> bool) {A : Type} (f : Session -> A) :
  emits ok (gets f).
Proof. intro st. exists []. cbn. rewrite app_nil_r. auto. Qed.

Lemma emits_modify (ok : event -> bool) (f : Session -> Session) :
  (forall st, trace (f st) = trace st) -> emits ok (modify f).
Proof. intros H st. exists []. cbn. rewrite H, app_nil_r. auto. Qed.

Lemma emits_log (ok : event -> bool) (e : event) :
  ok e = true -> emits ok (log e).
Proof. intros H st. exists [e]. cbn. rewrite H. auto. Qed.

Lemma emits_when (ok : event -> bool) (b : bool) (m : M unit) :
  emits ok m -> emits ok (when b m).
Proof. intro H. destruct b; [exact H|apply emits_ret]. Qed.

Lemma emits_forEach (ok : event -> bool) {A : Type} (f : A -> M unit)
      (l : list A) :
  (forall x, emits ok (f x)) -> emits ok (forEach f l).
Proof.
  intro H. induction l as [|x l IH]; [apply emits_ret|].
  cbn [forEach]. apply emits_bind; auto.
Qed.

Lemma emits_mapM (ok : event -> bool) {A B : Type} (f : A -> M B)
      (l : list A) :
  (forall x, emits ok (f x)) -> emits ok (mapM f l).
Proof.
  intro H. induction l as [|x l IH]; [apply emits_ret|].
  cbn [mapM]. apply emits_bind; [apply H|]. intro y.
  apply emits_bind; [exact IH|]. intro ys. apply emits_ret.
Qed.

Lemma emits_weaken (ok ok' : event -> bool) {A : Type} (m : M A) :
  (forall e, ok e = true -> ok' e = true) -> emits ok m -> emits ok' m.
Proof.
  intros Hw H st. destruct (H st) as (evs & T & F).
  exists evs. split; [exact T|]. eapply forallb_impl; eauto.
Qed.

Lemma notScheduled_pages (evs : list event) :
  forallb notScheduled evs = true -> scheduledPages evs = [].
Proof.
  induction evs as [|e evs IH]; [reflexivity|]. cbn [forallb].
  intro H. apply andb_true_iff in H. destruct H as [He Hevs].
  cbn [scheduledPages flat_map]. fold (scheduledPages evs). rewrite (IH Hevs).
  destruct e; try reflexivity; discriminate.
Qed.

Create HintDb emits.
#[local] Hint Resolve emits_ret emits_gets emits_when emits_forEach emits_mapM
  : emits.
#[local] Hint Extern 1 (emits _ (bind _ _)) =>
  (apply emits_bind; [|intro]) : emits.
#[local] Hint Extern 1 (emits _ (log _)) =>
  (apply emits_log; reflexivity) : emits.
#[local] Hint Extern 1 (emits _ (modify _)) =>
  (apply emits_modify; intro; reflexivity) : emits.
#[local] Hint Extern 2 (emits _ (match ?x with _ => _ end)) =>
  destruct x : emits.
#[local] Hint Extern 2 (emits _ (if ?x then _ else _)) =>
  destruct x : emits.

Ltac emits_step :=
  unfold setHashes, setFailed, setProcessed, setPassed, setFetched, setPending;
  auto 20 with emits.

Section ScheduleProperties.
Variable w : World.
Variable cfg : Config.

Lemma emits_clear : emits fetchLevel clearCloudflareStatus.
Proof. unfold clearCloudflareStatus. emits_step. Qed.

Lemma emits_scrapePage (page : Z) : emits fetchLevel (scrapePage w cfg page).
Proof.
  pose proof emits_clear.
  unfold scrapePage, scrapePageTry. emits_step.
Qed.

Lemma emits_attemptLoop (n : nat) (attempt page : Z) :
  emits fetchLevel (attemptLoop w cfg n attempt page).
Proof.
  revert attempt. induction n as [|n IH]; intro attempt; cbn [attemptLoop].
  - apply emits_ret.
  - pose proof (emits_scrapePage page). emits_step.
Qed.

Lemma emits_pagePromise (page : Z) : emits fetchLevel (pagePromise w cfg page).
Proof.
  pose proof (emits_attemptLoop (Z.to_nat options.(maxRetries)) 1 page).
  unfold pagePromise, catchP, thenP, processPageFetch, processPageMerge,
    processPageCatch, addHashes, addFailed, scrapePageSafe.
  emits_step.
Qed.

Lemma fetchLevel_notScheduled (e : event) :
  fetchLevel e = true -> notScheduled e = true.
Proof. destruct e; cbn; congruence. Qed.

Lemma quiet_settle (page : Z) : emits notScheduled (settle w cfg page).
Proof.
  pose proof (emits_weaken _ _ _ fetchLevel_notScheduled
                (emits_pagePromise page)).
  unfold settle. emits_step.
Qed.

Lemma quiet_race (page : Z) : emits notScheduled (raceBatchTimeout w cfg page).
Proof.
  pose proof quiet_settle.
  unfold raceBatchTimeout, awaitPage. emits_step.
Qed.

Lemma quiet_awaitStragglers : emits notScheduled (awaitStragglers w cfg).
Proof. pose proof quiet_settle. unfold awaitStragglers. emits_step. Qed.

Lemma quiet_retry : emits notScheduled (retryFailedPages w cfg).
Proof.
  pose proof (fun page =>
    emits_weaken _ _ _ fetchLevel_notScheduled
      (emits_attemptLoop (Z.to_nat options.(maxRetries)) 1 page)).
  unfold retryFailedPages, retryPage, scrapePageSafe, addHashes. emits_step.
Qed.

Lemma quiet_interWaveWait (batchErrors : Z) :
  emits notScheduled (interWaveWait batchErrors).
Proof. unfold interWaveWait. emits_step. Qed.

End ScheduleProperties.

Lemma pageRange_empty (a b : Z) : b < a -> pageRange a b = [].
Proof.
  intro H. unfold pageRange.
  replace (Z.to_nat (b - a + 1)) with O by lia. reflexivity.
Qed.

Lemma map_seq_from {A : Type} (f : nat -> A) (n m : nat) :
  map f (seq n m) = map (fun k => f (n + k)%nat) (seq 0 m).
Proof.
  revert n f. induction m as [|m IH]; intros n f; [reflexivity|].
  cbn [seq map]. rewrite Nat.add_0_r. f_equal.
  rewrite (IH (S n) f), (IH 1%nat (fun k => f (n + k)%nat)).
  apply map_ext. intro k. f_equal. lia.
Qed.

Lemma pageRange_app (a b c : Z) :
  a <= b + 1 -> b <= c ->
  pageRange a b ++ pageRange (b + 1) c = pageRange a c.
Proof.
  intros Hab Hbc. unfold pageRange.
  replace (Z.to_nat (c - a + 1))
    with (Z.to_nat (b - a + 1) + Z.to_nat (c - (b + 1) + 1))%nat by lia.
  rewrite seq_app, map_app. f_equal.
  cbn [Nat.add]. rewrite (map_seq_from _ (Z.to_nat (b - a + 1))).
  apply map_ext. intro k. lia.
Qed.

Section WaveSchedule.
Variable w : World.
Variable cfg : Config.

Lemma processPage_scheduled (page : Z) (st : Session) :
  exists evs,
    trace (snd (processPage cfg page st)) = trace st ++ evs /\
    scheduledPages evs = [page].
Proof.
  unfold processPage. run.
  destruct (chainOf cfg (windowIndex cfg page) (pending st)); cbn.
  - exists [Scheduled page (windowIndex cfg page);
            TaskStart page (windowIndex cfg page)].
    rewrite <- app_assoc. auto.
  - exists [Scheduled page (windowIndex cfg page)]. auto.
Qed.

Lemma launch_scheduled (pages : list Z) (st : Session) :
  exists evs,
    trace (snd (forEach (processPage cfg) pages st)) = trace st ++ evs /\
    scheduledPages evs = pages.
Proof.
  revert st. induction pages as [|p pages IH]; intro st.
  - exists []. cbn. rewrite app_nil_r. auto.
  - cbn [forEach]. rewrite bind_run.
    destruct (processPage_scheduled p st) as (evs1 & T1 & S1).
    destruct (IH (snd (processPage cfg p st))) as (evs2 & T2 & S2).
    exists (evs1 ++ evs2).
    rewrite T2, T1, <- app_assoc, scheduledPages_app, S1, S2. auto.
Qed.

Lemma runBatch_scheduled (pages : list Z) (st : Session) :
  exists evs,
    trace (snd (runBatch w cfg pages st)) = trace st ++ evs /\
    scheduledPages evs = pages.
Proof.
  unfold runBatch. rewrite bind_run.
  destruct (launch_scheduled pages st) as (evs1 & T1 & S1).
  destruct (emits_mapM notScheduled (raceBatchTimeout w cfg) pages
              (quiet_race w cfg)
              (snd (forEach (processPage cfg) pages st))) as (evs2 & T2 & S2).
  apply notScheduled_pages in S2.
  exists (evs1 ++ evs2).
  rewrite T2, T1, <- app_assoc, scheduledPages_app, S1, S2, app_nil_r. auto.
Qed.

(** With a window, the loop ends before its fuel, and has scheduled the
    pages from [batchStart] to the last. *)
Lemma waveLoop_scheduled (actual : Z) :
  1 <= cfg.(maxWindows) ->
  forall (fuel : nat) (batchStart errorCount : Z) (st : Session),
    (Z.to_nat (actual + 1 - batchStart) < fuel)%nat ->
    exists errors evs,
      fst (waveLoop w cfg fuel actual batchStart errorCount st) = Some errors /\
      trace (snd (waveLoop w cfg fuel actual batchStart errorCount st))
        = trace st ++ evs /\
      scheduledPages evs = pageRange batchStart actual.
Proof.
  intros Hmw. induction fuel as [|fuel IH]; intros batchStart errorCount st Hfuel;
    [lia|].
  destruct (Z.leb_spec batchStart actual) as [Hle|Hgt].
  - rewrite waveLoop_step by exact Hle.
    set (batchEnd := Z.min (batchStart + maxWindows cfg - 1) actual).
    assert (Hbe : batchStart <= batchEnd <= actual) by (unfold batchEnd; lia).
    destruct (runBatch_scheduled (pageRange batchStart batchEnd) st)
      as (evs1 & T1 & S1).
    set (batch := runBatch w cfg (pageRange batchStart batchEnd) st) in *.
    set (st2 := if batchEnd + 1 <=? actual then _ else _).
    assert (H2 : exists evs2, trace st2 = trace (snd batch) ++ evs2 /\
                              scheduledPages evs2 = []).
    { unfold st2. destruct (batchEnd + 1 <=? actual).
      - destruct (quiet_interWaveWait (countRejected (fst batch)) (snd batch))
          as (evs2 & T2 & S2).
        exists evs2. split; [exact T2|apply notScheduled_pages, S2].
      - exists []. rewrite app_nil_r. auto. }
    destruct H2 as (evs2 & T2 & S2).
    destruct (IH (batchEnd + 1) (errorCount + countRejected (fst batch)) st2)
      as (errors & evs3 & R3 & T3 & S3); [lia|].
    exists errors, (evs1 ++ evs2 ++ evs3).
    split; [exact R3|]. split.
    + rewrite T3, T2, T1, <- !app_assoc. reflexivity.
    + rewrite !scheduledPages_app, S1, S2, S3. cbn [app].
      apply pageRange_app; lia.
  - cbn [waveLoop]. destruct (Z.leb_spec batchStart actual); [lia|].
    exists errorCount, []. cbn. rewrite app_nil_r.
    rewrite pageRange_empty by lia. auto.
Qed.

Lemma runWaves_scheduled (st : Session) :
  1 <= cfg.(maxWindows) ->
  exists errors evs,
    fst (runWaves w cfg (enoughFuel w cfg) st) = Some errors /\
    trace (snd (runWaves w cfg (enoughFuel w cfg) st)) = trace st ++ evs /\
    scheduledPages evs = pageRange 1 (actualTotalPages w cfg).
Proof.
  intro Hmw. unfold runWaves. rewrite !bind_run.
  set (st0 := snd (setHashes [] st)).
  destruct (waveLoop_scheduled (actualTotalPages w cfg) Hmw (enoughFuel w cfg)
              1 0 st0) as (errors & evs1 & R & T & S).
  { unfold enoughFuel. lia. }
  rewrite R. rewrite bind_run. cbn [ret fst snd].
  destruct (quiet_awaitStragglers w cfg
              (snd (waveLoop w cfg (enoughFuel w cfg) (actualTotalPages w cfg)
                             1 0 st0))) as (evs2 & T2 & S2).
  apply notScheduled_pages in S2.
  exists errors, (evs1 ++ evs2). split; [reflexivity|].
  rewrite T2, T, <- app_assoc, scheduledPages_app, S, S2, app_nil_r. auto.
Qed.

Lemma scrappe_scheduled (st : Session) :
  1 <= cfg.(maxWindows) ->
  (exists hashes, fst (scrappe w cfg st) = Some hashes) /\
  scheduledPages (emitted (scrappe w cfg) st)
    = pageRange 1 (actualTotalPages w cfg).
Proof.
  intro Hmw.
  destruct (runWaves_scheduled st Hmw) as (errors & evs1 & R & T & S).
  unfold emitted, scrappe, scrappeWith. rewrite bind_run, R. cbv beta iota.
  set (st1 := snd (runWaves w cfg (enoughFuel w cfg) st)) in *.
  match goal with
  | |- context [fst (?m st1)] =>
      assert (Q : emits notScheduled m)
        by (pose proof (quiet_retry w cfg); emits_step);
      destruct (Q st1) as (evs2 & T2 & S2)
  end.
  apply notScheduled_pages in S2.
  split.
  - rewrite !bind_run. eexists. reflexivity.
  - rewrite T2, T, <- app_assoc.
    rewrite skipn_app, skipn_all, Nat.sub_diag. cbn [skipn app].
    rewrite scheduledPages_app, S, S2, app_nil_r. reflexivity.
Qed.

End WaveSchedule.

(** ** The matcher and what a pattern matches *)

Lemma firstn_prefix {A : Type} (l s : list A) :
  firstn (List.length l) (l ++ s) = l.
Proof.
  rewrite firstn_app, firstn_all, Nat.sub_diag. cbn. apply app_nil_r.
Qed.

Section MatcherProperties.
Context {R : Type}.

Lemma starK_sound (p : ascii -> bool) (k : nat -> jsstring -> option R)
      (s : jsstring) (i : nat) (res : R) :
  starK p k i s = Some res ->
  exists l s', s = l ++ s' /\ forallb p l = true /\
               k (i + List.length l)%nat s' = Some res.
Proof.
  revert i. induction s as [|c s IH]; intros i H; cbn [starK] in H.
  - exists [], []. rewrite Nat.add_0_r. auto.
  - destruct (p c) eqn:Hp.
    + destruct (starK p k (S i) s) as [r|] eqn:Hs.
      * inversion H; subst r.
        destruct (IH (S i) Hs) as (l & s' & E & F & K).
        exists (c :: l), s'. cbn. rewrite Hp, F, <- E.
        replace (i + S (List.length l))%nat with (S i + List.length l)%nat by lia.
        auto.
      * exists [], (c :: s). rewrite Nat.add_0_r. auto.
    + exists [], (c :: s). rewrite Nat.add_0_r. auto.
Qed.

Lemma starK_none (p : ascii -> bool) (k : nat -> jsstring -> option R)
      (s : jsstring) (i : nat) :
  starK p k i s = None ->
  forall l s', s = l ++ s' -> forallb p l = true ->
               k (i + List.length l)%nat s' = None.
Proof.
  revert i. induction s as [|c s IH]; intros i H l s' E F; cbn [starK] in H.
  - destruct l; [|discriminate]. cbn in E. subst. rewrite Nat.add_0_r. exact H.
  - destruct l as [|c' l].
    + cbn in E. subst s'. rewrite Nat.add_0_r.
      destruct (p c); [|exact H].
      destruct (starK p k (S i) s); [discriminate|exact H].
    + cbn in E. inversion E; subst c' s. cbn in F.
      apply andb_true_iff in F. destruct F as [Fc Fl]. rewrite Fc in H.
      destruct (starK p k (S i) (l ++ s')) eqn:Hs; [discriminate|].
      cbn [List.length].
      replace (i + S (List.length l))%nat with (S i + List.length l)%nat by lia.
      apply (IH (S i) Hs l s'); auto.
Qed.

Lemma repeatK_sound (n : nat) (p : ascii -> bool)
      (k : nat -> jsstring -> option R) (s : jsstring) (i : nat) (res : R) :
  repeatK n p k i s = Some res ->
  exists l s', s = l ++ s' /\ List.length l = n /\ forallb p l = true /\
               k (i + List.length l)%nat s' = Some res.
Proof.
  revert i s. induction n as [|n IH]; intros i s H; cbn [repeatK] in H.
  - exists [], s. rewrite Nat.add_0_r. auto.
  - destruct s as [|c s]; [discriminate|].
    destruct (p c) eqn:Hp; [|discriminate].
    destruct (IH (S i) s H) as (l & s' & E & L & F & K).
    exists (c :: l), s'. cbn [app List.length forallb]. rewrite Hp, F, <- E.
    replace (i + S (List.length l))%nat with (S i + List.length l)%nat by lia.
    repeat split; auto.
Qed.

Lemma repeatK_none (n : nat) (p : ascii -> bool)
      (k : nat -> jsstring -> option R) (s : jsstring) (i : nat) :
  repeatK n p k i s = None ->
  forall l s', s = l ++ s' -> List.length l = n -> forallb p l = true ->
               k (i + List.length l)%nat s' = None.
Proof.
  revert i s. induction n as [|n IH]; intros i s H l s' E L F; cbn [repeatK] in H.
  - destruct l; [|discriminate]. cbn in E. subst. rewrite Nat.add_0_r. exact H.
  - destruct l as [|c l]; [discriminate|]. cbn in E. subst s.
    cbn in F. apply andb_true_iff in F. destruct F as [Fc Fl]. rewrite Fc in H.
    cbn [List.length].
    replace (i + S (List.length l))%nat with (S i + List.length l)%nat by lia.
    apply (IH (S i) (l ++ s') H l s'); auto.
Qed.

Lemma matchK_sound (r : regex) :
  forall (i : nat) (s : jsstring) (caps : list jsstring) (k : cont) (res : R),
    matchK r i s caps k = Some res ->
    exists l s' cs,
      s = l ++ s' /\ lang r l cs /\
      k (i + List.length l)%nat s' (caps ++ cs) = Some res.
Proof.
  induction r as [c|p|p|n p|r1 IH1 r2 IH2|r1 IH1]; intros i s caps k res H;
    cbn [matchK] in H.
  - destruct s as [|c' s]; [discriminate|].
    destruct (Ascii.eqb_spec c c'); [|discriminate]. subst c'.
    exists [c], s, []. cbn. rewrite app_nil_r, Nat.add_1_r. auto.
  - destruct s as [|c' s]; [discriminate|].
    destruct (p c') eqn:Hp; [|discriminate].
    exists [c'], s, []. cbn. rewrite app_nil_r, Nat.add_1_r. eauto 10.
  - apply starK_sound in H. destruct H as (l & s' & E & F & K).
    exists l, s', []. rewrite app_nil_r. cbn. auto.
  - apply repeatK_sound in H. destruct H as (l & s' & E & L & F & K).
    exists l, s', []. rewrite app_nil_r. cbn. auto.
  - apply IH1 in H. destruct H as (l1 & s1 & c1 & E1 & L1 & K1).
    apply IH2 in K1. destruct K1 as (l2 & s2 & c2 & E2 & L2 & K2).
    exists (l1 ++ l2), s2, (c1 ++ c2).
    split; [rewrite E1, E2, app_assoc; reflexivity|].
    split; [cbn; eauto 10|].
    rewrite length_app, Nat.add_assoc, app_assoc. exact K2.
  - apply IH1 in H. destruct H as (l & s' & c1 & E & L & K).
    exists l, s', (c1 ++ [l]). split; [exact E|]. split; [cbn; eauto|].
    replace (i + List.length l - i)%nat with (List.length l) in K by lia.
    rewrite E, firstn_prefix in K. rewrite app_assoc. exact K.
Qed.

Lemma matchK_none (r : regex) :
  forall (i : nat) (s : jsstring) (caps : list jsstring) (k : @cont R),
    matchK r i s caps k = None ->
    forall l s' cs,
      s = l ++ s' -> lang r l cs ->
      k (i + List.length l)%nat s' (caps ++ cs) = None.
Proof.
  induction r as [c|p|p|n p|r1 IH1 r2 IH2|r1 IH1];
    intros i s caps k H l s' cs E L; cbn [matchK] in H; cbn [lang] in L.
  - destruct L as [-> ->]. cbn in E. subst s. rewrite Ascii.eqb_refl in H.
    rewrite app_nil_r. cbn. rewrite Nat.add_1_r. exact H.
  - destruct L as (c & -> & Hp & ->). cbn in E. subst s. rewrite Hp in H.
    rewrite app_nil_r. cbn. rewrite Nat.add_1_r. exact H.
  - destruct L as [F ->]. rewrite app_nil_r.
    apply (starK_none p _ s i H l s' E F).
  - destruct L as (Len & F & ->). rewrite app_nil_r.
    apply (repeatK_none n p _ s i H l s' E Len F).
  - destruct L as (l1 & l2 & c1 & c2 & -> & -> & L1 & L2).
    rewrite <- app_assoc in E.
    pose proof (IH1 i s caps _ H l1 (l2 ++ s') c1 E L1) as H1.
    pose proof (IH2 _ _ _ _ H1 l2 s' c2 eq_refl L2) as H2.
    rewrite length_app, Nat.add_assoc, app_assoc. exact H2.
  - destruct L as (c1 & L1 & ->).
    pose proof (IH1 i s caps _ H l s' c1 E L1) as H1. cbn beta in H1.
    replace (i + List.length l - i)%nat with (List.length l) in H1 by lia.
    rewrite E, firstn_prefix in H1. rewrite app_assoc. exact H1.
Qed.

End MatcherProperties.

Lemma matchAt_sound (r : regex) (s : jsstring) (m : rmatch) :
  matchAt r s = Some m ->
  exists l, s = l ++ snd m /\ lang r l (fst m).
Proof.
  unfold matchAt. intro H. apply matchK_sound in H.
  destruct H as (l & s' & cs & E & L & K). inversion K; subst. eauto.
Qed.

Lemma matchAt_none (r : regex) (s : jsstring) :
  matchAt r s = None ->
  forall l s' cs, s = l ++ s' -> ~ lang r l cs.
Proof.
  unfold matchAt. intros H l s' cs E L.
  pose proof (matchK_none r 0 s [] _ H l s' cs E L). discriminate.
Qed.

(** [exec] finds a match, and no match begins before it. *)
Lemma exec_sound (r : regex) (s : jsstring) (m : rmatch) :
  exec r s = Some m ->
  exists pre l,
    s = pre ++ l ++ snd m /\ lang r l (fst m) /\
    (forall pre' l' post' cs,
       s = pre' ++ l' ++ post' -> lang r l' cs ->
       (List.length pre <= List.length pre')%nat).
Proof.
  revert m. induction s as [|c s IH]; intros m H; cbn [exec] in H.
  - destruct (matchAt r []) as [m'|] eqn:Hm; [|discriminate].
    inversion H; subst m'. apply matchAt_sound in Hm.
    destruct Hm as (l & E & L). exists [], l. cbn. split; [exact E|].
    split; [exact L|]. intros; lia.
  - destruct (matchAt r (c :: s)) as [m'|] eqn:Hm.
    + inversion H; subst m'. apply matchAt_sound in Hm.
      destruct Hm as (l & E & L). exists [], l. cbn. split; [exact E|].
      split; [exact L|]. intros; lia.
    + destruct (IH m H) as (pre & l & E & L & Hleft).
      exists (c :: pre), l. cbn. split; [rewrite E; reflexivity|].
      split; [exact L|]. intros pre' l' post' cs E' L'.
      destruct pre' as [|c' pre'].
      * cbn in E'. exfalso.
        exact (matchAt_none r (c :: s) Hm l' post' cs E' L').
      * cbn in E'. inversion E'; subst c'. cbn.
        apply le_n_S. eapply Hleft; eauto.
Qed.

Lemma exec_none (r : regex) (s : jsstring) :
  exec r s = None ->
  forall pre l post cs, s = pre ++ l ++ post -> ~ lang r l cs.
Proof.
  induction s as [|c s IH]; intros H pre l post cs E L; cbn [exec] in H.
  - destruct (matchAt r []) eqn:Hm; [discriminate|].
    destruct pre; [|discriminate]. cbn in E.
    exact (matchAt_none r [] Hm l post cs E L).
  - destruct (matchAt r (c :: s)) eqn:Hm; [discriminate|].
    destruct pre as [|c' pre].
    + cbn in E. exact (matchAt_none r (c :: s) Hm l post cs E L).
    + cbn in E. inversion E; subst. exact (IH H pre l post cs eq_refl L).
Qed.

Lemma lang_RLit (lit : jsstring) (r : regex) (l : jsstring)
      (cs : list jsstring) :
  lang (RLit lit r) l cs <-> exists l', l = lit ++ l' /\ lang r l' cs.
Proof.
  revert l. induction lit as [|c lit IH]; intro l; cbn [RLit].
  - split; [intro H; exists l; auto|intros (l' & -> & H); exact H].
  - cbn [lang]. split.
    + intros (l1 & l2 & c1 & c2 & -> & -> & [-> ->] & H2).
      apply IH in H2. destruct H2 as (l' & -> & H). exists l'. auto.
    + intros (l' & -> & H). exists [c], (lit ++ l'), [], cs.
      repeat split; auto. apply IH. eauto.
Qed.

Lemma lang_RPlus (p : ascii -> bool) (l : jsstring) (cs : list jsstring) :
  lang (RPlus p) l cs <-> l <> [] /\ forallb p l = true /\ cs = [].
Proof.
  unfold RPlus. cbn [lang]. split.
  - intros (l1 & l2 & c1 & c2 & -> & -> & (c & -> & Hp & ->) & (F & ->)).
    cbn. rewrite Hp, F. repeat split; auto. discriminate.
  - intros (Hne & F & ->). destruct l as [|c l]; [contradiction|].
    cbn in F. apply andb_true_iff in F. destruct F as [Fc Fl].
    exists [c], l, [], []. repeat split; eauto.
Qed.

(** ** Page-count detection *)

Lemma parseInt_digits (digits : jsstring) (acc : Z) :
  forallb isDigit digits = true -> 0 <= acc ->
  0 <= fold_left (fun a c => 10 * a + (Z.of_N (N_of_ascii c) - 48)) digits acc.
Proof.
  revert acc. induction digits as [|c digits IH]; intros acc F Hacc;
    [exact Hacc|].
  cbn in F. apply andb_true_iff in F. destruct F as [Fc Fl].
  cbn [fold_left]. apply IH; [exact Fl|].
  unfold isDigit, inRange in Fc. apply andb_true_iff in Fc.
  destruct Fc as [Lo Hi]. apply N.leb_le in Lo. lia.
Qed.

Lemma pageOf_group (text : jsstring) (m : rmatch) :
  strMatch text pageOfRegex = Some m -> forallb isDigit (group1 m) = true.
Proof.
  unfold strMatch. intro H. apply exec_sound in H.
  destruct H as (pre & l & _ & L & _). unfold pageOfRegex in L.
  apply lang_RLit in L. destruct L as (l1 & _ & L). cbn [lang] in L.
  destruct L as (d1 & l2 & c1 & c2 & _ & Ecs & L1 & L2).
  apply lang_RPlus in L1. destruct L1 as (_ & _ & ->).
  apply lang_RLit in L2. destruct L2 as (l3 & _ & L3). cbn [lang] in L3.
  destruct L3 as (c3 & L3 & ->). apply lang_RPlus in L3.
  destruct L3 as (_ & F & ->). unfold group1. rewrite Ecs. exact F.
Qed.

Lemma pParam_group (href : jsstring) (m : rmatch) :
  strMatch href pParamRegex = Some m -> forallb isDigit (group1 m) = true.
Proof.
  unfold strMatch. intro H. apply exec_sound in H.
  destruct H as (pre & l & _ & L & _). unfold pParamRegex in L.
  apply lang_RLit in L. destruct L as (l1 & _ & L). cbn [lang] in L.
  destruct L as (c3 & L3 & Ecs). apply lang_RPlus in L3.
  destruct L3 as (_ & F & ->). unfold group1. rewrite Ecs. exact F.
Qed.

Lemma detectionScript_nonneg (dom : DetectionDom) : 0 <= detectionScript dom.
Proof.
  unfold detectionScript.
  set (fromPageInfo := match pageInfoText dom with
                       | Some (c :: t) => strMatch (c :: t) pageOfRegex
                       | _ => None end).
  assert (H1 : forall m, fromPageInfo = Some m ->
                         forallb isDigit (group1 m) = true).
  { unfold fromPageInfo. intros m Hm.
    destruct (pageInfoText dom) as [[|c t]|]; try discriminate.
    eapply pageOf_group; eauto. }
  destruct fromPageInfo as [m|].
  - apply parseInt_digits; [apply H1; reflexivity|lia].
  - destruct (lastButtonHref dom) as [href|]; [|lia].
    destruct (strMatch href pParamRegex) as [m|] eqn:Hm; [|lia].
    apply parseInt_digits; [eapply pParam_group; eauto|lia].
Qed.

Lemma detectTotalPages_positive (w : World) : 1 <= detectTotalPages w.
Proof.
  unfold detectTotalPages. destruct (navigationOk (detection w)); [|lia].
  pose proof (detectionScript_nonneg (detection w)).
  destruct (Z.eqb_spec (detectionScript (detection w)) 0); lia.
Qed.

Lemma pageRange_length (a b : Z) :
  a <= b + 1 -> Z.of_nat (List.length (pageRange a b)) = b - a + 1.
Proof. intro H. unfold pageRange. rewrite length_map, length_seq. lia. Qed.

Lemma detection_without_marker (dom : DetectionDom) :
  (forall text, dom.(pageInfoText) = Some text ->
                strMatch text pageOfRegex = None) ->
  (forall href, dom.(lastButtonHref) = Some href ->
                strMatch href pParamRegex = None) ->
  detectionScript dom = 1.
Proof.
  intros Hinfo Hlast. unfold detectionScript.
  destruct (pageInfoText dom) as [[|c t]|].
  - destruct (lastButtonHref dom) as [href|]; [|reflexivity].
    rewrite (Hlast href eq_refl). reflexivity.
  - rewrite (Hinfo (c :: t) eq_refl).
    destruct (lastButtonHref dom) as [href|]; [|reflexivity].
    rewrite (Hlast href eq_refl). reflexivity.
  - destruct (lastButtonHref dom) as [href|]; [|reflexivity].
    rewrite (Hlast href eq_refl). reflexivity.
Qed.

(** ** Extraction *)

Lemma lang_hashRegex (l : jsstring) (cs : list jsstring) :
  lang hashRegex l cs <->
  exists r id, l = linkText r id /\ forallb notQuote r = true /\
               isIdentifier id /\ cs = [id].
Proof.
  unfold hashRegex, linkText, isIdentifier. split.
  - intro L. apply lang_RLit in L. destruct L as (l1 & -> & L).
    cbn [lang] in L.
    destruct L as (q & l2 & c1 & c2 & -> & -> & [-> ->] & L).
    destruct L as (r & l3 & c3 & c4 & -> & -> & [Fr ->] & L).
    apply lang_RLit in L. destruct L as (l4 & -> & L). cbn [lang] in L.
    destruct L as (g & q' & c5 & c6 & -> & -> & (c7 & L & ->) & [-> ->]).
    apply lang_RLit in L. destruct L as (h & -> & L). cbn [lang] in L.
    destruct L as (Len & Fh & ->).
    exists r, (js "0x" ++ h). cbn [app]. repeat split; eauto.
  - intros (r & id & -> & Fr & (h & -> & Len & Fh) & ->).
    apply lang_RLit. eexists. split; [reflexivity|]. cbn [lang].
    exists [dquote], (r ++ js "/tx/" ++ (js "0x" ++ h) ++ [dquote]), [],
      [js "0x" ++ h].
    repeat split.
    exists r, (js "/tx/" ++ (js "0x" ++ h) ++ [dquote]), [], [js "0x" ++ h].
    repeat split; [exact Fr|].
    apply lang_RLit. eexists. split; [reflexivity|]. cbn [lang].
    exists (js "0x" ++ h), [dquote], [js "0x" ++ h], [].
    repeat split.
    exists []. split; [|reflexivity].
    apply lang_RLit. eexists. split; [reflexivity|]. cbn [lang]. auto.
Qed.

Lemma linkText_length (r id : jsstring) :
  isIdentifier id ->
  List.length (linkText r id) = (List.length r + 77)%nat.
Proof.
  intros (h & -> & Len & _). unfold linkText.
  rewrite !length_app. cbn [List.length js list_ascii_of_string]. lia.
Qed.

(** A match of the pattern consumes input. *)
Lemma exec_hash_consumes (s : jsstring) (m : rmatch) :
  exec hashRegex s = Some m -> (List.length (snd m) < List.length s)%nat.
Proof.
  intro H. apply exec_sound in H. destruct H as (pre & l & E & L & _).
  apply lang_hashRegex in L. destruct L as (r & id & -> & _ & Hid & _).
  rewrite E, !length_app, (linkText_length r id Hid). lia.
Qed.

Lemma str_eqb_eq (a b : jsstring) : str_eqb a b = true <-> a = b.
Proof.
  revert b. induction a as [|x a IH]; intros [|y b]; cbn; split; intro H;
    try reflexivity; try discriminate.
  - apply andb_true_iff in H. destruct H as [Hx Ha].
    apply Ascii.eqb_eq in Hx. apply IH in Ha. congruence.
  - inversion H; subst. rewrite Ascii.eqb_refl. apply IH. reflexivity.
Qed.

Lemma setAdd_str_In (x y : jsstring) (l : list jsstring) :
  In y (setAdd str_eqb x l) <-> y = x \/ In y l.
Proof.
  unfold setAdd, setHas. destruct (existsb (str_eqb x) l) eqn:E.
  - split; [auto|]. intros [->|H]; [|exact H].
    apply existsb_exists in E. destruct E as (z & Hz & Hxz).
    apply str_eqb_eq in Hxz. subst. exact Hz.
  - rewrite in_app_iff. cbn. intuition congruence.
Qed.

Lemma setAdd_str_NoDup (x : jsstring) (l : list jsstring) :
  NoDup l -> NoDup (setAdd str_eqb x l).
Proof.
  intro H. unfold setAdd, setHas. destruct (existsb (str_eqb x) l) eqn:E;
    [exact H|].
  apply NoDup_app; [exact H|repeat constructor; intros []|].
  intros y Hy [Hxy|[]]. subst y.
  assert (existsb (str_eqb x) l = true); [|congruence].
  apply existsb_exists. exists x. split; [exact Hy|]. apply str_eqb_eq. auto.
Qed.

Lemma setAddAll_str_In (xs l : list jsstring) (y : jsstring) :
  In y (setAddAll str_eqb xs l) <-> In y xs \/ In y l.
Proof.
  revert l. induction xs as [|x xs IH]; intro l; cbn.
  - tauto.
  - unfold setAddAll in IH. rewrite IH, setAdd_str_In. intuition congruence.
Qed.

Lemma setAddAll_str_NoDup (xs l : list jsstring) :
  NoDup l -> NoDup (setAddAll str_eqb xs l).
Proof.
  revert l. induction xs as [|x xs IH]; intros l H; cbn; [exact H|].
  apply IH, setAdd_str_NoDup, H.
Qed.

(** The loop of [parseHTMLForHashes] adds the first matches to the set, up
    to the match that takes the counter above 10000. *)
Lemma hashLoop_matches (fuel : nat) :
  forall (rest : jsstring) (hashSet : list jsstring) (matchCount : Z),
    (List.length rest < fuel)%nat ->
    0 <= matchCount <= 10000 ->
    hashLoop fuel rest hashSet matchCount =
      Some (setAddAll str_eqb
              (firstn (Z.to_nat (10001 - matchCount)) (linkMatches fuel rest))
              hashSet).
Proof.
  induction fuel as [|fuel IH]; intros rest hashSet matchCount Hlen Hc; [lia|].
  cbn [hashLoop linkMatches].
  destruct (exec hashRegex rest) as [m|] eqn:Hm.
  - pose proof (exec_hash_consumes rest m Hm) as Hcons.
    replace (Z.to_nat (10001 - matchCount))
      with (S (Z.to_nat (10001 - (matchCount + 1)))) by lia.
    cbn [firstn].
    destruct (Z.gtb_spec (matchCount + 1) 10000) as [Hcap|Hcap].
    + replace (Z.to_nat (10001 - (matchCount + 1))) with O by lia.
      reflexivity.
    + rewrite IH by lia. reflexivity.
  - rewrite firstn_nil. reflexivity.
Qed.

Lemma parseHTMLForHashes_matches (content : jsstring) :
  parseHTMLForHashes content =
    setAddAll str_eqb (firstn matchCap (allLinkMatches content)) [].
Proof.
  unfold parseHTMLForHashes, allLinkMatches.
  rewrite hashLoop_matches by lia. reflexivity.
Qed.

(** *** Every match is a link occurrence *)

Lemma exec_hash_link (s : jsstring) (m : rmatch) :
  exec hashRegex s = Some m ->
  exists pre r,
    s = pre ++ linkText r (group1 m) ++ snd m /\
    forallb notQuote r = true /\ isIdentifier (group1 m) /\
    (forall pre' r' id' post',
       s = pre' ++ linkText r' id' ++ post' ->
       forallb notQuote r' = true -> isIdentifier id' ->
       (List.length pre <= List.length pre')%nat).
Proof.
  intro H. apply exec_sound in H. destruct H as (pre & l & E & L & Hleft).
  apply lang_hashRegex in L. destruct L as (r & id & -> & Fr & Hid & Ecs).
  unfold group1. rewrite Ecs. cbn [nth]. exists pre, r.
  repeat split; auto.
  intros pre' r' id' post' E' Fr' Hid'.
  apply (Hleft pre' (linkText r' id') post' [id'] E').
  apply lang_hashRegex. eauto 10.
Qed.

Lemma linkMatches_sound (fuel : nat) (s id : jsstring) :
  In id (linkMatches fuel s) -> LinkOccurs id s.
Proof.
  revert s. induction fuel as [|fuel IH]; intros s H; [contradiction|].
  cbn [linkMatches] in H.
  destruct (exec hashRegex s) as [m|] eqn:Hm; [|contradiction].
  destruct (exec_hash_link s m Hm) as (pre & r & E & Fr & Hid & _).
  destruct H as [<-|H].
  - exists pre, r, (snd m). auto.
  - destruct (IH (snd m) H) as (pre2 & r2 & post2 & E2 & Fr2 & Hid2).
    exists (pre ++ linkText r (group1 m) ++ pre2), r2, post2.
    split; [|auto]. rewrite E at 1. rewrite E2 at 1.
    rewrite <- !app_assoc. reflexivity.
Qed.

(** *** Every link occurrence is matched *)

Lemma nth_error_mid {A : Type} (pre l post : list A) (k : nat) :
  (k < List.length l)%nat ->
  nth_error (pre ++ l ++ post) (List.length pre + k) = nth_error l k.
Proof.
  intro Hk. rewrite nth_error_app2 by lia.
  replace (List.length pre + k - List.length pre)%nat with k by lia.
  apply nth_error_app1, Hk.
Qed.

Lemma hex_notQuote (c : ascii) : isHex c = true -> notQuote c = true.
Proof.
  intro H. unfold notQuote. destruct (Ascii.eqb_spec c dquote); [|reflexivity].
  subst c. discriminate H.
Qed.

(** The shape of a link: the header, a body without double quote that ends
    in five hexadecimal digits, and the closing double quote. *)
Lemma link_shape (r id : jsstring) :
  forallb notQuote r = true -> isIdentifier id ->
  exists v t,
    linkText r id = js "href=" ++ [dquote] ++ (v ++ t) ++ [dquote] /\
    forallb notQuote (v ++ t) = true /\
    List.length t = 5%nat /\ forallb isHex t = true.
Proof.
  intros Fr (h & -> & Len & Fh).
  exists (r ++ js "/tx/" ++ js "0x" ++ firstn 59 h), (skipn 59 h).
  assert (Fh' : forallb isHex (firstn 59 h ++ skipn 59 h) = true)
    by (rewrite firstn_skipn; exact Fh).
  rewrite forallb_app in Fh'. apply andb_true_iff in Fh'.
  destruct Fh' as [Fh1 Fh2].
  split; [|split; [|split]].
  - unfold linkText. rewrite <- !app_assoc.
    rewrite <- (firstn_skipn 59 h) at 1. rewrite <- !app_assoc. reflexivity.
  - rewrite !forallb_app, Fr.
    rewrite (forallb_impl _ _ _ hex_notQuote Fh1).
    rewrite (forallb_impl _ _ _ hex_notQuote Fh2). reflexivity.
  - rewrite length_skipn. lia.
  - exact Fh2.
Qed.

Lemma forallb_nth_error {A : Type} (f : A -> bool) (l : list A) (k : nat)
      (x : A) :
  forallb f l = true -> nth_error l k = Some x -> f x = true.
Proof.
  intros F H. rewrite forallb_forall in F. apply F.
  eapply nth_error_In, H.
Qed.

Section LinkIndices.
Variables (v t : jsstring).
Hypothesis body : forallb notQuote (v ++ t) = true.
Hypothesis tail5 : List.length t = 5%nat.
Hypothesis tailHex : forallb isHex t = true.

Let l : jsstring := js "href=" ++ [dquote] ++ (v ++ t) ++ [dquote].

Lemma link_len : List.length l = (List.length v + 12)%nat.
Proof.
  unfold l. rewrite !length_app. cbn [List.length js list_ascii_of_string].
  lia.
Qed.

Lemma link_header (k : nat) (c : ascii) :
  (k < 5)%nat -> nth_error l k = Some c -> notQuote c = true /\
  (k = O -> isHex c = false).
Proof.
  intros Hk H. unfold l in H.
  do 5 (destruct k as [|k]; [cbn in H; inversion H; subst c; split;
                              [reflexivity|intro; try reflexivity; discriminate]|]).
  lia.
Qed.

Lemma link_body (k : nat) (c : ascii) :
  (6 <= k < List.length v + 11)%nat -> nth_error l k = Some c ->
  notQuote c = true.
Proof.
  intros Hk H. unfold l in H.
  change (js "href=" ++ [dquote] ++ (v ++ t) ++ [dquote])
    with ((js "href=" ++ [dquote]) ++ (v ++ t) ++ [dquote]) in H.
  replace k with (List.length (js "href=" ++ [dquote]) + (k - 6))%nat in H
    by (cbn; lia).
  rewrite nth_error_mid in H by (rewrite length_app; lia).
  eapply forallb_nth_error; eauto.
Qed.

Lemma link_tail (k : nat) (c : ascii) :
  (List.length v + 6 <= k < List.length v + 11)%nat ->
  nth_error l k = Some c -> isHex c = true.
Proof.
  intros Hk H. unfold l in H.
  assert (E : js "href=" ++ [dquote] ++ (v ++ t) ++ [dquote]
              = ((js "href=" ++ [dquote]) ++ v) ++ t ++ [dquote])
    by (rewrite <- !app_assoc; reflexivity).
  rewrite E in H.
  replace k with (List.length ((js "href=" ++ [dquote]) ++ v)
                  + (k - 6 - List.length v))%nat in H
    by (rewrite length_app; cbn; lia).
  rewrite nth_error_mid in H by lia.
  eapply forallb_nth_error; eauto.
Qed.

Lemma link_close : nth_error l (List.length v + 11) = Some dquote.
Proof.
  unfold l.
  assert (E : js "href=" ++ [dquote] ++ (v ++ t) ++ [dquote]
              = ((js "href=" ++ [dquote]) ++ v ++ t) ++ [dquote] ++ [])
    by (rewrite <- !app_assoc; reflexivity).
  rewrite E.
  replace (List.length v + 11)%nat
    with (List.length ((js "href=" ++ [dquote]) ++ v ++ t) + 0)%nat
    by (rewrite !length_app; cbn; lia).
  rewrite nth_error_mid by (cbn; lia). reflexivity.
Qed.

End LinkIndices.

Lemma app_eq_prefix {A : Type} (a b a' b' : list A) :
  a ++ b = a' ++ b' -> (List.length a <= List.length a')%nat ->
  exists c, a' = a ++ c /\ b = c ++ b'.
Proof.
  revert a'. induction a as [|x a IH]; intros a' E Hlen.
  - exists a'. auto.
  - destruct a' as [|x' a']; [cbn in Hlen; lia|].
    cbn in E. inversion E; subst x'.
    destruct (IH a' H1) as (c & -> & ->); [cbn in Hlen; lia|].
    exists c. auto.
Qed.

Lemma app_eq_same_length {A : Type} (a b a' b' : list A) :
  a ++ b = a' ++ b' -> List.length a = List.length a' -> a = a' /\ b = b'.
Proof.
  intros E Hlen. destruct (app_eq_prefix a b a' b' E) as (c & Ea & Eb); [lia|].
  assert (c = []).
  { destruct c; [reflexivity|]. rewrite Ea, length_app in Hlen. cbn in Hlen. lia. }
  subst c. rewrite app_nil_r in Ea. auto.
Qed.

Lemma app_eq_same_tail {A : Type} (a b a' b' : list A) :
  a ++ b = a' ++ b' -> List.length b = List.length b' -> b = b'.
Proof.
  intros E Hlen. apply (app_eq_same_length a b a' b' E).
  apply (f_equal (@List.length A)) in E. rewrite !length_app in E. lia.
Qed.

Section TwoLinks.
Variables (v t v' t' : jsstring).
Hypothesis body : forallb notQuote (v ++ t) = true.
Hypothesis tail5 : List.length t = 5%nat.
Hypothesis tailHex : forallb isHex t = true.
Hypothesis body' : forallb notQuote (v' ++ t') = true.
Hypothesis tail5' : List.length t' = 5%nat.
Hypothesis tailHex' : forallb isHex t' = true.

Let l : jsstring := js "href=" ++ [dquote] ++ (v ++ t) ++ [dquote].
Let l' : jsstring := js "href=" ++ [dquote] ++ (v' ++ t') ++ [dquote].

(** A link that begins after another link begins, begins after the other
    ends. *)
Lemma links_apart (pre rest pre' post' : jsstring) :
  pre ++ l ++ rest = pre' ++ l' ++ post' ->
  (List.length pre < List.length pre')%nat ->
  (List.length pre + List.length l <= List.length pre')%nat.
Proof.
  intros E Hlt.
  destruct (Nat.le_gt_cases (List.length pre + List.length l)
                            (List.length pre')) as [Hok|Hbad]; [exact Hok|].
  exfalso.
  pose proof (link_len v t tail5) as Hn. fold l in Hn.
  pose proof (link_len v' t' tail5') as Hn'. fold l' in Hn'.
  set (d := (List.length pre' - List.length pre)%nat).
  assert (Hd : (0 < d < List.length l)%nat) by (unfold d; lia).
  assert (Htransfer : forall j, (j < List.length l')%nat ->
            (d + j < List.length l)%nat ->
            nth_error l (d + j) = nth_error l' j).
  { intros j Hj Hdj.
    rewrite <- (nth_error_mid pre l rest (d + j) Hdj).
    rewrite <- (nth_error_mid pre' l' post' j Hj).
    rewrite E. f_equal. unfold d. lia. }
  destruct (Nat.lt_trichotomy (d + 5) (List.length v + 11)) as [HA|[HB|HC]].
  - pose proof (Htransfer 5%nat ltac:(lia) ltac:(lia)) as T.
    change (nth_error l' 5) with (Some dquote) in T.
    pose proof (link_body v t body tail5 (d + 5) dquote ltac:(lia) T) as Q.
    discriminate Q.
  - pose proof (Htransfer 0%nat ltac:(lia) ltac:(lia)) as T.
    change (nth_error l' 0) with (Some "h"%char) in T.
    rewrite Nat.add_0_r in T.
    pose proof (link_tail v t tail5 tailHex d "h"%char ltac:(lia) T) as Q.
    discriminate Q.
  - set (j := (List.length v + 11 - d)%nat).
    pose proof (Htransfer j ltac:(unfold j; lia) ltac:(unfold j; lia)) as T.
    replace (d + j)%nat with (List.length v + 11)%nat in T by (unfold j; lia).
    unfold l in T. rewrite (link_close v t tail5) in T. symmetry in T.
    destruct (link_header v' t' tail5' j dquote ltac:(unfold j; lia) T)
      as [Q _].
    discriminate Q.
Qed.

(** Two links that begin at the same place are of the same length. *)
Lemma links_same_length (rest post' : jsstring) :
  l ++ rest = l' ++ post' -> (List.length l' <= List.length l)%nat.
Proof.
  intro E.
  destruct (Nat.le_gt_cases (List.length l') (List.length l)) as [Hok|Hbad];
    [exact Hok|].
  exfalso.
  pose proof (link_len v t tail5) as Hn. fold l in Hn.
  pose proof (link_len v' t' tail5') as Hn'. fold l' in Hn'.
  pose proof (link_close v t tail5) as C. fold l in C.
  assert (T : nth_error l' (List.length v + 11) = Some dquote).
  { rewrite <- C.
    rewrite <- (nth_error_mid [] l' post' (List.length v + 11) ltac:(lia)).
    rewrite <- (nth_error_mid [] l rest (List.length v + 11) ltac:(lia)).
    cbn [app List.length Nat.add]. rewrite E. reflexivity. }
  pose proof (link_body v' t' body' tail5' (List.length v + 11) dquote
                ltac:(lia) T) as Q.
  discriminate Q.
Qed.

End TwoLinks.

Lemma identifier_length (id : jsstring) :
  isIdentifier id -> List.length id = 66%nat.
Proof. intros (h & -> & Len & _). rewrite length_app, Len. reflexivity. Qed.

Lemma same_start_same_id (pre r id rest pre' r' id' post' : jsstring) :
  pre ++ linkText r id ++ rest = pre' ++ linkText r' id' ++ post' ->
  List.length pre = List.length pre' ->
  forallb notQuote r = true -> isIdentifier id ->
  forallb notQuote r' = true -> isIdentifier id' ->
  id = id'.
Proof.
  intros E Hlen Fr Hid Fr' Hid'.
  destruct (app_eq_same_length _ _ _ _ E Hlen) as [_ E1].
  destruct (link_shape r id Fr Hid) as (v & t & S & B & T5 & TH).
  destruct (link_shape r' id' Fr' Hid') as (v' & t' & S' & B' & T5' & TH').
  assert (Hl : List.length (linkText r id) = List.length (linkText r' id')).
  { rewrite S, S' in E1 |- *.
    pose proof (links_same_length v t v' t' T5 B' T5' rest post' E1).
    pose proof (links_same_length v' t' v t T5' B T5 post' rest (eq_sym E1)).
    lia. }
  destruct (app_eq_same_length _ _ _ _ E1 Hl) as [E2 _].
  unfold linkText in E2.
  assert (E3 : (js "href=" ++ [dquote] ++ r ++ js "/tx/") ++ id ++ [dquote]
               = (js "href=" ++ [dquote] ++ r' ++ js "/tx/") ++ id' ++ [dquote])
    by (rewrite <- !app_assoc; exact E2).
  apply app_eq_same_tail in E3.
  - apply app_inv_tail in E3. exact E3.
  - rewrite !length_app, (identifier_length id Hid),
      (identifier_length id' Hid'). reflexivity.
Qed.

Lemma linkMatches_complete (fuel : nat) :
  forall (s id : jsstring),
    (List.length s < fuel)%nat ->
    LinkOccurs id s -> In id (linkMatches fuel s).
Proof.
  induction fuel as [|fuel IH]; intros s id Hfuel Hocc; [lia|].
  destruct Hocc as (pre' & r' & post' & E' & Fr' & Hid').
  cbn [linkMatches].
  destruct (exec hashRegex s) as [m|] eqn:Hm.
  - destruct (exec_hash_link s m Hm) as (pre & r & E & Fr & Hid & Hleft).
    pose proof (Hleft pre' r' id post' E' Fr' Hid') as Hle.
    pose proof (exec_hash_consumes s m Hm) as Hcons.
    destruct (Nat.eq_dec (List.length pre) (List.length pre')) as [Heq|Hne].
    + left. rewrite E in E' at 1.
      exact (same_start_same_id _ _ _ _ _ _ _ _ E' Heq Fr Hid Fr' Hid').
    + right. apply IH; [lia|].
      destruct (link_shape r (group1 m) Fr Hid) as (v & t & S & B & T5 & TH).
      destruct (link_shape r' id Fr' Hid') as (v' & t' & S' & B' & T5' & TH').
      rewrite E in E' at 1.
      assert (Hapart : (List.length pre + List.length (linkText r (group1 m))
                        <= List.length pre')%nat).
      { rewrite S. rewrite S, S' in E'.
        apply (links_apart v t v' t' B T5 TH T5' pre (snd m) pre' post' E').
        lia. }
      rewrite app_assoc in E'.
      destruct (app_eq_prefix _ _ _ _ E') as (c & Epre & Erest).
      { rewrite length_app. exact Hapart. }
      exists c, r', post'. auto.
  - exfalso.
    apply (exec_none hashRegex s Hm pre' (linkText r' id) post' [id] E').
    apply lang_hashRegex. eauto 10.
Qed.

Lemma allLinkMatches_occurs (content id : jsstring) :
  In id (allLinkMatches content) <-> LinkOccurs id content.
Proof.
  unfold allLinkMatches. split.
  - apply linkMatches_sound.
  - apply linkMatches_complete. lia.
Qed.

(** ** One task per window during the waves *)

Lemma inFlight_app (slot : Z) (evs1 evs2 : list event) :
  inFlight slot (evs1 ++ evs2) = inFlight slot evs1 + inFlight slot evs2.
Proof. unfold inFlight. rewrite !filter_app, !length_app. lia. Qed.

Lemma inFlight_unmarked (slot : Z) (evs : list event) :
  forallb unmarked evs = true -> inFlight slot evs = 0.
Proof.
  induction evs as [|e evs IH]; [reflexivity|]. cbn [forallb].
  intro H. apply andb_true_iff in H. destruct H as [He Hevs].
  change (e :: evs) with ([e] ++ evs). rewrite inFlight_app, (IH Hevs).
  destruct e; try discriminate; reflexivity.
Qed.

Lemma exclusive_whole (evs : list event) (slot : Z) :
  exclusive evs -> inFlight slot evs <= 1.
Proof.
  intro H. rewrite <- (firstn_all evs). apply H.
Qed.

Lemma exclusive_snoc (evs : list event) (e : event) :
  exclusive evs ->
  (forall slot, inFlight slot (evs ++ [e]) <= 1) ->
  exclusive (evs ++ [e]).
Proof.
  intros H He slot n.
  destruct (Nat.le_gt_cases n (List.length evs)) as [Hn|Hn].
  - rewrite firstn_app. replace (n - List.length evs)%nat with O by lia.
    cbn [firstn]. rewrite app_nil_r. apply H.
  - rewrite firstn_all2 by (rewrite length_app; cbn; lia). apply He.
Qed.

Lemma exclusive_unmarked (evs more : list event) :
  exclusive evs -> forallb unmarked more = true -> exclusive (evs ++ more).
Proof.
  intros H Hm. induction more as [|e more IH] using rev_ind.
  - rewrite app_nil_r. exact H.
  - rewrite forallb_app in Hm. apply andb_true_iff in Hm.
    destruct Hm as [Hm He]. rewrite app_assoc.
    apply exclusive_snoc; [apply IH, Hm|].
    intro slot. rewrite <- app_assoc, inFlight_app.
    rewrite (inFlight_unmarked slot (more ++ [e]))
      by (rewrite forallb_app, Hm, He; reflexivity).
    pose proof (exclusive_whole evs slot H). lia.
Qed.

Lemma peak_exclusive (slot : Z) (evs seen : list event) :
  (forall n, inFlight slot (seen ++ firstn n evs) <= 1) ->
  peakInFlight slot seen evs <= 1.
Proof.
  revert seen. induction evs as [|e evs IH]; intros seen H; cbn [peakInFlight].
  - specialize (H O). cbn in H. rewrite app_nil_r in H. exact H.
  - apply Z.max_lub.
    + specialize (H O). cbn in H. rewrite app_nil_r in H. exact H.
    + apply IH. intro n. specialize (H (S n)). cbn [firstn] in H.
      rewrite <- app_assoc. exact H.
Qed.

Lemma fetchLevel_unmarked (e : event) :
  fetchLevel e = true -> unmarked e = true.
Proof. destruct e; cbn; congruence. Qed.

Section ChainProperties.
Variable cfg : Config.

Lemma chainOf_app (slot : Z) (a b : list Z) :
  chainOf cfg slot (a ++ b) = chainOf cfg slot a ++ chainOf cfg slot b.
Proof. apply filter_app. Qed.

Lemma setDelete_absent (q : Z) (l : list Z) :
  ~ In q l -> setDelete Z.eqb q l = l.
Proof.
  intro H. unfold setDelete. induction l as [|x l IH]; [reflexivity|].
  cbn [filter]. destruct (Z.eqb_spec q x) as [->|Hne].
  - exfalso. apply H. left. reflexivity.
  - cbn. f_equal. apply IH. intro Hin. apply H. right. exact Hin.
Qed.

Lemma setDelete_app (q : Z) (a b : list Z) :
  setDelete Z.eqb q (a ++ b) = setDelete Z.eqb q a ++ setDelete Z.eqb q b.
Proof. apply filter_app. Qed.

Lemma setDelete_In (q x : Z) (l : list Z) :
  In x (setDelete Z.eqb q l) <-> In x l /\ x <> q.
Proof.
  unfold setDelete. rewrite filter_In. split.
  - intros [H1 H2]. split; [exact H1|]. intro E. subst x.
    rewrite Z.eqb_refl in H2. discriminate.
  - intros [H1 H2]. split; [exact H1|].
    destruct (Z.eqb_spec q x); [congruence|reflexivity].
Qed.

Lemma setDelete_NoDup (q : Z) (l : list Z) :
  NoDup l -> NoDup (setDelete Z.eqb q l).
Proof. apply NoDup_filter. Qed.

Lemma chainOf_In (slot q : Z) (l : list Z) :
  In q (chainOf cfg slot l) <-> In q l /\ windowIndex cfg q = slot.
Proof.
  unfold chainOf. rewrite filter_In. split; intros [H1 H2]; split; auto.
  - apply Z.eqb_eq, H2.
  - apply Z.eqb_eq, H2.
Qed.

Lemma chainOf_setDelete_other (slot q : Z) (l : list Z) :
  windowIndex cfg q <> slot ->
  chainOf cfg slot (setDelete Z.eqb q l) = chainOf cfg slot l.
Proof.
  intro Hs. induction l as [|x l IH]; [reflexivity|].
  unfold setDelete in *. cbn [filter].
  destruct (Z.eqb_spec q x) as [->|Hne]; cbn [negb].
  - unfold chainOf at 2. cbn [filter].
    destruct (Z.eqb_spec (windowIndex cfg x) slot); [contradiction|].
    exact IH.
  - unfold chainOf in *. cbn [filter].
    destruct (windowIndex cfg x =? slot); [f_equal|]; exact IH.
Qed.

Lemma chainBusy_In (q : Z) (l : list Z) :
  In q l -> chainBusy cfg (windowIndex cfg q) l = 1.
Proof.
  intro H. unfold chainBusy.
  destruct (chainOf cfg (windowIndex cfg q) l) eqn:E; [|reflexivity].
  assert (Hin : In q (chainOf cfg (windowIndex cfg q) l))
    by (apply chainOf_In; auto).
  rewrite E in Hin. contradiction.
Qed.

End ChainProperties.

Section WaveInvariant.
Variable w : World.
Variable cfg : Config.

Lemma processPage_run (p : Z) (st : Session) :
  pending (snd (processPage cfg p st)) = pending st ++ [p] /\
  trace (snd (processPage cfg p st)) =
    trace st ++ Scheduled p (windowIndex cfg p) ::
      match chainOf cfg (windowIndex cfg p) (pending st) with
      | [] => [TaskStart p (windowIndex cfg p)]
      | _ :: _ => []
      end.
Proof.
  unfold processPage. run.
  destruct (chainOf cfg (windowIndex cfg p) (pending st)); cbn.
  - rewrite <- app_assoc. auto.
  - auto.
Qed.

Lemma settle_run (q : Z) (st : Session) :
  let st1 := snd (pagePromise w cfg q st) in
  pending (snd (settle w cfg q st)) = setDelete Z.eqb q (pending st1) /\
  trace (snd (settle w cfg q st)) =
    trace st1 ++ TaskEnd q (windowIndex cfg q) ::
      match chainOf cfg (windowIndex cfg q) (setDelete Z.eqb q (pending st1)) with
      | next :: _ => [TaskStart next (windowIndex cfg q)]
      | [] => []
      end.
Proof.
  cbn zeta. unfold settle. run.
  destruct (chainOf cfg (windowIndex cfg q) _); cbn.
  - auto.
  - rewrite <- app_assoc. auto.
Qed.

Lemma inFlight_start (slot p s : Z) :
  inFlight slot [TaskStart p s] = if s =? slot then 1 else 0.
Proof. unfold inFlight. cbn. destruct (s =? slot); reflexivity. Qed.

Lemma inFlight_end (slot p s : Z) :
  inFlight slot [TaskEnd p s] = if s =? slot then -1 else 0.
Proof. unfold inFlight. cbn. destruct (s =? slot); reflexivity. Qed.

Lemma processPage_inv (p : Z) (st : Session) :
  waveInv cfg st -> ~ In p (pending st) ->
  waveInv cfg (snd (processPage cfg p st)) /\
  pending (snd (processPage cfg p st)) = pending st ++ [p].
Proof.
  intros (Hnd & Hex & Hfl) Hfresh.
  destruct (processPage_run p st) as [Hp Ht].
  split; [|exact Hp]. unfold waveInv. rewrite Hp, Ht.
  set (s := windowIndex cfg p) in *.
  assert (Hsched : exclusive (trace st ++ [Scheduled p s]))
    by (apply exclusive_unmarked; auto).
  assert (Hbusy : forall slot,
            chainBusy cfg slot (pending st ++ [p]) =
              if s =? slot then 1 else chainBusy cfg slot (pending st)).
  { intro slot. unfold chainBusy. rewrite chainOf_app.
    unfold chainOf at 2. cbn [filter]. fold s.
    destruct (s =? slot); [|rewrite app_nil_r; reflexivity].
    destruct (chainOf cfg slot (pending st)); reflexivity. }
  split; [|split].
  - apply NoDup_app; [exact Hnd|repeat constructor; intros []|].
    intros x Hx [<-|[]]. contradiction.
  - change (Scheduled p s :: ?tl) with ([Scheduled p s] ++ tl).
    rewrite app_assoc.
    destruct (chainOf cfg s (pending st)) eqn:Hc.
    + apply exclusive_snoc; [exact Hsched|].
      intro slot. rewrite !inFlight_app, inFlight_start, Hfl.
      change (inFlight slot [Scheduled p s]) with 0.
      unfold chainBusy. destruct (Z.eqb_spec s slot) as [<-|Hne].
      * rewrite Hc. lia.
      * destruct (chainOf cfg slot (pending st)); lia.
    + rewrite app_nil_r. exact Hsched.
  - intro slot. rewrite Hbusy.
    change (Scheduled p s :: ?tl) with ([Scheduled p s] ++ tl).
    rewrite !inFlight_app, Hfl.
    change (inFlight slot [Scheduled p s]) with 0.
    destruct (chainOf cfg s (pending st)) eqn:Hc.
    + rewrite inFlight_start. destruct (Z.eqb_spec s slot) as [<-|Hne]; [|lia].
      unfold chainBusy. rewrite Hc. lia.
    + change (inFlight slot []) with 0.
      destruct (Z.eqb_spec s slot) as [<-|Hne]; [|lia].
      unfold chainBusy. rewrite Hc. lia.
Qed.

Lemma pagePromise_inv (q : Z) (st : Session) :
  waveInv cfg st ->
  waveInv cfg (snd (pagePromise w cfg q st)) /\
  pending (snd (pagePromise w cfg q st)) = pending st.
Proof.
  intros (Hnd & Hex & Hfl).
  destruct (pagePromise_state w cfg q st) as (_ & _ & Hp).
  destruct (emits_pagePromise w cfg q st) as (evs & T & F).
  assert (Fu : forallb unmarked evs = true)
    by (eapply forallb_impl; [apply fetchLevel_unmarked|exact F]).
  split; [|exact Hp]. unfold waveInv. rewrite Hp, T.
  split; [exact Hnd|]. split; [apply exclusive_unmarked; auto|].
  intro slot. rewrite inFlight_app, (inFlight_unmarked slot evs Fu), Hfl. lia.
Qed.

Lemma settle_inv (q : Z) (st : Session) :
  waveInv cfg st -> In q (pending st) ->
  waveInv cfg (snd (settle w cfg q st)) /\
  pending (snd (settle w cfg q st)) = setDelete Z.eqb q (pending st).
Proof.
  intros Hinv Hin.
  destruct (pagePromise_inv q st Hinv) as [(Hnd & Hex & Hfl) Hp].
  destruct (settle_run q st) as [Hp2 Ht]. cbn zeta in Hp2, Ht.
  set (st1 := snd (pagePromise w cfg q st)) in *.
  rewrite Hp in Hp2, Ht. rewrite Hp in Hfl.
  split; [|exact Hp2]. unfold waveInv. rewrite Hp2, Ht.
  set (s := windowIndex cfg q) in *.
  set (pend' := setDelete Z.eqb q (pending st)) in *.
  assert (Hend : forall slot,
            inFlight slot (trace st1 ++ [TaskEnd q s]) =
              if s =? slot then 0 else chainBusy cfg slot pend').
  { intro slot. rewrite inFlight_app, inFlight_end, Hfl.
    destruct (Z.eqb_spec s slot) as [<-|Hne].
    - unfold s. rewrite (chainBusy_In cfg q (pending st) Hin). lia.
    - unfold chainBusy, pend'.
      rewrite (chainOf_setDelete_other cfg slot q (pending st)) by exact Hne.
      lia. }
  assert (Hex1 : exclusive (trace st1 ++ [TaskEnd q s])).
  { apply exclusive_snoc; [exact Hex|]. intro slot. rewrite Hend.
    destruct (s =? slot); [lia|]. unfold chainBusy.
    destruct (chainOf cfg slot pend'); lia. }
  split; [apply setDelete_NoDup; rewrite <- Hp; exact Hnd|].
  change (TaskEnd q s :: ?tl) with ([TaskEnd q s] ++ tl). rewrite app_assoc.
  destruct (chainOf cfg s pend') as [|next chain'] eqn:Hc.
  - rewrite app_nil_r. split; [exact Hex1|].
    intro slot. rewrite Hend. destruct (Z.eqb_spec s slot) as [<-|Hne]; [|lia].
    unfold chainBusy. rewrite Hc. reflexivity.
  - assert (Hst : forall slot,
              inFlight slot ((trace st1 ++ [TaskEnd q s]) ++ [TaskStart next s])
              = chainBusy cfg slot pend').
    { intro slot. rewrite inFlight_app, Hend, inFlight_start.
      destruct (Z.eqb_spec s slot) as [<-|Hne]; [|lia].
      unfold chainBusy. rewrite Hc. reflexivity. }
    split; [|exact Hst].
    apply exclusive_snoc; [exact Hex1|]. intro slot. rewrite Hst.
    unfold chainBusy. destruct (chainOf cfg slot pend'); lia.
Qed.

End WaveInvariant.

Lemma before_prefix (p : Z) (x y : list Z) :
  ~ In p x -> before p (x ++ p :: y) = x.
Proof.
  intro H. induction x as [|q x IH]; cbn [app before].
  - rewrite Z.eqb_refl. reflexivity.
  - destruct (Z.eqb_spec q p) as [->|Hne].
    + exfalso. apply H. left. reflexivity.
    + f_equal. apply IH. intro Hin. apply H. right. exact Hin.
Qed.

Lemma pageRange_In (a b p : Z) : In p (pageRange a b) <-> a <= p <= b.
Proof.
  unfold pageRange. rewrite in_map_iff. split.
  - intros (k & <- & Hk). apply in_seq in Hk. lia.
  - intro H. exists (Z.to_nat (p - a)). split; [lia|]. apply in_seq. lia.
Qed.

Lemma NoDup_map_injective {A B : Type} (f : A -> B) (l : list A) :
  (forall x y, f x = f y -> x = y) -> NoDup l -> NoDup (map f l).
Proof.
  intros Hinj H. induction H as [|x l Hx Hl IH]; cbn; constructor; [|exact IH].
  intro Hin. apply in_map_iff in Hin. destruct Hin as (y & Hy & Hin).
  apply Hinj in Hy. subst y. contradiction.
Qed.

Lemma pageRange_NoDup (a b : Z) : NoDup (pageRange a b).
Proof.
  unfold pageRange. apply NoDup_map_injective; [|apply seq_NoDup].
  intros x y H. lia.
Qed.

Lemma setAdd_Z_In (x y : Z) (l : list Z) :
  In y (setAdd Z.eqb x l) <-> y = x \/ In y l.
Proof.
  unfold setAdd, setHas. destruct (existsb (Z.eqb x) l) eqn:E.
  - split; [auto|]. intros [->|H]; [|exact H].
    apply existsb_exists in E. destruct E as (z & Hz & Hxz).
    apply Z.eqb_eq in Hxz. subst. exact Hz.
  - rewrite in_app_iff. cbn. intuition congruence.
Qed.

Lemma quiet_sched {A : Type} (m : M A) (st : Session) :
  emits notScheduled m ->
  scheduledPages (trace (snd (m st))) = scheduledPages (trace st).
Proof.
  intro H. destruct (H st) as (evs & T & F).
  rewrite T, scheduledPages_app, (notScheduled_pages evs F), app_nil_r.
  reflexivity.
Qed.

Section BatchInvariant.
Variable w : World.
Variable cfg : Config.
Variable f0 : Z -> nat.
Variable F0 : list Z.

Let inv : Session -> Prop := fullInv w cfg f0 F0.
Let sched (st : Session) : list Z := scheduledPages (trace st).

Lemma settle_same (q : Z) (st : Session) :
  allHashesSet (snd (settle w cfg q st))
    = allHashesSet (snd (pagePromise w cfg q st)) /\
  failedPages (snd (settle w cfg q st))
    = failedPages (snd (pagePromise w cfg q st)) /\
  fetched (snd (settle w cfg q st)) = fetched (snd (pagePromise w cfg q st)).
Proof.
  unfold settle. run. destruct (chainOf cfg (windowIndex cfg q) _); cbn; auto.
Qed.

Lemma processPage_same (p : Z) (st : Session) :
  allHashesSet (snd (processPage cfg p st)) = allHashesSet st /\
  failedPages (snd (processPage cfg p st)) = failedPages st /\
  fetched (snd (processPage cfg p st)) = fetched st.
Proof.
  unfold processPage. run.
  destruct (chainOf cfg (windowIndex cfg p) (pending st)); cbn; auto.
Qed.

Lemma settle_full (q : Z) (st : Session) :
  inv st -> In q (pending st) ->
  inv (snd (settle w cfg q st)) /\
  pending (snd (settle w cfg q st)) = setDelete Z.eqb q (pending st).
Proof.
  intros [Hwave (Hincl & Hfetch & Hfail & Hhash)] Hq.
  destruct (settle_inv w cfg q st Hwave Hq) as [Hwave' Hp].
  split; [|exact Hp]. split; [exact Hwave'|].
  destruct (settle_same q st) as (Eh & Ef & Efe).
  destruct (pagePromise_state w cfg q st) as (Sh & Sf & _). cbn zeta in Sh, Sf.
  pose proof (quiet_sched _ st (quiet_settle w cfg q)) as Hs.
  assert (Hbase : fetched st q = f0 q) by (apply Hfetch; left; exact Hq).
  rewrite Hbase in Sh, Sf. fold (waveContent w f0 q) in Sh, Sf.
  assert (Hset : forall x, settledPage (snd (settle w cfg q st)) x <->
                           settledPage st x \/ x = q).
  { intro x. unfold settledPage. rewrite Hs, Hp, setDelete_In. split.
    - intros [H1 H2]. destruct (Z.eq_dec x q) as [->|Hne]; [auto|].
      left. split; [exact H1|]. intro H3. apply H2. auto.
    - intros [[H1 H2]| ->].
      + split; [exact H1|]. intros [H3 _]. contradiction.
      + split; [apply Hincl, Hq|]. intros [_ H3]. apply H3. reflexivity. }
  unfold doneInv. rewrite Hs, Hp. split; [|split; [|split]].
  - intros x Hx. apply setDelete_In in Hx. apply Hincl, Hx.
  - intros x Hx.
    assert (Hxq : x <> q).
    { intros ->. destruct Hx as [Hx|Hx].
      - apply setDelete_In in Hx. apply Hx. reflexivity.
      - apply Hx, Hincl, Hq. }
    rewrite Efe, (pagePromise_fetched w cfg q x st Hxq). apply Hfetch.
    destruct Hx as [Hx|Hx]; [left; apply setDelete_In in Hx; apply Hx|auto].
  - intro x. rewrite Ef, Sf, Hset.
    destruct (waveContent w f0 q) as [html|] eqn:Hc.
    + rewrite Hfail. split.
      * intros [H|[H1 H2]]; auto.
      * intros [H|[[H1| ->] H2]]; auto. congruence.
    + rewrite setAdd_Z_In, Hfail. split.
      * intros [->|[H|[H1 H2]]]; auto.
      * intros [H|[[H1| ->] H2]]; auto.
  - intro h. rewrite Eh, Sh.
    destruct (waveContent w f0 q) as [html|] eqn:Hc.
    + rewrite setAddAll_str_In, Hhash. split.
      * intros [H|(x & html' & H1 & H2 & H3)].
        -- exists q, html. rewrite Hset. auto.
        -- exists x, html'. rewrite Hset. auto.
      * intros (x & html' & H1 & H2 & H3). apply Hset in H1.
        destruct H1 as [H1| ->].
        -- right. exists x, html'. auto.
        -- left. congruence.
    + rewrite Hhash. split.
      * intros (x & html' & H1 & H2 & H3). exists x, html'. rewrite Hset. auto.
      * intros (x & html' & H1 & H2 & H3). apply Hset in H1.
        destruct H1 as [H1| ->]; [|congruence]. exists x, html'. auto.
Qed.

Lemma processPage_sched (p : Z) (st : Session) :
  sched (snd (processPage cfg p st)) = sched st ++ [p].
Proof.
  unfold sched. destruct (processPage_run cfg p st) as [_ T]. rewrite T.
  rewrite scheduledPages_app.
  destruct (chainOf cfg (windowIndex cfg p) (pending st)); reflexivity.
Qed.

Lemma processPage_full (p : Z) (st : Session) :
  inv st -> ~ In p (sched st) ->
  inv (snd (processPage cfg p st)) /\
  pending (snd (processPage cfg p st)) = pending st ++ [p].
Proof.
  intros [Hwave (Hincl & Hfetch & Hfail & Hhash)] Hfresh.
  destruct (processPage_inv cfg p st Hwave) as [Hwave' Hp].
  { intro Hin. apply Hfresh, Hincl, Hin. }
  split; [|exact Hp]. split; [exact Hwave'|].
  destruct (processPage_same p st) as (Eh & Ef & Efe).
  pose proof (processPage_sched p st) as Hs. unfold sched in Hs, Hfresh.
  assert (Hset : forall x, settledPage (snd (processPage cfg p st)) x <->
                           settledPage st x).
  { intro x. unfold settledPage. rewrite Hs, Hp, !in_app_iff. cbn [In]. split.
    - intros [[H1|[<-|[]]] H2].
      + split; [exact H1|]. intro H3. apply H2. auto.
      + exfalso. apply H2. auto.
    - intros [H1 H2]. split; [auto|]. intros [H3|[<-|[]]]; contradiction. }
  unfold doneInv. rewrite Hs, Hp, Eh, Ef, Efe. split; [|split; [|split]].
  - intros x Hx. apply in_app_or in Hx. apply in_or_app.
    destruct Hx as [Hx|Hx]; [left; apply Hincl, Hx|right; exact Hx].
  - intros x Hx. apply Hfetch. rewrite !in_app_iff in Hx. cbn [In] in Hx.
    destruct Hx as [[Hx|[<-|[]]]|Hx]; auto.
  - intro x. rewrite Hfail. split; intros [H|[H1 H2]]; auto;
      right; split; auto; apply Hset; exact H1.
  - intro h. rewrite Hhash. split; intros (x & html & H1 & H2 & H3);
      exists x, html; repeat split; auto; apply Hset; exact H1.
Qed.

Lemma inv_NoDup (st : Session) : inv st -> NoDup (pending st).
Proof. intros [(H & _) _]. exact H. Qed.

Lemma settleEach_inv (qs : list Z) :
  forall (A R : list Z) (st : Session),
    inv st -> pending st = A ++ R -> incl qs A -> NoDup qs ->
    let st' := snd (forEach (fun q => settle w cfg q ;; ret tt) qs st) in
    inv st' /\ sched st' = sched st /\
    exists A', pending st' = A' ++ R /\ incl A' A /\
               (forall x, In x A' -> ~ In x qs).
Proof.
  induction qs as [|q qs IH]; intros A R st Hinv Hp Hincl Hnd; cbn zeta.
  - cbn. split; [exact Hinv|]. split; [reflexivity|]. exists A.
    split; [exact Hp|]. split; [apply incl_refl|]. intros x _ [].
  - cbn [forEach]. rewrite !bind_run. cbn [ret snd].
    assert (HqA : In q A) by (apply Hincl; left; reflexivity).
    assert (HndP : NoDup (A ++ R)) by (rewrite <- Hp; apply inv_NoDup, Hinv).
    assert (HqR : ~ In q R).
    { intro HR. clear - HndP HqA HR. induction A as [|x A IH]; [contradiction|].
      cbn in HndP. inversion HndP; subst. destruct HqA as [->|HqA].
      - apply H1. apply in_or_app. right. exact HR.
      - apply IH; auto. }
    destruct (settle_full q st Hinv) as [Hinv1 Hp1].
    { rewrite Hp. apply in_or_app. left. exact HqA. }
    pose proof (quiet_sched _ st (quiet_settle w cfg q)) as Hs1.
    rewrite Hp, setDelete_app, (setDelete_absent q R HqR) in Hp1.
    inversion Hnd as [|x l Hq Hnd']; subst.
    destruct (IH (setDelete Z.eqb q A) R _ Hinv1 Hp1)
      as (Hinv2 & Hs2 & A' & Hp2 & Hi2 & Hout2).
    + intros x Hx. apply setDelete_In. split.
      * apply Hincl. right. exact Hx.
      * intro E. subst x. contradiction.
    + exact Hnd'.
    + split; [exact Hinv2|]. split; [unfold sched in *; congruence|].
      exists A'. split; [exact Hp2|]. split.
      * intros x Hx. apply Hi2 in Hx. apply setDelete_In in Hx. apply Hx.
      * intros x Hx [<-|Hin].
        -- apply Hi2 in Hx. apply setDelete_In in Hx. apply Hx. reflexivity.
        -- exact (Hout2 x Hx Hin).
Qed.

Lemma NoDup_middle (A R : list Z) (p : Z) :
  NoDup (A ++ p :: R) -> ~ In p A /\ ~ In p R /\ NoDup A.
Proof.
  intro H. pose proof (NoDup_remove_2 _ _ _ H) as H2.
  split; [|split].
  - intro Hin. apply H2. apply in_or_app. left. exact Hin.
  - intro Hin. apply H2. apply in_or_app. right. exact Hin.
  - eapply NoDup_app_remove_r. exact H.
Qed.

Lemma awaitPage_inv (p : Z) (A R : list Z) (st : Session) :
  inv st -> pending st = A ++ p :: R ->
  inv (snd (awaitPage w cfg p st)) /\
  sched (snd (awaitPage w cfg p st)) = sched st /\
  exists A', pending (snd (awaitPage w cfg p st)) = A' ++ R /\ incl A' A.
Proof.
  intros Hinv Hp.
  assert (HndP : NoDup (A ++ p :: R)) by (rewrite <- Hp; apply inv_NoDup, Hinv).
  destruct (NoDup_middle A R p HndP) as (HpA & HpR & HndA).
  unfold awaitPage. rewrite !bind_run. cbn [gets fst snd].
  set (s := windowIndex cfg p).
  assert (Hchain : before p (chainOf cfg s (pending st)) = chainOf cfg s A).
  { rewrite Hp, chainOf_app. unfold chainOf at 2. cbn [filter]. fold s.
    rewrite Z.eqb_refl. apply before_prefix.
    intro Hin. apply chainOf_In in Hin. apply HpA, Hin. }
  rewrite Hchain.
  destruct (settleEach_inv (chainOf cfg s A) A (p :: R) st Hinv Hp)
    as (Hinv1 & Hs1 & A' & Hp1 & Hi1 & _).
  { intros x Hx. apply chainOf_In in Hx. apply Hx. }
  { apply NoDup_filter, HndA. }
  set (st1 := snd (forEach _ (chainOf cfg s A) st)) in *.
  destruct (settle_full p st1 Hinv1) as [Hinv2 Hp2].
  { rewrite Hp1. apply in_or_app. right. left. reflexivity. }
  pose proof (quiet_sched _ st1 (quiet_settle w cfg p)) as Hs2.
  split; [exact Hinv2|]. split; [unfold sched in *; congruence|].
  exists A'. split; [|exact Hi1].
  rewrite Hp2, Hp1, setDelete_app.
  rewrite (setDelete_absent p A') by (intro Hin; apply HpA, Hi1, Hin).
  unfold setDelete at 1. cbn [filter]. rewrite Z.eqb_refl. cbn [negb].
  f_equal. apply setDelete_absent, HpR.
Qed.

Lemma race_inv (p : Z) (A R : list Z) (st : Session) :
  inv st -> pending st = A ++ p :: R ->
  inv (snd (raceBatchTimeout w cfg p st)) /\
  sched (snd (raceBatchTimeout w cfg p st)) = sched st /\
  exists A', pending (snd (raceBatchTimeout w cfg p st)) = A' ++ R.
Proof.
  intros Hinv Hp. unfold raceBatchTimeout.
  destruct (batchTimedOut w p).
  - cbn. split; [exact Hinv|]. split; [reflexivity|]. exists (A ++ [p]).
    rewrite Hp, <- app_assoc. reflexivity.
  - destruct (awaitPage_inv p A R st Hinv Hp) as (Hinv1 & Hs1 & A' & Hp1 & _).
    split; [exact Hinv1|]. split; [exact Hs1|]. exists A'. exact Hp1.
Qed.

Lemma races_inv (pages : list Z) :
  forall (A : list Z) (st : Session),
    inv st -> pending st = A ++ pages ->
    inv (snd (mapM (raceBatchTimeout w cfg) pages st)) /\
    sched (snd (mapM (raceBatchTimeout w cfg) pages st)) = sched st.
Proof.
  induction pages as [|p pages IH]; intros A st Hinv Hp.
  - cbn. auto.
  - cbn [mapM]. rewrite !bind_run. cbn [ret snd].
    destruct (race_inv p A pages st Hinv Hp) as (Hinv1 & Hs1 & A' & Hp1).
    destruct (IH A' _ Hinv1 Hp1) as (Hinv2 & Hs2).
    split; [exact Hinv2|]. unfold sched in *. congruence.
Qed.

Lemma launch_inv (pages : list Z) :
  forall st : Session,
    inv st -> NoDup pages ->
    (forall p, In p pages -> ~ In p (sched st)) ->
    inv (snd (forEach (processPage cfg) pages st)) /\
    pending (snd (forEach (processPage cfg) pages st)) = pending st ++ pages /\
    sched (snd (forEach (processPage cfg) pages st)) = sched st ++ pages.
Proof.
  induction pages as [|p pages IH]; intros st Hinv Hnd Hfresh.
  - cbn. rewrite !app_nil_r. auto.
  - cbn [forEach]. rewrite bind_run.
    destruct (processPage_full p st Hinv) as [Hinv1 Hp1].
    { apply Hfresh. left. reflexivity. }
    pose proof (processPage_sched p st) as Hs1.
    inversion Hnd as [|x l Hp Hnd']; subst.
    destruct (IH _ Hinv1 Hnd') as (Hinv2 & Hp2 & Hs2).
    { intros q Hq. rewrite Hs1. intro Hin. apply in_app_or in Hin.
      destruct Hin as [Hin|[<-|[]]].
      - apply (Hfresh q); [right; exact Hq|exact Hin].
      - contradiction. }
    split; [exact Hinv2|].
    rewrite Hp2, Hp1, Hs2, Hs1, <- !app_assoc. auto.
Qed.

Lemma runBatch_inv (pages : list Z) (st : Session) :
  inv st -> NoDup pages ->
  (forall p, In p pages -> ~ In p (sched st)) ->
  inv (snd (runBatch w cfg pages st)) /\
  sched (snd (runBatch w cfg pages st)) = sched st ++ pages.
Proof.
  intros Hinv Hnd Hfresh. unfold runBatch. rewrite bind_run.
  destruct (launch_inv pages st Hinv Hnd Hfresh) as (Hinv1 & Hp1 & Hs1).
  destruct (races_inv pages (pending st) _ Hinv1 Hp1) as [Hinv2 Hs2].
  split; [exact Hinv2|]. unfold sched in *. congruence.
Qed.

Lemma interWaveWait_inv (batchErrors : Z) (st : Session) :
  inv st ->
  inv (snd (interWaveWait batchErrors st)) /\
  sched (snd (interWaveWait batchErrors st)) = sched st.
Proof.
  intros [(Hnd & Hex & Hfl) Hdone].
  destruct (interWaveWait_run batchErrors st)
    as [(Eh & Ef & _ & _ & _ & Efe & Hp) Ht].
  assert (Fu : forallb unmarked (tierWait batchErrors) = true).
  { unfold tierWait. destruct (5 <? _); [reflexivity|].
    destruct (2 <? _); reflexivity. }
  assert (Hs : sched (snd (interWaveWait batchErrors st)) = sched st)
    by (apply quiet_sched, quiet_interWaveWait).
  split; [|exact Hs]. split.
  - unfold waveInv. rewrite Hp, Ht.
    split; [exact Hnd|]. split; [apply exclusive_unmarked; auto|].
    intro slot. rewrite inFlight_app, (inFlight_unmarked _ _ Fu), Hfl. lia.
  - unfold doneInv, settledPage in *. unfold sched in Hs.
    rewrite Hs, Hp, Eh, Ef, Efe. exact Hdone.
Qed.

Lemma waveLoop_inv (actual : Z) :
  1 <= cfg.(maxWindows) ->
  forall (fuel : nat) (batchStart errorCount : Z) (st : Session),
    inv st ->
    (forall q, In q (sched st) -> q < batchStart) ->
    inv (snd (waveLoop w cfg fuel actual batchStart errorCount st)).
Proof.
  intros Hmw. induction fuel as [|fuel IH];
    intros batchStart errorCount st Hinv Hold; [exact Hinv|].
  destruct (Z.leb_spec batchStart actual) as [Hle|Hgt].
  - rewrite waveLoop_step by exact Hle.
    set (batchEnd := Z.min (batchStart + maxWindows cfg - 1) actual).
    destruct (runBatch_inv (pageRange batchStart batchEnd) st Hinv)
      as [Hinv1 Hs1].
    { apply pageRange_NoDup. }
    { intros p Hp Hin. apply pageRange_In in Hp. apply Hold in Hin. lia. }
    set (batch := runBatch w cfg (pageRange batchStart batchEnd) st) in *.
    assert (Hold1 : forall q, In q (sched (snd batch)) -> q < batchEnd + 1).
    { intros q Hq. rewrite Hs1 in Hq. apply in_app_or in Hq.
      destruct Hq as [Hq|Hq].
      - apply Hold in Hq. unfold batchEnd. lia.
      - apply pageRange_In in Hq. lia. }
    destruct (interWaveWait_inv (countRejected (fst batch)) (snd batch) Hinv1)
      as [Hinv2 Hs2].
    apply IH.
    + destruct (batchEnd + 1 <=? actual); [exact Hinv2|exact Hinv1].
    + destruct (batchEnd + 1 <=? actual); [rewrite Hs2|]; exact Hold1.
  - cbn [waveLoop]. destruct (Z.leb_spec batchStart actual); [lia|]. exact Hinv.
Qed.

Lemma awaitStragglers_inv (st : Session) :
  inv st ->
  inv (snd (awaitStragglers w cfg st)) /\
  pending (snd (awaitStragglers w cfg st)) = [] /\
  sched (snd (awaitStragglers w cfg st)) = sched st.
Proof.
  intro Hinv. unfold awaitStragglers. rewrite bind_run. cbn [gets fst snd].
  destruct (settleEach_inv (pending st) (pending st) [] st Hinv)
    as (Hinv1 & Hs1 & A' & Hp1 & Hi1 & Hout1).
  - rewrite app_nil_r. reflexivity.
  - apply incl_refl.
  - apply inv_NoDup, Hinv.
  - split; [exact Hinv1|]. split; [|exact Hs1].
    rewrite Hp1, app_nil_r. destruct A' as [|x A']; [reflexivity|].
    exfalso. apply (Hout1 x); [left; reflexivity|].
    apply Hi1. left. reflexivity.
Qed.

End BatchInvariant.

Section WaveSummary.
Variable w : World.
Variable cfg : Config.
Hypothesis windows : 1 <= cfg.(maxWindows).

Lemma newSession_inv (passed : bool) :
  fullInv w cfg (fun _ => O) [] (snd (setHashes [] (newSession passed))).
Proof.
  split.
  - split; [constructor|]. split; [|reflexivity].
    intros s n. cbn [trace snd setHashes modify newSession].
    rewrite firstn_nil. cbv. discriminate.
  - unfold doneInv, settledPage.
    cbn [trace pending fetched failedPages allHashesSet snd setHashes modify
         newSession scheduledPages flat_map].
    split; [intros x []|]. split; [reflexivity|]. split.
    + intro p. split; [intros []|]. intros [[]|[[[] _] _]].
    + intro h. split; [intros []|]. intros (p & html & [[] _] & _).
Qed.

(** The state in which the retry pass begins: every page from 1 to the
    last has been scheduled and has settled; the failed pages are the pages
    whose [scrapePageSafe] returned no content, and the hash set holds the
    identifiers of the contents that the others returned. *)
Lemma waves_summary :
  let st := atRetry w cfg in
  waveInv cfg st /\
  pending st = [] /\
  (forall p, In p (failedPages st) <->
             1 <= p <= actualTotalPages w cfg /\
             waveContent w (fun _ => O) p = None) /\
  (forall h, In h (allHashesSet st) <->
             exists p html,
               1 <= p <= actualTotalPages w cfg /\
               waveContent w (fun _ => O) p = Some html /\
               In h (parseHTMLForHashes html)).
Proof.
  cbn zeta. unfold atRetry, runWaves. rewrite !bind_run.
  set (st0 := snd (setHashes [] (newSession true))).
  pose proof (newSession_inv true) as Hinv0. fold st0 in Hinv0.
  pose proof (waveLoop_inv w cfg _ _ (actualTotalPages w cfg) windows
                (enoughFuel w cfg) 1 0 st0 Hinv0) as Hinv1.
  destruct (waveLoop_scheduled w cfg (actualTotalPages w cfg) windows
              (enoughFuel w cfg) 1 0 st0) as (errors & evs & R & T & S).
  { unfold enoughFuel. lia. }
  rewrite R. rewrite bind_run. cbn [ret snd].
  set (st1 := snd (waveLoop w cfg (enoughFuel w cfg) (actualTotalPages w cfg)
                            1 0 st0)) in *.
  specialize (Hinv1 ltac:(intros q [])).
  destruct (awaitStragglers_inv w cfg _ _ st1 Hinv1) as (Hinv2 & Hp2 & Hs2).
  set (st2 := snd (awaitStragglers w cfg st1)) in *.
  assert (Hsched : scheduledPages (trace st2)
                   = pageRange 1 (actualTotalPages w cfg)).
  { rewrite Hs2, T, scheduledPages_app, S. reflexivity. }
  destruct Hinv2 as [Hwave (_ & _ & Hfail & Hhash)].
  assert (Hset : forall p, settledPage st2 p <->
                           1 <= p <= actualTotalPages w cfg).
  { intro p. unfold settledPage. rewrite Hsched, Hp2, pageRange_In.
    cbn [In]. tauto. }
  split; [exact Hwave|]. split; [exact Hp2|]. split.
  - intro p. rewrite Hfail, Hset. cbn [In]. tauto.
  - intro h. rewrite Hhash. split; intros (p & html & H1 & H2);
      exists p, html; (split; [apply Hset, H1|exact H2]).
Qed.

(** During the waves at most one page task runs on a window at any
    instant, whatever the windows render and whichever tasks time out: the
    chains of [processPage] see to it. *)
Lemma waves_exclusive (slot : Z) :
  peakInFlight slot [] (trace (atRetry w cfg)) <= 1.
Proof.
  destruct waves_summary as [Hwave _].
  apply peak_exclusive. intro n. cbn [app]. apply Hwave.
Qed.

(** [scrappe] returns the identifiers that the waves have extracted. *)
Lemma scrappe_returns_waves (hashes : list jsstring) :
  fst (scrappe w cfg (newSession true)) = Some hashes ->
  forall h, In h hashes <->
            exists p html,
              1 <= p <= actualTotalPages w cfg /\
              waveContent w (fun _ => O) p = Some html /\
              In h (parseHTMLForHashes html).
Proof.
  intros H h. apply scrappe_returns_snapshot in H. subst hashes.
  destruct waves_summary as (_ & _ & _ & Hhash). apply Hhash.
Qed.

End WaveSummary.

(** ** Whole sessions *)

Section SessionCorollaries.
Variable w : World.
Variable cfg : Config.
Hypothesis windows : 1 <= cfg.(maxWindows).

(** A scheduled page none of whose inline attempts is accepted is in
    [failedPages] when the retry pass begins. *)
Lemma rejected_page_is_failed (page : Z) :
  1 <= page <= actualTotalPages w cfg ->
  (forall k, (k < Z.to_nat options.(maxRetries))%nat ->
     accepted (classify (w.(render) page k)) = false) ->
  In page (failedPages (atRetry w cfg)).
Proof.
  intros Hpage Hrej.
  destruct (waves_summary w cfg windows) as (_ & _ & Hfail & _).
  apply Hfail. split; [exact Hpage|].
  unfold waveContent.
  destruct (safeContent_none w page (Z.to_nat options.(maxRetries)) O)
    as [Hnone _]; [exact Hrej|].
  rewrite Hnone. reflexivity.
Qed.

Lemma insufficient_page_is_failed (page : Z) :
  1 <= page <= actualTotalPages w cfg ->
  (forall k, (k < Z.to_nat options.(maxRetries))%nat ->
     exists h, w.(render) page k = Rendered h /\ insufficient h = true) ->
  In page (failedPages (atRetry w cfg)).
Proof.
  intros Hpage H. apply rejected_page_is_failed; [exact Hpage|].
  intros k Hk. destruct (H k Hk) as (h & Hr & Hi).
  rewrite Hr, (insufficient_classify h Hi). reflexivity.
Qed.

Lemma exactly500_page_is_failed (page : Z) :
  1 <= page <= actualTotalPages w cfg ->
  (forall k, (k < Z.to_nat options.(maxRetries))%nat ->
     exists html, w.(render) page k = Rendered (Some html) /\
                  strlen html = 500) ->
  In page (failedPages (atRetry w cfg)).
Proof.
  intros Hpage H. apply rejected_page_is_failed; [exact Hpage|].
  intros k Hk. destruct (H k Hk) as (html & Hr & Hl).
  rewrite Hr. apply exactly500_checks, Hl.
Qed.

(** An identifier that no page yields during the waves is not in the list
    that [scrappe] returns, whatever the retry pass extracts. *)
Lemma unseen_in_waves_not_returned (hashes : list jsstring) (h : jsstring) :
  fst (scrappe w cfg (newSession true)) = Some hashes ->
  (forall p html, 1 <= p <= actualTotalPages w cfg ->
                  waveContent w (fun _ => O) p = Some html ->
                  ~ In h (parseHTMLForHashes html)) ->
  ~ In h hashes.
Proof.
  intros Hret Hunseen Hin.
  apply (scrappe_returns_waves w cfg windows hashes Hret) in Hin.
  destruct Hin as (p & html & Hp & Hc & Hh).
  exact (Hunseen p html Hp Hc Hh).
Qed.

End SessionCorollaries.

(** * More properties *)

(** ** Strings *)

Lemma startsWith_prefix (p s : jsstring) :
  startsWith p s = true <-> exists post, s = p ++ post.
Proof.
  revert s. induction p as [|x p IH]; intros s.
  - cbn. split; [intros _; exists s; reflexivity|reflexivity].
  - destruct s as [|y s]; cbn [startsWith].
    + split; [discriminate|]. intros (post & E). discriminate E.
    + rewrite andb_true_iff, Ascii.eqb_eq, IH. split.
      * intros [-> (post & ->)]. exists post. reflexivity.
      * intros (post & E). cbn in E. inversion E; subst. eauto.
Qed.

Lemma includes_substring (s p : jsstring) :
  includes s p = true <-> Substring p s.
Proof.
  unfold Substring. induction s as [|c s IH].
  - cbn [includes]. rewrite orb_false_r, startsWith_prefix. split.
    + intros (post & E). exists [], post. exact E.
    + intros (pre & post & E). destruct pre as [|x pre]; [|discriminate E].
      exists post. exact E.
  - cbn [includes]. rewrite orb_true_iff, startsWith_prefix, IH. split.
    + intros [(post & E)|(pre & post & E)].
      * exists [], post. exact E.
      * exists (c :: pre), post. rewrite E. reflexivity.
    + intros (pre & post & E). destruct pre as [|x pre].
      * left. exists post. exact E.
      * right. cbn in E. inversion E; subst. eauto.
Qed.

Lemma lowerChar_idempotent (c : ascii) : lowerChar (lowerChar c) = lowerChar c.
Proof.
  destruct c as [[] [] [] [] [] [] [] []]; vm_compute; reflexivity.
Qed.

Lemma toLowerCase_idempotent (s : jsstring) :
  toLowerCase (toLowerCase s) = toLowerCase s.
Proof.
  unfold toLowerCase. rewrite map_map. apply map_ext.
  intro c. apply lowerChar_idempotent.
Qed.

(** [find] returns the first element that passes the test. *)
Lemma find_first {A : Type} (f : A -> bool) (l : list A) (x : A) :
  find f l = Some x <->
  exists l1 l2, l = l1 ++ x :: l2 /\ f x = true /\
                forall y, In y l1 -> f y = false.
Proof.
  induction l as [|a l IH]; cbn [find].
  - split; [discriminate|]. intros (l1 & l2 & E & _).
    destruct l1; discriminate E.
  - destruct (f a) eqn:Fa.
    + split.
      * intro E. inversion E; subst. exists [], l. repeat split; auto.
        intros y [].
      * intros (l1 & l2 & E & Fx & Hl1). destruct l1 as [|b l1].
        -- cbn in E. inversion E; subst. reflexivity.
        -- cbn in E. inversion E; subst.
           rewrite (Hl1 b (or_introl eq_refl)) in Fa. discriminate Fa.
    + rewrite IH. split.
      * intros (l1 & l2 & -> & Fx & Hl1). exists (a :: l1), l2.
        repeat split; auto. intros y [<-|Hy]; auto.
      * intros (l1 & l2 & E & Fx & Hl1). destruct l1 as [|b l1].
        -- cbn in E. inversion E; subst. congruence.
        -- cbn in E. inversion E; subst. exists l1, l2.
           repeat split; auto. intros y Hy. apply Hl1. right. exact Hy.
Qed.

Lemma carries_includes (html pattern : jsstring) :
  includes (toLowerCase html) (toLowerCase pattern) = true <->
  carries html pattern.
Proof. apply includes_substring. Qed.

Lemma not_carries_includes (html pattern : jsstring) :
  includes (toLowerCase html) (toLowerCase pattern) = false <->
  ~ carries html pattern.
Proof.
  rewrite <- carries_includes.
  destruct (includes _ _); split; congruence.
Qed.

(** ** Classification *)

Lemma detectedFailure_first (html pattern : jsstring) :
  detectedFailure html = Some pattern <->
  exists earlier later,
    failurePatterns = earlier ++ pattern :: later /\
    carries html pattern /\
    forall q, In q earlier -> ~ carries html q.
Proof.
  unfold detectedFailure. rewrite find_first. split.
  - intros (l1 & l2 & E & Fx & Hl1). exists l1, l2.
    split; [exact E|]. split; [apply carries_includes, Fx|].
    intros q Hq. apply not_carries_includes, Hl1, Hq.
  - intros (l1 & l2 & E & Fx & Hl1). exists l1, l2.
    split; [exact E|]. split; [apply carries_includes, Fx|].
    intros q Hq. apply not_carries_includes, Hl1, Hq.
Qed.

Lemma detectedFailure_none (html : jsstring) :
  detectedFailure html = None <->
  forall q, In q failurePatterns -> ~ carries html q.
Proof.
  split.
  - intros H q Hq. apply not_carries_includes.
    exact (find_none _ _ H q Hq).
  - intro H. destruct (detectedFailure html) as [pattern|] eqn:E;
      [|reflexivity].
    apply detectedFailure_first in E.
    destruct E as (l1 & l2 & E & C & _). exfalso.
    apply (H pattern); [|exact C]. rewrite E. apply in_elt.
Qed.

Lemma accepted_classify (o : FetchOutcome) (html : jsstring) :
  classify o = Some html /\ accepted (Some html) = true <->
  o = Rendered (Some html) /\ 500 < strlen html /\
  detectedFailure html = None.
Proof.
  unfold classify, accepted, truthy. split.
  - intros [Hc Ha]. destruct o as [msg|[h|]]; try discriminate Hc.
    destruct (insufficient (Some h)); [discriminate Hc|].
    destruct (detectedFailure h) eqn:Hd; [discriminate Hc|].
    inversion Hc; subst. destruct html as [|c t]; [discriminate Ha|].
    apply Z.gtb_lt in Ha. repeat split; [lia|exact Hd].
  - intros (-> & Hlen & Hd).
    assert (Hi : insufficient (Some html) = false).
    { unfold insufficient. destruct html as [|c t]; [cbn in Hlen; lia|].
      apply Z.ltb_ge. lia. }
    rewrite Hi, Hd. split; [reflexivity|].
    destruct html as [|c t]; [cbn in Hlen; lia|]. apply Z.gtb_lt. lia.
Qed.

Lemma classify_accepted (o : FetchOutcome) :
  accepted (classify o) = true ->
  exists html, classify o = Some html /\ accepted (Some html) = true.
Proof.
  destruct (classify o) as [html|]; [eauto|discriminate].
Qed.

(** [scrapePageSafe] ends with the content of the first attempt that is
    accepted. *)
Lemma safeContent_first (w : World) (page : Z) (html : jsstring) (n : nat) :
  forall base,
    safeContent w page n base = Some html <->
    exists k, (k < n)%nat /\
      classify (w.(render) page (base + k)%nat) = Some html /\
      accepted (Some html) = true /\
      forall j, (j < k)%nat ->
        accepted (classify (w.(render) page (base + j)%nat)) = false.
Proof.
  induction n as [|n IH]; intro base; cbn [safeContent].
  - split; [discriminate|]. intros (k & Hk & _). lia.
  - destruct (accepted (classify (render w page base))) eqn:Ha.
    + split.
      * intro E. exists O. rewrite Nat.add_0_r.
        split; [lia|]. split; [exact E|]. split; [congruence|].
        intros j Hj. lia.
      * intros (k & Hk & Hc & Hacc & Hbefore). destruct k as [|k].
        -- rewrite Nat.add_0_r in Hc. exact Hc.
        -- specialize (Hbefore O ltac:(lia)). rewrite Nat.add_0_r in Hbefore.
           congruence.
    + rewrite IH. split.
      * intros (k & Hk & Hc & Hacc & Hbefore). exists (S k).
        split; [lia|]. rewrite Nat.add_succ_r. split; [exact Hc|].
        split; [exact Hacc|]. intros j Hj. destruct j as [|j].
        -- rewrite Nat.add_0_r. exact Ha.
        -- rewrite Nat.add_succ_r. apply Hbefore. lia.
      * intros (k & Hk & Hc & Hacc & Hbefore). destruct k as [|k].
        -- rewrite Nat.add_0_r in Hc. rewrite Hc, Hacc in Ha. discriminate Ha.
        -- exists k. split; [lia|]. rewrite Nat.add_succ_r in Hc.
           split; [exact Hc|]. split; [exact Hacc|].
           intros j Hj. specialize (Hbefore (S j) ltac:(lia)).
           rewrite Nat.add_succ_r in Hbefore. exact Hbefore.
Qed.

(** ** Windows *)

Lemma windowIndex_mod (cfg : Config) (page : Z) :
  1 <= cfg.(maxWindows) -> 1 <= page ->
  windowIndex cfg page = (page - 1) mod cfg.(maxWindows).
Proof. intros Hmw Hp. unfold windowIndex. apply Z.rem_mod_nonneg; lia. Qed.

Lemma windowIndex_range (cfg : Config) (page : Z) :
  1 <= cfg.(maxWindows) -> 1 <= page ->
  0 <= windowIndex cfg page < cfg.(maxWindows).
Proof.
  intros Hmw Hp. rewrite windowIndex_mod by assumption.
  apply Z.mod_pos_bound. lia.
Qed.

Lemma createWindows_lookup (cfg : Config) (index : Z) :
  0 <= index < cfg.(maxWindows) ->
  windowAt (createWindows cfg) index = Some index.
Proof.
  intro H. unfold windowAt, createWindows.
  destruct (Z.ltb_spec index 0); [lia|].
  rewrite nth_error_map.
  rewrite (nth_error_nth' _ O) by (rewrite length_seq; lia).
  rewrite seq_nth by lia. cbn. f_equal. lia.
Qed.

Lemma same_residue_close (m a b : Z) :
  0 < m -> a mod m = b mod m -> - m < a - b < m -> a = b.
Proof.
  intros Hm E Hab.
  pose proof (Z.div_mod a m ltac:(lia)) as Ha.
  pose proof (Z.div_mod b m ltac:(lia)) as Hb.
  assert (Hd : a - b = m * (a / m - b / m)) by lia.
  assert (a / m - b / m = 0) by nia. lia.
Qed.

(** ** Sessions that schedule nothing *)

Lemma runBatch_nil (w : World) (cfg : Config) (st : Session) :
  runBatch w cfg [] st = ([], st).
Proof. reflexivity. Qed.

Lemma waveLoop_idle (w : World) (cfg : Config) (actual : Z) :
  cfg.(maxWindows) <= 0 ->
  forall (fuel : nat) (batchStart errorCount : Z) (st : Session),
    batchStart <= actual ->
    waveLoop w cfg fuel actual batchStart errorCount st = (None, st).
Proof.
  intro Hmw. induction fuel as [|fuel IH]; intros batchStart errorCount st Hle;
    [reflexivity|].
  rewrite waveLoop_step by exact Hle. cbn zeta.
  rewrite pageRange_empty by lia. rewrite runBatch_nil. cbn [fst snd].
  replace (snd (interWaveWait (countRejected []) st)) with st by reflexivity.
  destruct (_ <=? actual); apply IH; lia.
Qed.

(** ** Relations kept by monadic code *)

Section Holds.
Context (R : Session -> Session -> Prop).
Hypothesis R_refl : forall st, R st st.
Hypothesis R_trans : forall st1 st2 st3, R st1 st2 -> R st2 st3 -> R st1 st3.

Lemma holds_ret {A : Type} (a : A) : holds R (ret a).
Proof. intro st. apply R_refl. Qed.

Lemma holds_gets {A : Type} (f : Session -> A) : holds R (gets f).
Proof. intro st. apply R_refl. Qed.

Lemma holds_bind {A B : Type} (m : M A) (f : A -> M B) :
  holds R m -> (forall a, holds R (f a)) -> holds R (bind m f).
Proof.
  intros Hm Hf st. rewrite bind_run.
  eapply R_trans; [apply Hm|apply Hf].
Qed.

Lemma holds_when (b : bool) (m : M unit) : holds R m -> holds R (when b m).
Proof. intro H. destruct b; [exact H|apply holds_ret]. Qed.

Lemma holds_forEach {A : Type} (f : A -> M unit) (l : list A) :
  (forall x, holds R (f x)) -> holds R (forEach f l).
Proof.
  intro H. induction l as [|x l IH]; [apply holds_ret|].
  cbn [forEach]. apply holds_bind; auto.
Qed.

Lemma holds_mapM {A B : Type} (f : A -> M B) (l : list A) :
  (forall x, holds R (f x)) -> holds R (mapM f l).
Proof.
  intro H. induction l as [|x l IH]; [apply holds_ret|].
  cbn [mapM]. apply holds_bind; [apply H|]. intro y.
  apply holds_bind; [exact IH|]. intro ys. apply holds_ret.
Qed.

End Holds.

(** ** Navigations and the status file *)

Lemma untracked_counts (evs : list event) :
  forallb untracked evs = true ->
  clearings evs = O /\ forall p, navigations p evs = O.
Proof.
  unfold clearings, navigations.
  induction evs as [|e evs IH]; [auto|]. cbn [forallb]. intro H.
  apply andb_true_iff in H. destruct H as [He Hevs].
  destruct (IH Hevs) as [IH1 IH2].
  destruct e; try discriminate He; cbn [filter isStatusCleared isNavigate];
    auto.
Qed.

Lemma clearings_app (evs1 evs2 : list event) :
  clearings (evs1 ++ evs2) = (clearings evs1 + clearings evs2)%nat.
Proof. unfold clearings. rewrite filter_app, length_app. reflexivity. Qed.

Lemma audit_refl (w : World) (st : Session) : audit w st st.
Proof.
  exists []. rewrite app_nil_r. split; [reflexivity|].
  split; [reflexivity|]. split; [|reflexivity].
  split; [|tauto]. intro H. split; [exact H|]. intros p k Hk. lia.
Qed.

Lemma audit_trans (w : World) (st1 st2 st3 : Session) :
  audit w st1 st2 -> audit w st2 st3 -> audit w st1 st3.
Proof.
  intros (evs1 & T1 & N1 & P1 & C1) (evs2 & T2 & N2 & P2 & C2).
  exists (evs1 ++ evs2). split; [rewrite T2, T1, app_assoc; reflexivity|].
  split; [|split].
  - intro p. rewrite navigations_app. specialize (N1 p). specialize (N2 p).
    lia.
  - rewrite P2, P1. split.
    + intros [[H1 H12] H23]. split; [exact H1|]. intros p k Hk.
      specialize (N1 p). specialize (N2 p).
      destruct (Nat.lt_ge_cases k (fetched st2 p)).
      * apply H12. lia.
      * apply H23. lia.
    + intros [H1 H13]. specialize N1. specialize N2.
      repeat split; [exact H1| |]; intros p k Hk; apply H13;
        specialize (N1 p); specialize (N2 p); lia.
  - rewrite clearings_app. lia.
Qed.

(** Code that makes no navigation and leaves the status file alone. *)
Lemma audit_quiet (w : World) (st st' : Session) (evs : list event) :
  trace st' = trace st ++ evs ->
  forallb untracked evs = true ->
  fetched st' = fetched st ->
  cloudflarePassed st' = cloudflarePassed st ->
  audit w st st'.
Proof.
  intros T U F P. destruct (untracked_counts evs U) as [C N].
  exists evs. split; [exact T|]. rewrite F, P, C. split; [|split].
  - intro p. rewrite N. reflexivity.
  - split; [|tauto]. intro H. split; [exact H|]. intros p k Hk. lia.
  - reflexivity.
Qed.

Lemma audit_log (w : World) (e : event) :
  untracked e = true -> holds (audit w) (log e).
Proof.
  intros U st. apply (audit_quiet w _ _ [e]); try reflexivity.
  cbn. rewrite U. reflexivity.
Qed.

Lemma audit_modify (w : World) (f : Session -> Session) :
  (forall st, trace (f st) = trace st /\ fetched (f st) = fetched st /\
              cloudflarePassed (f st) = cloudflarePassed st) ->
  holds (audit w) (modify f).
Proof.
  intros H st. destruct (H st) as (T & F & P).
  apply (audit_quiet w _ _ []); cbn [snd modify]; auto.
  rewrite app_nil_r. exact T.
Qed.

Lemma audit_scrapePage (w : World) (cfg : Config) (page : Z) :
  holds (audit w) (scrapePage w cfg page).
Proof.
  intro st. rewrite scrapePage_run. cbn [snd].
  set (o := render w page (fetched st page)).
  eexists. cbn [trace fetched cloudflarePassed].
  split; [reflexivity|]. split; [|split].
  - intro p. unfold navigations. cbn [filter isNavigate].
    assert (E : forall b : bool,
              filter (isNavigate p) (if b then [StatusCleared] else []) = []).
    { intros []; reflexivity. }
    rewrite E. destruct (Z.eqb_spec page p) as [->|Hne].
    + rewrite Z.eqb_refl. reflexivity.
    + destruct (Z.eqb_spec p page); [congruence|reflexivity].
  - rewrite andb_true_iff, negb_true_iff. split.
    + intros [Hp Ho]. split; [exact Hp|]. intros p k Hk.
      destruct (Z.eqb_spec p page) as [->|Hne]; [|lia].
      replace k with (fetched st page) by lia. exact Ho.
    + intros [Hp Hall]. split; [exact Hp|]. apply (Hall page).
      rewrite Z.eqb_refl. lia.
  - unfold clearings. cbn [filter isStatusCleared].
    destruct (cloudflarePassed st), (challengeSeen o); reflexivity.
Qed.

Section AuditOfTheProgram.
Variable w : World.
Variable cfg : Config.

Lemma audit_ret {A : Type} (a : A) : holds (audit w) (ret a).
Proof. apply holds_ret, audit_refl. Qed.

Lemma audit_gets {A : Type} (f : Session -> A) : holds (audit w) (gets f).
Proof. apply holds_gets, audit_refl. Qed.

Lemma audit_bind {A B : Type} (m : M A) (f : A -> M B) :
  holds (audit w) m -> (forall a, holds (audit w) (f a)) ->
  holds (audit w) (bind m f).
Proof. apply holds_bind, audit_trans. Qed.

Lemma audit_when (b : bool) (m : M unit) :
  holds (audit w) m -> holds (audit w) (when b m).
Proof. apply holds_when, audit_refl. Qed.

Lemma audit_forEach {A : Type} (f : A -> M unit) (l : list A) :
  (forall x, holds (audit w) (f x)) -> holds (audit w) (forEach f l).
Proof. apply holds_forEach; [apply audit_refl|apply audit_trans]. Qed.

Lemma audit_mapM {A B : Type} (f : A -> M B) (l : list A) :
  (forall x, holds (audit w) (f x)) -> holds (audit w) (mapM f l).
Proof. apply holds_mapM; [apply audit_refl|apply audit_trans]. Qed.

End AuditOfTheProgram.

Create HintDb audit.
#[local] Hint Resolve audit_ret audit_gets audit_when audit_forEach audit_mapM
  : audit.
#[local] Hint Extern 1 (holds (audit _) (bind _ _)) =>
  (apply audit_bind; [|intro]) : audit.
#[local] Hint Extern 1 (holds (audit _) (log _)) =>
  (apply audit_log; reflexivity) : audit.
#[local] Hint Extern 1 (holds (audit _) (modify _)) =>
  (apply audit_modify; intro; repeat split; reflexivity) : audit.
#[local] Hint Extern 2 (holds (audit _) (match ?x with _ => _ end)) =>
  destruct x : audit.
#[local] Hint Extern 2 (holds (audit _) (if ?x then _ else _)) =>
  destruct x : audit.

Ltac audit_step :=
  unfold setHashes, setFailed, setProcessed, setPending;
  auto 20 with audit.

Section AuditOfTheSession.
Variable w : World.
Variable cfg : Config.

Lemma audit_attemptLoop (n : nat) (attempt page : Z) :
  holds (audit w) (attemptLoop w cfg n attempt page).
Proof.
  revert attempt. induction n as [|n IH]; intro attempt; cbn [attemptLoop].
  - apply audit_ret.
  - pose proof (audit_scrapePage w cfg page). audit_step.
Qed.

Lemma audit_pagePromise (page : Z) : holds (audit w) (pagePromise w cfg page).
Proof.
  pose proof (audit_attemptLoop (Z.to_nat options.(maxRetries)) 1 page).
  unfold pagePromise, catchP, thenP, processPageFetch, processPageMerge,
    processPageCatch, addHashes, addFailed, scrapePageSafe.
  audit_step.
Qed.

Lemma audit_settle (page : Z) : holds (audit w) (settle w cfg page).
Proof. pose proof (audit_pagePromise page). unfold settle. audit_step. Qed.

Lemma audit_race (page : Z) : holds (audit w) (raceBatchTimeout w cfg page).
Proof.
  pose proof audit_settle. unfold raceBatchTimeout, awaitPage. audit_step.
Qed.

Lemma audit_runBatch (pages : list Z) : holds (audit w) (runBatch w cfg pages).
Proof.
  pose proof audit_race.
  assert (forall p, holds (audit w) (processPage cfg p))
    by (intro p; unfold processPage; audit_step).
  unfold runBatch. audit_step.
Qed.

Lemma audit_interWaveWait (batchErrors : Z) :
  holds (audit w) (interWaveWait batchErrors).
Proof. unfold interWaveWait. audit_step. Qed.

Lemma audit_waveLoop (fuel : nat) :
  forall actual batchStart errorCount,
    holds (audit w) (waveLoop w cfg fuel actual batchStart errorCount).
Proof.
  induction fuel as [|fuel IH]; intros actual batchStart errorCount;
    cbn [waveLoop].
  - apply audit_ret.
  - pose proof audit_runBatch. pose proof audit_interWaveWait. audit_step.
Qed.

Lemma audit_awaitStragglers : holds (audit w) (awaitStragglers w cfg).
Proof. pose proof audit_settle. unfold awaitStragglers. audit_step. Qed.

Lemma audit_runWaves (fuel : nat) : holds (audit w) (runWaves w cfg fuel).
Proof.
  pose proof (audit_waveLoop fuel). pose proof audit_awaitStragglers.
  unfold runWaves. audit_step.
Qed.

Lemma audit_retryFailedPages : holds (audit w) (retryFailedPages w cfg).
Proof.
  pose proof (fun page =>
    audit_attemptLoop (Z.to_nat options.(maxRetries)) 1 page).
  unfold retryFailedPages, retryPage, scrapePageSafe, addHashes. audit_step.
Qed.

Lemma audit_scrappeWith (fuel : nat) : holds (audit w) (scrappeWith w cfg fuel).
Proof.
  pose proof (audit_runWaves fuel). pose proof audit_retryFailedPages.
  unfold scrappeWith. audit_step.
Qed.

End AuditOfTheSession.

(** ** The waves, step by step *)

Lemma waveSteps_trans (w : World) (cfg : Config) (st1 st2 st3 : Session) :
  waveSteps w cfg st1 st2 -> waveSteps w cfg st2 st3 ->
  waveSteps w cfg st1 st3.
Proof.
  intros H12 H23. induction H23 as [|st3 st4 _ IH Hstep]; [exact H12|].
  eapply StepsSnoc; eauto.
Qed.

Lemma waveSteps_one (w : World) (cfg : Config) (st st' : Session) :
  waveStep w cfg st st' -> waveSteps w cfg st st'.
Proof. intro H. eapply StepsSnoc; [apply StepsNone|exact H]. Qed.

Section Chains.
Variable cfg : Config.

Lemma head_pending (slot q : Z) (pend : list Z) :
  hd_error (chainOf cfg slot pend) = Some q -> In q pend.
Proof.
  intro H. destruct (chainOf cfg slot pend) as [|x chain] eqn:E;
    [discriminate H|].
  inversion H; subst.
  assert (Hin : In q (chainOf cfg slot pend)) by (rewrite E; left; reflexivity).
  apply chainOf_In in Hin. apply Hin.
Qed.

Lemma chainOf_none (slot : Z) (l : list Z) :
  (forall x, In x l -> windowIndex cfg x <> slot) -> chainOf cfg slot l = [].
Proof.
  intro H. induction l as [|x l IH]; [reflexivity|].
  unfold chainOf. cbn [filter].
  destruct (Z.eqb_spec (windowIndex cfg x) slot) as [E|_].
  - exfalso. apply (H x); [left; reflexivity|exact E].
  - apply IH. intros y Hy. apply H. right. exact Hy.
Qed.

Lemma chainOf_cons (q : Z) (l : list Z) :
  chainOf cfg (windowIndex cfg q) (q :: l)
    = q :: chainOf cfg (windowIndex cfg q) l.
Proof. unfold chainOf. cbn [filter]. rewrite Z.eqb_refl. reflexivity. Qed.

Lemma setDelete_head (q : Z) (l : list Z) :
  setDelete Z.eqb q (q :: l) = setDelete Z.eqb q l.
Proof. unfold setDelete. cbn [filter]. rewrite Z.eqb_refl. reflexivity. Qed.

Lemma filter_all {A : Type} (l : list A) : filter (fun _ => true) l = l.
Proof. induction l as [|x l IH]; [reflexivity|]. cbn. rewrite IH. reflexivity. Qed.

End Chains.

Section StepsOfTheWaves.
Variable w : World.
Variable cfg : Config.
Variable f0 : Z -> nat.
Variable F0 : list Z.

Let inv : Session -> Prop := fullInv w cfg f0 F0.
Let sched (st : Session) : list Z := scheduledPages (trace st).
Let steps : Session -> Session -> Prop := waveSteps w cfg.

(** Every invariant of the steps, proved with the invariant of the waves
    at hand, holds after any number of steps. *)
Lemma waveSteps_keep (P : Session -> Prop) :
  (forall st st', inv st -> P st -> waveStep w cfg st st' -> P st') ->
  forall st st', steps st st' -> inv st -> P st -> inv st' /\ P st'.
Proof.
  intros Hstep st st' H Hinv HP.
  induction H as [|st1 st2 _ IH Hs]; [auto|].
  destruct IH as [Hinv1 HP1]. split; [|eapply Hstep; eauto].
  destruct Hs as [p Hp|q Hq|batchErrors].
  - apply (processPage_full w cfg f0 F0 p st1 Hinv1 Hp).
  - apply (settle_full w cfg f0 F0 q st1 Hinv1 (head_pending cfg _ q _ Hq)).
  - apply (interWaveWait_inv w cfg f0 F0 batchErrors st1 Hinv1).
Qed.

(** The chains of some windows settle, page by page, each page when it is
    the first of its chain. *)
Lemma settleEach_steps (f : Z -> bool) :
  (forall x y, windowIndex cfg x = windowIndex cfg y -> f x = f y) ->
  forall (A P R : list Z) (st : Session),
    inv st -> pending st = P ++ A ++ R ->
    (forall x, In x P -> f x = false) ->
    steps st
      (snd (forEach (fun q => settle w cfg q ;; ret tt) (filter f A) st)).
Proof.
  intro Hclass. induction A as [|a A IH]; intros P R st Hinv Hp HP.
  - apply StepsNone.
  - cbn [filter]. destruct (f a) eqn:Fa.
    + cbn [forEach]. rewrite !bind_run. cbn [ret snd].
      change (pending st = P ++ a :: A ++ R) in Hp.
      assert (HndP : NoDup (P ++ a :: A ++ R))
        by (rewrite <- Hp; apply (inv_NoDup w cfg f0 F0), Hinv).
      pose proof (NoDup_remove_2 _ _ _ HndP) as Ha.
      assert (Hhead : hd_error (chainOf cfg (windowIndex cfg a) (pending st))
                      = Some a).
      { rewrite Hp, chainOf_app, chainOf_cons.
        rewrite (chainOf_none cfg _ P); [reflexivity|].
        intros x Hx E. apply Hclass in E. rewrite (HP x Hx), Fa in E.
        discriminate E. }
      destruct (settle_full w cfg f0 F0 a st Hinv
                  (head_pending cfg _ a _ Hhead)) as [Hinv1 Hp1].
      rewrite Hp, setDelete_app, setDelete_head in Hp1.
      rewrite <- setDelete_app, setDelete_absent in Hp1 by exact Ha.
      eapply waveSteps_trans; [apply waveSteps_one, StepSettle, Hhead|].
      apply (IH P R _ Hinv1 Hp1 HP).
    + apply (IH (P ++ [a]) R st Hinv).
      * rewrite Hp, <- app_assoc. reflexivity.
      * intros x Hx. apply in_app_or in Hx.
        destruct Hx as [Hx|[<-|[]]]; [apply HP, Hx|exact Fa].
Qed.

Lemma awaitPage_steps (p : Z) (A R : list Z) (st : Session) :
  inv st -> pending st = A ++ p :: R ->
  steps st (snd (awaitPage w cfg p st)).
Proof.
  intros Hinv Hp.
  assert (HndP : NoDup (A ++ p :: R))
    by (rewrite <- Hp; apply (inv_NoDup w cfg f0 F0), Hinv).
  destruct (NoDup_middle A R p HndP) as (HpA & HpR & HndA).
  unfold awaitPage. rewrite !bind_run. cbn [gets fst snd].
  set (s := windowIndex cfg p).
  assert (Hchain : before p (chainOf cfg s (pending st)) = chainOf cfg s A).
  { rewrite Hp, chainOf_app. unfold chainOf at 2. cbn [filter]. fold s.
    rewrite Z.eqb_refl. apply before_prefix.
    intro Hin. apply chainOf_In in Hin. apply HpA, Hin. }
  rewrite Hchain.
  assert (Hi : incl (chainOf cfg s A) A)
    by (intros x Hx; apply chainOf_In in Hx; apply Hx).
  assert (Hn : NoDup (chainOf cfg s A)) by apply NoDup_filter, HndA.
  destruct (settleEach_inv w cfg f0 F0 (chainOf cfg s A) A (p :: R) st
              Hinv Hp Hi Hn) as (Hinv1 & _ & A' & Hp1 & Hi1 & Hout1).
  assert (Hsteps : steps st
            (snd (forEach (fun q => settle w cfg q ;; ret tt)
                          (chainOf cfg s A) st))).
  { apply (settleEach_steps (fun q => windowIndex cfg q =? s)) with
      (P := []) (R := p :: R); [|exact Hinv|exact Hp|intros x []].
    intros x y E. rewrite E. reflexivity. }
  set (st1 := snd (forEach _ (chainOf cfg s A) st)) in *.
  eapply waveSteps_trans; [exact Hsteps|].
  apply waveSteps_one, StepSettle. fold s.
  rewrite Hp1, chainOf_app. unfold s at 2. rewrite chainOf_cons.
  rewrite (chainOf_none cfg s A'); [reflexivity|].
  intros x Hx E. apply (Hout1 x Hx). apply chainOf_In. split; [|exact E].
  apply Hi1, Hx.
Qed.

Lemma races_steps (pages : list Z) :
  forall (A : list Z) (st : Session),
    inv st -> pending st = A ++ pages ->
    steps st (snd (mapM (raceBatchTimeout w cfg) pages st)).
Proof.
  induction pages as [|p pages IH]; intros A st Hinv Hp.
  - apply StepsNone.
  - cbn [mapM]. rewrite !bind_run. cbn [ret snd].
    destruct (race_inv w cfg f0 F0 p A pages st Hinv Hp)
      as (Hinv1 & _ & A' & Hp1).
    eapply waveSteps_trans; [|apply (IH A' _ Hinv1 Hp1)].
    unfold raceBatchTimeout. destruct (batchTimedOut w p).
    + apply StepsNone.
    + apply (awaitPage_steps p A pages st Hinv Hp).
Qed.

Lemma launch_steps (pages : list Z) :
  forall st : Session,
    inv st -> NoDup pages ->
    (forall p, In p pages -> ~ In p (sched st)) ->
    steps st (snd (forEach (processPage cfg) pages st)).
Proof.
  induction pages as [|p pages IH]; intros st Hinv Hnd Hfresh.
  - apply StepsNone.
  - cbn [forEach]. rewrite bind_run.
    assert (Hp : ~ In p (sched st)) by (apply Hfresh; left; reflexivity).
    destruct (processPage_full w cfg f0 F0 p st Hinv Hp) as [Hinv1 _].
    pose proof (processPage_sched cfg p st) as Hs1.
    inversion Hnd as [|x l Hpp Hnd']; subst.
    eapply waveSteps_trans; [apply waveSteps_one, StepSchedule, Hp|].
    apply (IH _ Hinv1 Hnd').
    intros q Hq. unfold sched. rewrite Hs1. intro Hin. apply in_app_or in Hin.
    destruct Hin as [Hin|[<-|[]]].
    + apply (Hfresh q); [right; exact Hq|exact Hin].
    + contradiction.
Qed.

Lemma runBatch_steps (pages : list Z) (st : Session) :
  inv st -> NoDup pages ->
  (forall p, In p pages -> ~ In p (sched st)) ->
  steps st (snd (runBatch w cfg pages st)).
Proof.
  intros Hinv Hnd Hfresh. unfold runBatch. rewrite bind_run.
  destruct (launch_inv w cfg f0 F0 pages st Hinv Hnd Hfresh)
    as (Hinv1 & Hp1 & _).
  eapply waveSteps_trans; [apply (launch_steps pages st Hinv Hnd Hfresh)|].
  apply (races_steps pages (pending st) _ Hinv1 Hp1).
Qed.

Lemma waveLoop_steps (actual : Z) :
  1 <= cfg.(maxWindows) ->
  forall (fuel : nat) (batchStart errorCount : Z) (st : Session),
    inv st ->
    (forall q, In q (sched st) -> q < batchStart) ->
    steps st (snd (waveLoop w cfg fuel actual batchStart errorCount st)).
Proof.
  intros Hmw. induction fuel as [|fuel IH];
    intros batchStart errorCount st Hinv Hold; [apply StepsNone|].
  destruct (Z.leb_spec batchStart actual) as [Hle|Hgt].
  - rewrite waveLoop_step by exact Hle.
    set (batchEnd := Z.min (batchStart + maxWindows cfg - 1) actual).
    assert (Hnd : NoDup (pageRange batchStart batchEnd))
      by apply pageRange_NoDup.
    assert (Hfresh : forall p, In p (pageRange batchStart batchEnd) ->
                               ~ In p (sched st)).
    { intros p Hp Hin. apply pageRange_In in Hp. apply Hold in Hin. lia. }
    destruct (runBatch_inv w cfg f0 F0 (pageRange batchStart batchEnd) st
                Hinv Hnd Hfresh) as [Hinv1 Hs1].
    pose proof (runBatch_steps (pageRange batchStart batchEnd) st
                  Hinv Hnd Hfresh) as Hsteps1.
    set (batch := runBatch w cfg (pageRange batchStart batchEnd) st) in *.
    assert (Hold1 : forall q, In q (sched (snd batch)) -> q < batchEnd + 1).
    { intros q Hq. unfold sched in Hq. rewrite Hs1 in Hq.
      apply in_app_or in Hq. destruct Hq as [Hq|Hq].
      - apply Hold in Hq. unfold batchEnd. lia.
      - apply pageRange_In in Hq. lia. }
    destruct (interWaveWait_inv w cfg f0 F0 (countRejected (fst batch))
                (snd batch) Hinv1) as [Hinv2 Hs2].
    eapply waveSteps_trans; [exact Hsteps1|].
    destruct (batchEnd + 1 <=? actual).
    + eapply waveSteps_trans; [apply waveSteps_one, StepWait|].
      apply IH; [exact Hinv2|]. unfold sched. rewrite Hs2. exact Hold1.
    + apply IH; [exact Hinv1|exact Hold1].
  - cbn [waveLoop]. destruct (Z.leb_spec batchStart actual); [lia|].
    apply StepsNone.
Qed.

Lemma awaitStragglers_steps (st : Session) :
  inv st -> steps st (snd (awaitStragglers w cfg st)).
Proof.
  intro Hinv. unfold awaitStragglers. rewrite bind_run. cbn [gets fst snd].
  pose proof (settleEach_steps (fun _ => true) ltac:(reflexivity)
                (pending st) [] [] st Hinv) as H.
  rewrite filter_all in H. apply H.
  - rewrite app_nil_r. reflexivity.
  - intros x [].
Qed.

End StepsOfTheWaves.

(** ** The books of the waves *)

Lemma setAdd_Z_NoDup (x : Z) (l : list Z) :
  NoDup l -> NoDup (setAdd Z.eqb x l).
Proof.
  intro H. unfold setAdd, setHas. destruct (existsb (Z.eqb x) l) eqn:E;
    [exact H|].
  apply NoDup_app; [exact H|repeat constructor; intros []|].
  intros y Hy [->|[]].
  assert (Hex : existsb (Z.eqb y) l = true)
    by (apply existsb_exists; exists y; split; [exact Hy|apply Z.eqb_refl]).
  congruence.
Qed.

Lemma setHas_Z_In (x : Z) (l : list Z) : setHas Z.eqb x l = true <-> In x l.
Proof.
  unfold setHas. rewrite existsb_exists. split.
  - intros (y & Hy & E). apply Z.eqb_eq in E. subst. exact Hy.
  - intro H. exists x. split; [exact H|apply Z.eqb_refl].
Qed.

Section BooksOfATask.
Variable w : World.
Variable cfg : Config.

Lemma attemptLoop_fetched (n : nat) (attempt page : Z) (st : Session) :
  fetched (snd (attemptLoop w cfg n attempt page st)) page =
    (fetched st page + attemptsMade w page n (fetched st page))%nat.
Proof.
  destruct (attemptLoop_trace w cfg n attempt page st) as (evs & T & _ & N).
  destruct (audit_attemptLoop w cfg n attempt page st) as (evs' & T' & N' & _).
  rewrite T in T'. apply app_inv_head in T'. subst evs'.
  specialize (N' page). lia.
Qed.

Lemma pagePromise_books (page : Z) (st : Session) :
  let content :=
    safeContent w page (Z.to_nat options.(maxRetries)) (st.(fetched) page) in
  let st' := snd (pagePromise w cfg page st) in
  processedPages st' =
    match truthy content with
    | Some _ => setAdd Z.eqb page (processedPages st)
    | None => processedPages st
    end /\
  completedCount st' =
    match truthy content with
    | Some _ => if setHas Z.eqb page (processedPages st)
                then completedCount st else completedCount st + 1
    | None => completedCount st
    end /\
  fetched st' page =
    (fetched st page
     + attemptsMade w page (Z.to_nat options.(maxRetries)) (fetched st page))%nat.
Proof.
  cbn zeta.
  unfold pagePromise, catchP, thenP, processPageFetch.
  rewrite !bind_run. cbn [ret fst snd].
  fold (afterCooldown cfg page st).
  set (st0 := afterCooldown cfg page st).
  assert (H0 : fetched st0 = fetched st) by reflexivity.
  assert (H1 : processedPages st0 = processedPages st) by reflexivity.
  assert (H2 : completedCount st0 = completedCount st) by reflexivity.
  rewrite scrapePageSafe_result, H0.
  destruct (scrapePageSafe_fetchOnly w cfg page st0)
    as (_ & _ & A3 & A4 & _ & _).
  pose proof (attemptLoop_fetched (Z.to_nat options.(maxRetries)) 1 page st0)
    as Hf.
  fold (scrapePageSafe w cfg page) in Hf. rewrite H0 in Hf.
  unfold processPageMerge. cbn [htmlContent].
  destruct (truthy _) as [html|].
  - unfold addHashes. run. rewrite A3, A4, H1, H2.
    unfold setAdd.
    destruct (setHas Z.eqb page (processedPages st)); cbn; auto.
  - unfold addFailed. run. rewrite A3, A4. auto.
Qed.

Lemma settle_books (q : Z) (st : Session) :
  processedPages (snd (settle w cfg q st))
    = processedPages (snd (pagePromise w cfg q st)) /\
  completedCount (snd (settle w cfg q st))
    = completedCount (snd (pagePromise w cfg q st)).
Proof.
  unfold settle. run. destruct (chainOf cfg (windowIndex cfg q) _); cbn; auto.
Qed.

Lemma processPage_books (p : Z) (st : Session) :
  processedPages (snd (processPage cfg p st)) = processedPages st /\
  completedCount (snd (processPage cfg p st)) = completedCount st.
Proof.
  unfold processPage. run.
  destruct (chainOf cfg (windowIndex cfg p) (pending st)); cbn; auto.
Qed.

End BooksOfATask.

Section BooksOfTheWaves.
Variable w : World.
Variable cfg : Config.
Variable f0 : Z -> nat.
Variable F0 : list Z.

Lemma settle_settled (q : Z) (st : Session) :
  fullInv w cfg f0 F0 st -> In q (pending st) ->
  forall x, settledPage (snd (settle w cfg q st)) x <->
            settledPage st x \/ x = q.
Proof.
  intros Hinv Hq x.
  destruct (settle_full w cfg f0 F0 q st Hinv Hq) as [_ Hp].
  pose proof (quiet_sched _ st (quiet_settle w cfg q)) as Hs.
  destruct Hinv as [_ (Hincl & _)].
  unfold settledPage. rewrite Hs, Hp, setDelete_In. split.
  - intros [H1 H2]. destruct (Z.eq_dec x q) as [->|Hne]; [auto|].
    left. split; [exact H1|]. intro H3. apply H2. auto.
  - intros [[H1 H2]| ->].
    + split; [exact H1|]. intros [H3 _]. contradiction.
    + split; [apply Hincl, Hq|]. intros [_ H3]. apply H3. reflexivity.
Qed.

Lemma processPage_settled (p : Z) (st : Session) :
  fullInv w cfg f0 F0 st -> ~ In p (scheduledPages (trace st)) ->
  forall x, settledPage (snd (processPage cfg p st)) x <-> settledPage st x.
Proof.
  intros Hinv Hfresh x.
  destruct (processPage_full w cfg f0 F0 p st Hinv Hfresh) as [_ Hp].
  pose proof (processPage_sched cfg p st) as Hs.
  destruct Hinv as [_ (Hincl & _)].
  unfold settledPage. rewrite Hs, Hp, !in_app_iff. cbn [In]. split.
  - intros [[H1|[<-|[]]] H2].
    + split; [exact H1|]. intro H3. apply H2. auto.
    + exfalso. apply H2. auto.
  - intros [H1 H2]. split; [auto|]. intros [H3|[<-|[]]]; contradiction.
Qed.

Lemma ledger_step (st st' : Session) :
  fullInv w cfg f0 F0 st -> ledger w f0 st -> waveStep w cfg st st' ->
  ledger w f0 st'.
Proof.
  intros Hinv (NF & NP & CC & PP & FF) Hstep.
  destruct Hstep as [p Hp|q Hq|batchErrors];
    [|apply (head_pending cfg) in Hq|].
  - destruct (processPage_same cfg p st) as (_ & Ef & Efe).
    destruct (processPage_books cfg p st) as (Ep & Ec).
    pose proof (processPage_settled p st Hinv Hp) as Hset.
    unfold ledger. rewrite Ef, Efe, Ep, Ec.
    split; [exact NF|]. split; [exact NP|]. split; [exact CC|]. split.
    + intro x. rewrite Hset. apply PP.
    + intros x Hx. apply FF, Hset, Hx.
  - destruct (settle_same w cfg q st) as (_ & Ef & Efe).
    destruct (settle_books w cfg q st) as (Ep & Ec).
    destruct (pagePromise_state w cfg q st) as (_ & Sf & _).
    destruct (pagePromise_books w cfg q st) as (Sp & Sc & Sfe).
    cbn zeta in Sf, Sp, Sc, Sfe.
    pose proof (settle_settled q st Hinv Hq) as Hset.
    destruct Hinv as [_ (_ & Hfetch & _)].
    assert (Hbase : fetched st q = f0 q) by (apply Hfetch; left; exact Hq).
    rewrite Hbase in Sf, Sp, Sc, Sfe. fold (waveContent w f0 q) in Sf, Sp, Sc.
    assert (Hnew : ~ In q (processedPages st)).
    { intro H. apply PP in H. destruct H as [[_ H] _]. contradiction. }
    assert (Hhas : setHas Z.eqb q (processedPages st) = false).
    { destruct (setHas Z.eqb q (processedPages st)) eqn:E; [|reflexivity].
      apply setHas_Z_In in E. contradiction. }
    unfold ledger. rewrite Ef, Efe, Ep, Ec, Sf, Sp, Sc.
    destruct (waveContent w f0 q) as [html|] eqn:Hc.
    + split; [exact NF|]. split; [apply setAdd_Z_NoDup, NP|].
      split; [|split].
      * unfold setAdd. rewrite Hhas, length_app. cbn [List.length]. lia.
      * intro x. rewrite setAdd_Z_In, Hset, PP. split.
        -- intros [->|[H1 H2]]; [|auto]. split; [auto|congruence].
        -- intros [[H1| ->] H2]; auto.
      * intros x Hx. apply Hset in Hx. destruct Hx as [Hx| ->].
        -- rewrite (pagePromise_fetched w cfg q x st); [apply FF, Hx|].
           intros ->. destruct Hx as [_ Hx]. contradiction.
        -- exact Sfe.
    + split; [apply setAdd_Z_NoDup, NF|]. split; [exact NP|].
      split; [exact CC|]. split.
      * intro x. rewrite Hset, PP. split.
        -- intros [H1 H2]; auto.
        -- intros [[H1| ->] H2]; [auto|congruence].
      * intros x Hx. apply Hset in Hx. destruct Hx as [Hx| ->].
        -- rewrite (pagePromise_fetched w cfg q x st); [apply FF, Hx|].
           intros ->. destruct Hx as [_ Hx]. contradiction.
        -- exact Sfe.
  - destruct (interWaveWait_run batchErrors st)
      as [(_ & Ef & Ep & Ec & _ & Efe & Epe) Ht].
    pose proof (quiet_sched _ st (quiet_interWaveWait batchErrors)) as Hs.
    unfold ledger, settledPage in *. rewrite Ef, Ep, Ec, Efe, Epe, Hs.
    auto.
Qed.

End BooksOfTheWaves.

Section BooksAtTheRetry.
Variable w : World.
Variable cfg : Config.
Hypothesis windows : 1 <= cfg.(maxWindows).

Let zero : Z -> nat := fun _ => O.

(** The state in which the retry pass begins, with its books. *)
Lemma waves_books :
  let st := atRetry w cfg in
  fullInv w cfg zero [] st /\ ledger w zero st /\
  pending st = [] /\
  scheduledPages (trace st) = pageRange 1 (actualTotalPages w cfg).
Proof.
  cbn zeta.
  destruct (waves_summary w cfg windows) as (_ & Hpend & _).
  destruct (runWaves_scheduled w cfg (newSession true) windows)
    as (errors & evs & _ & T & S).
  fold (atRetry w cfg) in T. cbn [trace newSession app] in T.
  assert (Hs : scheduledPages (trace (atRetry w cfg))
               = pageRange 1 (actualTotalPages w cfg)) by (rewrite T; exact S).
  revert Hpend Hs. unfold atRetry, runWaves. rewrite !bind_run.
  set (st0 := snd (setHashes [] (newSession true))).
  pose proof (newSession_inv w cfg true) as Hinv0. fold st0 in Hinv0.
  assert (Hled0 : ledger w zero st0).
  { unfold ledger, settledPage. cbn.
    repeat split; try constructor; try tauto. }
  destruct (waveLoop_scheduled w cfg (actualTotalPages w cfg) windows
              (enoughFuel w cfg) 1 0 st0) as (errs & evs1 & R & _ & _).
  { unfold enoughFuel. lia. }
  pose proof (waveLoop_steps w cfg zero [] (actualTotalPages w cfg) windows
                (enoughFuel w cfg) 1 0 st0 Hinv0 ltac:(intros q []))
    as Hsteps1.
  rewrite R. rewrite bind_run. cbn [ret snd].
  set (st1 := snd (waveLoop w cfg (enoughFuel w cfg) (actualTotalPages w cfg)
                            1 0 st0)) in *.
  destruct (waveSteps_keep w cfg zero [] (ledger w zero)
              (ledger_step w cfg zero []) st0 st1 Hsteps1 Hinv0 Hled0)
    as [Hinv1 Hled1].
  pose proof (awaitStragglers_steps w cfg zero [] st1 Hinv1) as Hsteps2.
  destruct (waveSteps_keep w cfg zero [] (ledger w zero)
              (ledger_step w cfg zero []) st1 _ Hsteps2 Hinv1 Hled1)
    as [Hinv2 Hled2].
  intros Hpend Hs. auto.
Qed.

Lemma waves_settled (p : Z) :
  settledPage (atRetry w cfg) p <-> 1 <= p <= actualTotalPages w cfg.
Proof.
  destruct waves_books as (_ & _ & Hp & Hs).
  unfold settledPage. rewrite Hs, Hp, pageRange_In. cbn [In]. tauto.
Qed.

Lemma waves_fetched (p : Z) :
  fetched (atRetry w cfg) p =
    if (1 <=? p) && (p <=? actualTotalPages w cfg)
    then attemptsMade w p (Z.to_nat options.(maxRetries)) O
    else O.
Proof.
  destruct waves_books as ([_ (_ & Hfetch & _)] & (_ & _ & _ & _ & FF) & _ & Hs).
  destruct (Z.leb_spec 1 p), (Z.leb_spec p (actualTotalPages w cfg));
    cbn [andb].
  - rewrite FF by (apply waves_settled; lia). reflexivity.
  - apply Hfetch. right. rewrite Hs, pageRange_In. lia.
  - apply Hfetch. right. rewrite Hs, pageRange_In. lia.
  - apply Hfetch. right. rewrite Hs, pageRange_In. lia.
Qed.

End BooksAtTheRetry.

(** ** The attempts of a page, one after the other *)

Lemma accepted_truthy (content : option jsstring) :
  accepted content = true -> truthy content = content.
Proof.
  unfold accepted, truthy. destruct content as [[|c t]|]; try discriminate.
  reflexivity.
Qed.

Lemma safeContent_truthy (w : World) (p : Z) (n base : nat) :
  truthy (safeContent w p n base) = safeContent w p n base.
Proof.
  revert base. induction n as [|n IH]; intro base; [reflexivity|].
  cbn [safeContent].
  destruct (accepted (classify (render w p base))) eqn:E; [|apply IH].
  apply accepted_truthy, E.
Qed.

Lemma safeContent_none_made (w : World) (p : Z) (n base : nat) :
  safeContent w p n base = None -> attemptsMade w p n base = n.
Proof.
  revert base. induction n as [|n IH]; intro base; [reflexivity|].
  cbn [safeContent attemptsMade].
  destruct (accepted (classify (render w p base))) eqn:E.
  - intro H. rewrite H in E. discriminate E.
  - intro H. f_equal. apply IH, H.
Qed.

Lemma safeContent_none_iff (w : World) (p : Z) (n base : nat) :
  safeContent w p n base = None <->
  forall k, (k < n)%nat ->
    accepted (classify (w.(render) p (base + k)%nat)) = false.
Proof.
  split; [|apply safeContent_none].
  revert base. induction n as [|n IH]; intros base H k Hk; [lia|].
  cbn [safeContent] in H.
  destruct (accepted (classify (render w p base))) eqn:E.
  - rewrite H in E. discriminate E.
  - destruct k as [|k]; [rewrite Nat.add_0_r; exact E|].
    rewrite Nat.add_succ_r. apply (IH (S base) H). lia.
Qed.

Lemma safeContent_split (w : World) (p : Z) (n m : nat) :
  forall base,
    safeContent w p (n + m) base =
      match safeContent w p n base with
      | Some html => Some html
      | None => safeContent w p m (base + n)
      end.
Proof.
  induction n as [|n IH]; intro base.
  - cbn. rewrite Nat.add_0_r. reflexivity.
  - cbn [Nat.add safeContent].
    destruct (accepted (classify (render w p base))) eqn:E.
    + destruct (classify (render w p base)); [reflexivity|discriminate E].
    + rewrite IH, Nat.add_succ_r. reflexivity.
Qed.

(** ** The state after the retry pass *)

Lemma filter_both {A : Type} (f g : A -> bool) (l : list A) :
  filter g (filter f l) = filter (fun x => f x && g x) l.
Proof.
  induction l as [|x l IH]; [reflexivity|]. cbn [filter].
  destruct (f x); cbn [filter andb]; [destruct (g x)|]; rewrite IH; reflexivity.
Qed.

Section RetryState.
Variable w : World.
Variable cfg : Config.

Lemma retryPage_state (q : Z) (st : Session) :
  let st' := snd (retryPage w cfg q st) in
  failedPages st' =
    (if recovered w st q then setDelete Z.eqb q (failedPages st)
     else failedPages st) /\
  allHashesSet st' =
    match retryContent w st q with
    | Some html => setAddAll str_eqb (parseHTMLForHashes html) (allHashesSet st)
    | None => allHashesSet st
    end /\
  processedPages st' = processedPages st /\
  completedCount st' = completedCount st /\
  pending st' = pending st /\
  forall p, p <> q -> fetched st' p = fetched st p.
Proof.
  cbn zeta. unfold recovered, retryContent, retryPage.
  destruct (scrapePageSafe_fetchOnly w cfg q st)
    as (A1 & A2 & A3 & A4 & A5 & A6).
  rewrite !bind_run. rewrite scrapePageSafe_result. cbn [htmlContent].
  destruct (truthy _) as [html|]; unfold addHashes; run;
    rewrite A1, A2, A3, A4, A5; auto 10.
Qed.

Lemma retryContent_same (st st' : Session) (p : Z) :
  fetched st' p = fetched st p -> retryContent w st' p = retryContent w st p.
Proof. unfold retryContent. intros ->. reflexivity. Qed.

Lemma recovered_same (st st' : Session) (p : Z) :
  fetched st' p = fetched st p -> recovered w st' p = recovered w st p.
Proof. unfold recovered. intro H. rewrite (retryContent_same _ _ _ H). reflexivity. Qed.

Lemma retryPages_state (l : list Z) :
  forall st, NoDup l ->
    let st' := snd (mapM (retryPage w cfg) l st) in
    failedPages st' =
      filter (fun p => negb (setHas Z.eqb p l && recovered w st p))
             (failedPages st) /\
    (forall h, In h (allHashesSet st') <->
       In h (allHashesSet st) \/
       exists p html, In p l /\ retryContent w st p = Some html /\
                      In h (parseHTMLForHashes html)) /\
    processedPages st' = processedPages st /\
    completedCount st' = completedCount st /\
    pending st' = pending st /\
    forall p, ~ In p l -> fetched st' p = fetched st p.
Proof.
  induction l as [|q l IH]; intros st Hnd; cbn zeta.
  - cbn [mapM ret snd setHas existsb andb negb].
    split; [symmetry; apply forallb_filter_id, forallb_forall; auto|].
    split; [|auto]. intro h. split; [auto|].
    intros [H|(p & html & [] & _)]. exact H.
  - inversion Hnd as [|x l' Hq Hnd']; subst.
    cbn [mapM]. rewrite !bind_run. cbn [ret snd].
    destruct (retryPage_state q st) as (F1 & H1 & P1 & C1 & Pe1 & Fe1).
    cbn zeta in F1, H1, P1, C1, Pe1, Fe1.
    set (st1 := snd (retryPage w cfg q st)) in *.
    destruct (IH st1 Hnd') as (F2 & H2 & P2 & C2 & Pe2 & Fe2).
    cbn zeta in F2, H2, P2, C2, Pe2, Fe2.
    assert (Hl : forall p, In p l -> fetched st1 p = fetched st p).
    { intros p Hp. apply Fe1. intros ->. contradiction. }
    split; [|split; [|split; [|split; [|split]]]]; try congruence.
    + rewrite F2.
      assert (E1 : failedPages st1 =
                   filter (fun p => negb ((p =? q) && recovered w st q))
                          (failedPages st)).
      { rewrite F1. destruct (recovered w st q).
        - unfold setDelete. apply filter_ext. intro p.
          rewrite andb_true_r, Z.eqb_sym. reflexivity.
        - symmetry. apply forallb_filter_id, forallb_forall.
          intros p _. rewrite andb_false_r. reflexivity. }
      rewrite E1, filter_both. apply filter_ext. intro p.
      unfold setHas. cbn [existsb]. fold (setHas Z.eqb p l).
      destruct (Z.eqb_spec p q) as [->|Hne]; cbn [andb orb negb].
      * assert (Hno : setHas Z.eqb q l = false).
        { destruct (setHas Z.eqb q l) eqn:E; [|reflexivity].
          apply setHas_Z_In in E. contradiction. }
        rewrite Hno. cbn [andb negb]. apply andb_true_r.
      * destruct (setHas Z.eqb p l) eqn:E; [|reflexivity].
        apply setHas_Z_In in E.
        rewrite (recovered_same st st1 p (Hl p E)). reflexivity.
    + intro h. rewrite H2, H1. split.
      * intros [H|(p & html & Hp & Hc & Hh)].
        -- destruct (retryContent w st q) as [html|] eqn:Hc.
           ++ apply setAddAll_str_In in H. destruct H as [H|H]; [|auto].
              right. exists q, html. cbn [In]. auto.
           ++ auto.
        -- right. exists p, html. rewrite <- (retryContent_same st st1 p (Hl p Hp)).
           cbn [In]. auto.
      * intros [H|(p & html & [<-|Hp] & Hc & Hh)].
        -- left. destruct (retryContent w st q); [|exact H].
           apply setAddAll_str_In. auto.
        -- left. rewrite Hc. apply setAddAll_str_In. auto.
        -- right. exists p, html.
           rewrite (retryContent_same st st1 p (Hl p Hp)). auto.
    + intros p Hp. rewrite Fe2 by (intro; apply Hp; right; assumption).
      apply Fe1. intros ->. apply Hp. left. reflexivity.
Qed.

Lemma launch_sameData (l : list Z) (st : Session) :
  sameData st
    (snd (forEach (fun page => log (TaskStart page (windowIndex cfg page)))
                  l st)).
Proof.
  revert st. induction l as [|q l IH]; intro st.
  - unfold sameData. cbn. auto 10.
  - cbn [forEach]. rewrite bind_run.
    destruct (IH (snd (log (TaskStart q (windowIndex cfg q)) st)))
      as (A1 & A2 & A3 & A4 & A5 & A6 & A7).
    unfold sameData. rewrite A1, A2, A3, A4, A5, A6, A7. cbn. auto 10.
Qed.

(** The retry pass takes out of [failedPages] the pages for which it gets
    content, merges the hashes of these contents, and touches neither the
    processed pages nor their count. *)
Lemma retryFailedPages_state (st : Session) :
  NoDup (failedPages st) ->
  let st' := snd (retryFailedPages w cfg st) in
  failedPages st' =
    filter (fun p => negb (recovered w st p)) (failedPages st) /\
  (forall h, In h (allHashesSet st') <->
     In h (allHashesSet st) \/
     exists p html, In p (failedPages st) /\ retryContent w st p = Some html /\
                    In h (parseHTMLForHashes html)) /\
  processedPages st' = processedPages st /\
  completedCount st' = completedCount st /\
  pending st' = pending st /\
  forall p, ~ In p (failedPages st) -> fetched st' p = fetched st p.
Proof.
  intro Hnd. cbn zeta. unfold retryFailedPages. rewrite !bind_run.
  cbn [gets fst snd].
  destruct (launch_sameData (failedPages st) st)
    as (A1 & A2 & A3 & A4 & A5 & A6 & A7).
  set (st0 := snd (forEach _ (failedPages st) st)) in *.
  destruct (retryPages_state (failedPages st) st0 Hnd)
    as (F & H & P & C & Pe & Fe).
  cbn zeta in F, H, P, C, Pe, Fe.
  assert (Hrc : forall p, retryContent w st0 p = retryContent w st p)
    by (intro p; apply retryContent_same; rewrite A6; reflexivity).
  assert (Hrec : forall p, recovered w st0 p = recovered w st p)
    by (intro p; apply recovered_same; rewrite A6; reflexivity).
  rewrite A1 in H. rewrite A2 in F. rewrite A3 in P. rewrite A4 in C.
  rewrite A7 in Pe. rewrite A6 in Fe.
  split; [|split; [|auto]].
  - rewrite F. apply filter_ext_in. intros p Hp. rewrite Hrec.
    apply setHas_Z_In in Hp. rewrite Hp. reflexivity.
  - intro h. rewrite H. split; intros [Hh|(p & html & Hp & Hc & Hh)]; auto;
      right; exists p, html; rewrite ?Hrc in *; auto.
Qed.

End RetryState.

Section RetryNavigations.
Variable w : World.
Variable cfg : Config.



End RetryNavigations.

(** ** The state in which a session ends *)

Section SessionEnd.
Variable w : World.
Variable cfg : Config.
Hypothesis windows : 1 <= cfg.(maxWindows).

Let zero : Z -> nat := fun _ => O.
Let retries : nat := Z.to_nat options.(maxRetries).

Lemma retry_of_nothing (st : Session) :
  failedPages st = [] -> snd (retryFailedPages w cfg st) = st.
Proof.
  intro H. unfold retryFailedPages. rewrite !bind_run. cbn [gets fst snd].
  rewrite H. reflexivity.
Qed.

Lemma session_end : atEnd w cfg = snd (retryFailedPages w cfg (atRetry w cfg)).
Proof.
  destruct (runWaves_scheduled w cfg (newSession true) windows)
    as (errors & evs & R & _ & _).
  unfold atEnd, scrappe, scrappeWith. rewrite bind_run, R.
  fold (atRetry w cfg). rewrite !bind_run. cbn [gets fst snd ret].
  destruct (failedPages (atRetry w cfg)) as [|p l] eqn:E.
  - cbn. symmetry. apply retry_of_nothing, E.
  - cbn [List.length]. unfold when.
    replace (autoRetryFailed options && (0 <? Z.of_nat (S (List.length l))))
      with true by (cbn [autoRetryFailed options andb]; symmetry;
                    apply Z.ltb_lt; lia).
    rewrite bind_run. reflexivity.
Qed.

Lemma waveContent_safe (p : Z) :
  waveContent w zero p = safeContent w p retries O.
Proof. unfold waveContent. apply safeContent_truthy. Qed.

Lemma failed_fetched (p : Z) :
  In p (failedPages (atRetry w cfg)) -> fetched (atRetry w cfg) p = retries.
Proof.
  intro H. destruct (waves_summary w cfg windows) as (_ & _ & Hfail & _).
  apply Hfail in H. destruct H as [Hr Hc].
  rewrite (waves_fetched w cfg windows).
  destruct (Z.leb_spec 1 p), (Z.leb_spec p (actualTotalPages w cfg)); try lia.
  cbn [andb]. apply safeContent_none_made.
  fold zero in Hc. rewrite waveContent_safe in Hc. exact Hc.
Qed.

Lemma failed_retryContent (p : Z) :
  In p (failedPages (atRetry w cfg)) ->
  retryContent w (atRetry w cfg) p = safeContent w p retries retries.
Proof.
  intro H. unfold retryContent. rewrite (failed_fetched p H).
  apply safeContent_truthy.
Qed.

End SessionEnd.

(** ** Worlds that render the same pages *)

Lemma safeContent_ext (w w' : World) (p : Z) (n : nat) :
  (forall k, w.(render) p k = w'.(render) p k) ->
  forall base, safeContent w p n base = safeContent w' p n base.
Proof.
  intro H. induction n as [|n IH]; intro base; [reflexivity|].
  cbn [safeContent]. rewrite H, IH. reflexivity.
Qed.

Lemma actualTotalPages_ext (w w' : World) (cfg : Config) :
  detection w = detection w' -> actualTotalPages w cfg = actualTotalPages w' cfg.
Proof.
  intro H. unfold actualTotalPages, detectTotalPages. rewrite H. reflexivity.
Qed.

(** ** The waits between the waves *)

Section WaitsOfTheWaves.
Variable w : World.
Variable cfg : Config.

Lemma fetchLevel_notWaveDelay (e : event) :
  fetchLevel e = true -> notWaveDelay e = true.
Proof. destruct e; cbn; congruence. Qed.

Lemma steady_settle (page : Z) : emits notWaveDelay (settle w cfg page).
Proof.
  pose proof (emits_weaken _ _ _ fetchLevel_notWaveDelay
                (emits_pagePromise w cfg page)).
  unfold settle. emits_step.
Qed.

Lemma steady_runBatch (pages : list Z) :
  emits notWaveDelay (runBatch w cfg pages).
Proof.
  pose proof steady_settle.
  assert (forall p, emits notWaveDelay (processPage cfg p))
    by (intro p; unfold processPage; emits_step).
  unfold runBatch, raceBatchTimeout, awaitPage. emits_step.
Qed.

Lemma steady_awaitStragglers : emits notWaveDelay (awaitStragglers w cfg).
Proof. pose proof steady_settle. unfold awaitStragglers. emits_step. Qed.

Lemma steady_retry : emits notWaveDelay (retryFailedPages w cfg).
Proof.
  pose proof (fun page =>
    emits_weaken _ _ _ fetchLevel_notWaveDelay
      (emits_attemptLoop w cfg (Z.to_nat options.(maxRetries)) 1 page)).
  unfold retryFailedPages, retryPage, scrapePageSafe, addHashes. emits_step.
Qed.

Variable ok : event -> bool.
Variable bound : Z.
Hypothesis windows : 1 <= cfg.(maxWindows).
Hypothesis ok_steady : forall e, notWaveDelay e = true -> ok e = true.
Hypothesis ok_tier : forall n, n <= bound -> forallb ok (tierWait n) = true.
Hypothesis few_errors :
  forall pages, Z.of_nat (List.length pages) <= cfg.(maxWindows) ->
    Z.of_nat (List.length (filter w.(batchTimedOut) pages)) <= bound.

Lemma waveLoop_waits (fuel : nat) :
  forall actual batchStart errorCount,
    emits ok (waveLoop w cfg fuel actual batchStart errorCount).
Proof.
  induction fuel as [|fuel IH]; intros actual batchStart errorCount st.
  - exists []. cbn. rewrite app_nil_r. auto.
  - destruct (Z.leb_spec batchStart actual) as [Hle|Hgt].
    + rewrite waveLoop_step by exact Hle.
      set (batchEnd := Z.min (batchStart + maxWindows cfg - 1) actual).
      destruct (emits_weaken _ _ _ ok_steady
                  (steady_runBatch (pageRange batchStart batchEnd)) st)
        as (evs1 & T1 & F1).
      pose proof (runBatch_errors w cfg (pageRange batchStart batchEnd) st)
        as He.
      set (batch := runBatch w cfg (pageRange batchStart batchEnd) st) in *.
      assert (Hb : countRejected (fst batch) <= bound).
      { rewrite He. apply few_errors.
        rewrite pageRange_length by (unfold batchEnd; lia).
        unfold batchEnd. lia. }
      set (st2 := if batchEnd + 1 <=? actual then _ else _).
      assert (H2 : exists evs2, trace st2 = trace (snd batch) ++ evs2 /\
                                forallb ok evs2 = true).
      { unfold st2. destruct (batchEnd + 1 <=? actual).
        - destruct (interWaveWait_run (countRejected (fst batch)) (snd batch))
            as [_ T2].
          exists (tierWait (countRejected (fst batch))).
          split; [exact T2|apply ok_tier, Hb].
        - exists []. rewrite app_nil_r. auto. }
      destruct H2 as (evs2 & T2 & F2).
      destruct (IH actual (batchEnd + 1)
                   (errorCount + countRejected (fst batch)) st2)
        as (evs3 & T3 & F3).
      exists (evs1 ++ evs2 ++ evs3). split.
      * rewrite T3, T2, T1, <- !app_assoc. reflexivity.
      * rewrite !forallb_app, F1, F2, F3. reflexivity.
    + cbn [waveLoop]. destruct (Z.leb_spec batchStart actual); [lia|].
      exists []. cbn. rewrite app_nil_r. auto.
Qed.

Lemma scrappe_waits (fuel : nat) : emits ok (scrappeWith w cfg fuel).
Proof.
  pose proof (waveLoop_waits fuel).
  pose proof (emits_weaken _ _ _ ok_steady steady_awaitStragglers).
  pose proof (emits_weaken _ _ _ ok_steady steady_retry).
  unfold scrappeWith, runWaves. emits_step.
Qed.

End WaitsOfTheWaves.

Lemma filter_length_le {A : Type} (f : A -> bool) (l : list A) :
  (List.length (filter f l) <= List.length l)%nat.
Proof.
  induction l as [|x l IH]; [reflexivity|]. cbn [filter].
  destruct (f x); cbn [List.length]; lia.
Qed.

Lemma filter_none {A : Type} (f : A -> bool) (l : list A) :
  forallb (fun x => negb (f x)) l = true -> filter f l = [].
Proof.
  induction l as [|x l IH]; [reflexivity|]. cbn [forallb filter].
  intro H. apply andb_true_iff in H. destruct H as [Hx Hl].
  apply negb_true_iff in Hx. rewrite Hx. apply IH, Hl.
Qed.

(** ** Tasks in flight during the retry pass *)

Lemma peak_bound (slot bound : Z) (evs seen : list event) :
  (forall n, inFlight slot (seen ++ firstn n evs) <= bound) ->
  peakInFlight slot seen evs <= bound.
Proof.
  revert seen. induction evs as [|e evs IH]; intros seen H; cbn [peakInFlight].
  - specialize (H O). cbn in H. rewrite app_nil_r in H. exact H.
  - apply Z.max_lub.
    + specialize (H O). cbn in H. rewrite app_nil_r in H. exact H.
    + apply IH. intro n. specialize (H (S n)). cbn [firstn] in H.
      rewrite <- app_assoc. exact H.
Qed.

Lemma peak_reached (slot : Z) (evs seen : list event) (n : nat) :
  inFlight slot (seen ++ firstn n evs) <= peakInFlight slot seen evs.
Proof.
  revert seen n. induction evs as [|e evs IH]; intros seen n;
    cbn [peakInFlight].
  - rewrite firstn_nil, app_nil_r. lia.
  - destruct n as [|n]; cbn [firstn].
    + rewrite app_nil_r. lia.
    + specialize (IH (seen ++ [e]) n). rewrite <- app_assoc in IH.
      cbn [app] in IH. lia.
Qed.

Lemma filter_firstn_le {A : Type} (f : A -> bool) (l : list A) (n : nat) :
  (List.length (filter f (firstn n l)) <= List.length (filter f l))%nat.
Proof.
  revert n. induction l as [|x l IH]; intro n.
  - rewrite firstn_nil. reflexivity.
  - destruct n as [|n]; cbn [firstn filter]; [cbn; lia|].
    specialize (IH n). destruct (f x); cbn [List.length]; lia.
Qed.

Section FlightOfTheRetry.
Variable w : World.
Variable cfg : Config.

Lemma fetchEvent_unmarked (q : Z) (evs : list event) :
  Forall (fetchEvent cfg q) evs -> forallb unmarked evs = true.
Proof.
  intro H. induction H as [|e evs He _ IH]; [reflexivity|].
  cbn [forallb]. rewrite IH, andb_true_r.
  destruct He as [->|[[ms ->]| ->]]; reflexivity.
Qed.

Lemma unmarked_quiet (slot : Z) (evs : list event) :
  forallb unmarked evs = true ->
  filter (startsOn slot) evs = [] /\ filter (endsOn slot) evs = [].
Proof.
  induction evs as [|e evs IH]; [auto|]. cbn [forallb]. intro H.
  apply andb_true_iff in H. destruct H as [He Hevs].
  destruct (IH Hevs) as [IH1 IH2].
  destruct e; try discriminate He; cbn [filter startsOn endsOn]; auto.
Qed.

Lemma retryPages_flight (slot : Z) (l : list Z) :
  forall st, exists evs,
    trace (snd (mapM (retryPage w cfg) l st)) = trace st ++ evs /\
    filter (startsOn slot) evs = [] /\
    List.length (filter (endsOn slot) evs) = List.length (chainOf cfg slot l).
Proof.
  induction l as [|q l IH]; intro st.
  - exists []. cbn. rewrite app_nil_r. auto.
  - cbn [mapM]. rewrite !bind_run. cbn [ret snd].
    destruct (retryPage_trace w cfg q st) as (evs1 & T1 & F1 & _).
    destruct (IH (snd (retryPage w cfg q st))) as (evs2 & T2 & S2 & E2).
    destruct (unmarked_quiet slot evs1 (fetchEvent_unmarked q evs1 F1))
      as [S1 E1].
    exists ((evs1 ++ [TaskEnd q (windowIndex cfg q)]) ++ evs2).
    split; [rewrite T2, T1, <- !app_assoc; reflexivity|].
    rewrite !filter_app, S1, S2, E1. cbn [filter startsOn endsOn app chainOf].
    split; [reflexivity|].
    destruct (windowIndex cfg q =? slot); cbn [app List.length];
      fold (chainOf cfg slot l); rewrite E2; reflexivity.
Qed.

Lemma starts_on (slot : Z) (l : list Z) :
  List.length
    (filter (startsOn slot)
            (map (fun q => TaskStart q (windowIndex cfg q)) l))
  = List.length (chainOf cfg slot l) /\
  filter (endsOn slot) (map (fun q => TaskStart q (windowIndex cfg q)) l) = [].
Proof.
  induction l as [|q l [IH1 IH2]]; [auto|].
  cbn [map filter startsOn endsOn chainOf]. fold (chainOf cfg slot l).
  split; [|exact IH2].
  destruct (windowIndex cfg q =? slot); cbn [List.length]; rewrite IH1;
    reflexivity.
Qed.

(** The events of the retry pass: the starts of all the failed pages,
    then events without a start, with one end for each of the pages. *)
Lemma retryFailedPages_flight (slot : Z) (st : Session) :
  exists evs,
    trace (snd (retryFailedPages w cfg st)) =
      trace st
      ++ map (fun q => TaskStart q (windowIndex cfg q)) (failedPages st)
      ++ evs /\
    filter (startsOn slot) evs = [] /\
    List.length (filter (endsOn slot) evs)
      = List.length (chainOf cfg slot (failedPages st)).
Proof.
  set (l := failedPages st).
  pose proof (launch_trace cfg l st) as HL. cbn zeta in HL.
  set (st0 := snd (forEach _ l st)) in HL.
  destruct HL as (T0 & _).
  destruct (retryPages_flight slot l st0) as (evs & T & S & E).
  exists evs. split; [|auto].
  unfold retryFailedPages. rewrite !bind_run. cbn [gets fst snd].
  fold l. fold st0. rewrite T, T0, <- app_assoc. reflexivity.
Qed.

End FlightOfTheRetry.

(** ** The number of identifiers of a page *)

Lemma setAddAll_length (xs l : list jsstring) :
  (List.length (setAddAll str_eqb xs l) <= List.length l + List.length xs)%nat.
Proof.
  unfold setAddAll. revert l. induction xs as [|x xs IH]; intro l.
  - cbn. lia.
  - cbn [fold_left List.length]. specialize (IH (setAdd str_eqb x l)).
    assert (List.length (setAdd str_eqb x l) <= S (List.length l))%nat.
    { unfold setAdd. destruct (setHas str_eqb x l); [lia|].
      rewrite length_app. cbn. lia. }
    lia.
Qed.

Lemma exec_hash_77 (s : jsstring) (m : rmatch) :
  exec hashRegex s = Some m ->
  (List.length (snd m) + 77 <= List.length s)%nat.
Proof.
  intro H. apply exec_sound in H. destruct H as (pre & l & E & L & _).
  apply lang_hashRegex in L. destruct L as (r & id & -> & _ & Hid & _).
  rewrite E, !length_app, (linkText_length r id Hid). lia.
Qed.

Lemma linkMatches_length (fuel : nat) :
  forall s, (77 * List.length (linkMatches fuel s) <= List.length s)%nat.
Proof.
  induction fuel as [|fuel IH]; intro s; cbn [linkMatches]; [cbn; lia|].
  destruct (exec hashRegex s) as [m|] eqn:E; [|cbn; lia].
  apply exec_hash_77 in E. specialize (IH (snd m)). cbn [List.length]. lia.
Qed.

(** ** Numbers written and read back *)






(** ** The patterns of the detection script at work *)












(** ** The lengths of the waits *)

Section RegularWaits.
Variable w : World.
Variable cfg : Config.

Lemma regular_scrapePage (page : Z) :
  emits (regular cfg) (scrapePage w cfg page).
Proof.
  intro st. rewrite scrapePage_run. cbn [snd trace]. eexists.
  split; [reflexivity|]. cbn [forallb regular]. rewrite Z.eqb_refl.
  destruct (cloudflarePassed st && challengeSeen _); reflexivity.
Qed.

Lemma regular_attemptLoop (page : Z) (n : nat) :
  forall attempt, 1 <= attempt ->
    emits (regular cfg) (attemptLoop w cfg n attempt page).
Proof.
  induction n as [|n IH]; intros attempt Ha; cbn [attemptLoop].
  - apply emits_ret.
  - apply emits_bind; [apply regular_scrapePage|]. intro result.
    destruct (validated result); [apply emits_ret|].
    apply emits_bind; [|intros _; apply IH; lia].
    cbn [maxRetries options]. destruct (Z.ltb_spec attempt 2).
    + replace attempt with 1 by lia. apply emits_log. reflexivity.
    + apply emits_ret.
Qed.

Lemma regular_settle (page : Z) : emits (regular cfg) (settle w cfg page).
Proof.
  pose proof (regular_attemptLoop page (Z.to_nat options.(maxRetries)) 1
                ltac:(lia)).
  unfold settle, pagePromise, catchP, thenP, processPageFetch,
    processPageMerge, processPageCatch, addHashes, addFailed, scrapePageSafe.
  emits_step.
Qed.

Lemma regular_runBatch (pages : list Z) :
  emits (regular cfg) (runBatch w cfg pages).
Proof.
  pose proof regular_settle.
  assert (forall p, emits (regular cfg) (processPage cfg p))
    by (intro p; unfold processPage; emits_step).
  unfold runBatch, raceBatchTimeout, awaitPage. emits_step.
Qed.

Lemma regular_interWaveWait (batchErrors : Z) :
  emits (regular cfg) (interWaveWait batchErrors).
Proof.
  intro st. destruct (interWaveWait_run batchErrors st) as [_ T].
  exists (tierWait batchErrors). split; [exact T|].
  unfold tierWait. destruct (5 <? _); [reflexivity|].
  destruct (2 <? _); reflexivity.
Qed.

Lemma regular_waveLoop (fuel : nat) :
  forall actual batchStart errorCount,
    emits (regular cfg) (waveLoop w cfg fuel actual batchStart errorCount).
Proof.
  induction fuel as [|fuel IH]; intros actual batchStart errorCount;
    cbn [waveLoop].
  - apply emits_ret.
  - pose proof regular_runBatch. pose proof regular_interWaveWait.
    emits_step.
Qed.

Lemma regular_retry : emits (regular cfg) (retryFailedPages w cfg).
Proof.
  pose proof (fun page =>
    regular_attemptLoop page (Z.to_nat options.(maxRetries)) 1 ltac:(lia)).
  unfold retryFailedPages, retryPage, scrapePageSafe, addHashes. emits_step.
Qed.

Lemma regular_scrappe (fuel : nat) :
  emits (regular cfg) (scrappeWith w cfg fuel).
Proof.
  pose proof (regular_waveLoop fuel). pose proof regular_settle.
  pose proof regular_retry.
  unfold scrappeWith, runWaves, awaitStragglers. emits_step.
Qed.

End RegularWaits.

(** ** The list that a session returns *)

Lemma unique_step (w : World) (cfg : Config) (st st' : Session) :
  NoDup (allHashesSet st) -> waveStep w cfg st st' ->
  NoDup (allHashesSet st').
Proof.
  intros H Hstep. destruct Hstep as [p Hp|q Hq|batchErrors].
  - destruct (processPage_same cfg p st) as (E & _). rewrite E. exact H.
  - destruct (settle_same w cfg q st) as (E & _).
    destruct (pagePromise_state w cfg q st) as (S & _). cbn zeta in S.
    rewrite E, S. destruct (truthy _); [|exact H].
    apply setAddAll_str_NoDup, H.
  - destruct (interWaveWait_run batchErrors st) as [(E & _) _].
    rewrite E. exact H.
Qed.

Section ListReturned.
Variable w : World.
Variable cfg : Config.
Hypothesis windows : 1 <= cfg.(maxWindows).

Lemma waves_steps :
  waveSteps w cfg (snd (setHashes [] (newSession true))) (atRetry w cfg).
Proof.
  unfold atRetry, runWaves. rewrite !bind_run.
  set (st0 := snd (setHashes [] (newSession true))).
  pose proof (newSession_inv w cfg true) as Hinv0. fold st0 in Hinv0.
  destruct (waveLoop_scheduled w cfg (actualTotalPages w cfg) windows
              (enoughFuel w cfg) 1 0 st0) as (errs & evs1 & R & _ & _).
  { unfold enoughFuel. lia. }
  pose proof (waveLoop_steps w cfg (fun _ => O) [] (actualTotalPages w cfg)
                windows (enoughFuel w cfg) 1 0 st0 Hinv0 ltac:(intros q []))
    as Hsteps1.
  pose proof (waveLoop_inv w cfg (fun _ => O) [] (actualTotalPages w cfg)
                windows (enoughFuel w cfg) 1 0 st0 Hinv0 ltac:(intros q []))
    as Hinv1.
  rewrite R. rewrite bind_run. cbn [ret snd].
  eapply waveSteps_trans; [exact Hsteps1|].
  apply (awaitStragglers_steps w cfg (fun _ => O) [] _ Hinv1).
Qed.

Lemma waves_unique : NoDup (allHashesSet (atRetry w cfg)).
Proof.
  pose proof waves_steps as H.
  assert (H0 : NoDup (allHashesSet (snd (setHashes [] (newSession true)))))
    by constructor.
  induction H as [|st1 st2 _ IH Hstep]; [exact H0|].
  eapply unique_step; eauto.
Qed.

End ListReturned.

(** ** One cooldown for every page *)

Lemma cooldowns_app (evs1 evs2 : list event) :
  cooldowns (evs1 ++ evs2) = (cooldowns evs1 + cooldowns evs2)%nat.
Proof. unfold cooldowns. rewrite filter_app, length_app. reflexivity. Qed.

Lemma setDelete_length (q : Z) (l : list Z) :
  NoDup l -> In q l ->
  S (List.length (setDelete Z.eqb q l)) = List.length l.
Proof.
  intros Hnd Hq. apply in_split in Hq. destruct Hq as (a & b & ->).
  apply NoDup_remove_2 in Hnd.
  rewrite setDelete_app. unfold setDelete at 2. cbn [filter].
  rewrite Z.eqb_refl. cbn [negb]. fold (setDelete Z.eqb q b).
  rewrite !setDelete_absent, !length_app; [cbn; lia| |];
    intro H; apply Hnd, in_or_app; auto.
Qed.

Section CooldownsOfTheWaves.
Variable w : World.
Variable cfg : Config.

Lemma fetchEvent_no_cooldown (q : Z) (evs : list event) :
  Forall (fetchEvent cfg q) evs -> cooldowns evs = O.
Proof.
  unfold cooldowns. intro H. induction H as [|e evs He _ IH]; [reflexivity|].
  cbn [filter]. destruct He as [->|[[ms ->]| ->]]; exact IH.
Qed.

(** A page task waits the cooldown of its window, once, and then fetches
    its page. *)
Lemma pagePromise_trace (q : Z) (st : Session) :
  exists evs,
    trace (snd (pagePromise w cfg q st)) =
      trace st
      ++ Cooldown (windowIndex cfg q) options.(windowCooldown) :: evs /\
    Forall (fetchEvent cfg q) evs.
Proof.
  unfold pagePromise, catchP, thenP, processPageFetch.
  rewrite !bind_run. cbn [ret fst snd].
  fold (afterCooldown cfg q st).
  destruct (attemptLoop_trace w cfg (Z.to_nat options.(maxRetries)) 1 q
              (afterCooldown cfg q st)) as (evs & T & F & _).
  fold (scrapePageSafe w cfg q) in T.
  exists evs. split; [|exact F].
  unfold processPageMerge.
  destruct (truthy _); unfold addHashes, addFailed; run;
    [destruct (negb _)|]; cbn [snd trace]; rewrite T; unfold afterCooldown;
    cbn [snd log modify trace]; rewrite <- app_assoc; reflexivity.
Qed.

Lemma cooldown_step (f0 : Z -> nat) (F0 : list Z) (st st' : Session) :
  fullInv w cfg f0 F0 st ->
  (cooldowns (trace st) + List.length (pending st)
   = List.length (scheduledPages (trace st)))%nat ->
  waveStep w cfg st st' ->
  (cooldowns (trace st') + List.length (pending st')
   = List.length (scheduledPages (trace st')))%nat.
Proof.
  intros Hinv H Hstep.
  destruct Hstep as [p Hp|q Hq|batchErrors];
    [|apply (head_pending cfg) in Hq|].
  - destruct (processPage_run cfg p st) as [Ep Et].
    rewrite (processPage_sched cfg p st), Ep, Et, cooldowns_app, !length_app.
    replace (cooldowns (Scheduled p (windowIndex cfg p) :: _)) with O
      by (destruct (chainOf cfg _ _); reflexivity).
    cbn [List.length]. lia.
  - destruct (settle_full w cfg f0 F0 q st Hinv Hq) as [_ Ep].
    destruct (settle_run w cfg q st) as [_ Et]. cbn zeta in Et.
    destruct (pagePromise_trace q st) as (evs & T & F).
    pose proof (quiet_sched _ st (quiet_settle w cfg q)) as Hs.
    pose proof (setDelete_length q (pending st)
                  (inv_NoDup w cfg f0 F0 st Hinv) Hq) as Hl.
    rewrite Hs, Ep, Et, T, !cooldowns_app.
    replace (cooldowns (TaskEnd q (windowIndex cfg q) :: _)) with O
      by (destruct (chainOf cfg _ _); reflexivity).
    change (cooldowns (Cooldown (windowIndex cfg q) (windowCooldown options)
                         :: evs))
      with (S (cooldowns evs)).
    rewrite (fetchEvent_no_cooldown q evs F). lia.
  - destruct (interWaveWait_run batchErrors st) as [(_ & _ & _ & _ & _ & _ & Ep) Et].
    pose proof (quiet_sched _ st (quiet_interWaveWait batchErrors)) as Hs.
    rewrite Hs, Ep, Et, cooldowns_app.
    replace (cooldowns (tierWait batchErrors)) with O; [lia|].
    unfold tierWait. destruct (5 <? _); [reflexivity|].
    destruct (2 <? _); reflexivity.
Qed.

Lemma starts_no_cooldown (l : list Z) :
  cooldowns (map (fun p => TaskStart p (windowIndex cfg p)) l) = O.
Proof. unfold cooldowns. induction l; cbn; auto. Qed.

Lemma retry_no_cooldown (st : Session) :
  cooldowns (trace (snd (retryFailedPages w cfg st))) = cooldowns (trace st).
Proof.
  set (l := failedPages st).
  pose proof (launch_trace cfg l st) as HL. cbn zeta in HL.
  set (st0 := snd (forEach _ l st)) in HL.
  destruct HL as (T0 & _).
  destruct (retryPages_trace w cfg l st0) as (evs & T & P & _).
  assert (E : trace (snd (retryFailedPages w cfg st)) =
              trace st ++ map (fun p => TaskStart p (windowIndex cfg p)) l
                       ++ evs).
  { unfold retryFailedPages. rewrite !bind_run. cbn [gets fst snd].
    fold l. fold st0. rewrite T, T0, <- app_assoc. reflexivity. }
  rewrite E, !cooldowns_app.
  pose proof (starts_no_cooldown l) as C1.
  assert (C2 : cooldowns evs = O).
  { unfold cooldowns. clear - P. induction evs as [|e evs IH]; [reflexivity|].
    cbn [filter] in *. destruct e; cbn in *; try discriminate P; auto. }
  lia.
Qed.

End CooldownsOfTheWaves.

(** ** The turns of the tasks of a window *)

Lemma marksOn_app (slot : Z) (a b : list event) :
  marksOn slot (a ++ b) = marksOn slot a ++ marksOn slot b.
Proof. apply filter_app. Qed.

Lemma served_app (slot : Z) (a b : list Z) :
  served slot (a ++ b) = served slot a ++ served slot b.
Proof. apply flat_map_app. Qed.

Section TurnsOfTheWindows.
Variable w : World.
Variable cfg : Config.

Lemma fetchEvent_no_mark (q slot : Z) (evs : list event) :
  Forall (fetchEvent cfg q) evs -> marksOn slot evs = [].
Proof.
  unfold marksOn. intro H. induction H as [|e evs He _ IH]; [reflexivity|].
  cbn [filter]. destruct He as [->|[[ms ->]| ->]]; exact IH.
Qed.

Lemma chainOf_setDelete_head (slot q : Z) (rest l : list Z) :
  NoDup l -> chainOf cfg slot l = q :: rest ->
  chainOf cfg slot (setDelete Z.eqb q l) = rest.
Proof.
  induction l as [|x l IH]; intros Hnd H; [discriminate H|].
  inversion Hnd as [|? ? Hx Hl]; subst.
  unfold chainOf in H. cbn [filter] in H.
  destruct (Z.eqb_spec (windowIndex cfg x) slot) as [E|Hne].
  - inversion H; subst. rewrite setDelete_head, setDelete_absent by exact Hx.
    reflexivity.
  - fold (chainOf cfg slot l) in H.
    assert (Hq : In q (chainOf cfg slot l)) by (rewrite H; left; reflexivity).
    apply chainOf_In in Hq. destruct Hq as [_ Hq].
    unfold setDelete. cbn [filter].
    destruct (Z.eqb_spec q x) as [->|_]; [contradiction|]. cbn [negb].
    unfold chainOf. cbn [filter].
    destruct (Z.eqb_spec (windowIndex cfg x) slot); [contradiction|].
    apply (IH Hl H).
Qed.

(** A step of the waves keeps the turns. *)
Lemma turn_step (f0 : Z -> nat) (F0 : list Z) (st st' : Session) :
  fullInv w cfg f0 F0 st -> inTurn cfg st -> waveStep w cfg st st' ->
  inTurn cfg st'.
Proof.
  intros Hinv H Hstep slot. destruct (H slot) as (done & Hc & Hm).
  destruct Hstep as [p Hp|q Hq|batchErrors].
  - destruct (processPage_run cfg p st) as [Ep Et].
    exists done.
    rewrite (processPage_sched cfg p st), Ep, Et, !chainOf_app, marksOn_app,
      Hc, Hm, <- !app_assoc.
    split; [reflexivity|]. f_equal.
    change (chainOf cfg slot [p])
      with (if windowIndex cfg p =? slot then [p] else []).
    change (marksOn slot (Scheduled p (windowIndex cfg p)
              :: match chainOf cfg (windowIndex cfg p) (pending st) with
                 | [] => [TaskStart p (windowIndex cfg p)]
                 | _ :: _ => []
                 end))
      with (marksOn slot
              match chainOf cfg (windowIndex cfg p) (pending st) with
              | [] => [TaskStart p (windowIndex cfg p)]
              | _ :: _ => []
              end).
    destruct (Z.eqb_spec (windowIndex cfg p) slot) as [E|Hne].
    + rewrite E.
      destruct (chainOf cfg slot (pending st)); cbn;
        rewrite ?Z.eqb_refl; reflexivity.
    + rewrite !app_nil_r.
      destruct (chainOf cfg (windowIndex cfg p) (pending st)); cbn;
        [destruct (Z.eqb_spec (windowIndex cfg p) slot); [contradiction|]|];
        cbn; rewrite app_nil_r; reflexivity.
  - pose proof (head_pending cfg _ q _ Hq) as Hin.
    destruct (settle_full w cfg f0 F0 q st Hinv Hin) as [_ Ep].
    destruct (settle_run w cfg q st) as [_ Et]. cbn zeta in Et.
    destruct (pagePromise_trace w cfg q st) as (evs & T & F).
    destruct (pagePromise_state w cfg q st) as (_ & _ & Ep1). cbn zeta in Ep1.
    pose proof (quiet_sched _ st (quiet_settle w cfg q)) as Hs.
    pose proof (inv_NoDup w cfg f0 F0 st Hinv) as Hnd.
    rewrite Hs, Ep, Et, Ep1, T, !marksOn_app, Hm.
    change (marksOn slot (Cooldown (windowIndex cfg q)
                            (windowCooldown options) :: evs))
      with (marksOn slot evs).
    rewrite (fetchEvent_no_mark q slot evs F), app_nil_r.
    destruct (chainOf cfg (windowIndex cfg q) (pending st))
      as [|q' rest] eqn:Eq; [discriminate Hq|].
    cbn [hd_error] in Hq. inversion Hq; subst q'.
    rewrite (chainOf_setDelete_head _ q rest _ Hnd Eq).
    destruct (Z.eqb_spec (windowIndex cfg q) slot) as [<-|Hne].
    + exists (done ++ [q]).
      rewrite (chainOf_setDelete_head _ q rest _ Hnd Eq), Hc, Eq,
        served_app, <- !app_assoc.
      split; [reflexivity|]. f_equal.
      unfold marksOn. cbn [served flat_map running app filter startsOn endsOn
                           orb].
      rewrite Z.eqb_refl. cbn [orb].
      destruct rest; cbn [filter startsOn endsOn orb];
        rewrite ?Z.eqb_refl; reflexivity.
    + exists done.
      rewrite (chainOf_setDelete_other cfg slot q _ Hne).
      split; [exact Hc|].
      rewrite <- app_nil_r. f_equal.
      unfold marksOn. cbn [filter startsOn endsOn orb].
      destruct (Z.eqb_spec (windowIndex cfg q) slot); [contradiction|].
      destruct rest; cbn [filter startsOn endsOn orb]; [reflexivity|].
      destruct (Z.eqb_spec (windowIndex cfg q) slot); [contradiction|].
      reflexivity.
  - destruct (interWaveWait_run batchErrors st)
      as [(_ & _ & _ & _ & _ & _ & Ep) Et].
    pose proof (quiet_sched _ st (quiet_interWaveWait batchErrors)) as Hs.
    exists done. rewrite Hs, Ep, Et, marksOn_app, Hm.
    split; [exact Hc|].
    replace (marksOn slot (tierWait batchErrors)) with (@nil event);
      [rewrite app_nil_r; reflexivity|].
    unfold tierWait. destruct (5 <? _); [reflexivity|].
    destruct (2 <? _); reflexivity.
Qed.

End TurnsOfTheWindows.

(** * The claims *)

(** C1 fails on the code.  In this session page 1 fails its two inline
    attempts, so that the waves end with page 1 in [failedPages] and an
    empty hash set; the retry pass gets the page, extracts the identifier
    [idA], merges it into the set and takes the page out of [failedPages];
    and [scrappe] returns the empty list it had copied from the set before
    the retry pass.  (In every session the list returned holds what the
    waves have extracted and nothing else: [scrappe_returns_waves].) *)
Theorem C1_retry_hashes_not_returned :
  failedPages (atRetry flakyWorld (oneWindow 1)) = [1] /\
  allHashesSet (atRetry flakyWorld (oneWindow 1)) = [] /\
  parseHTMLForHashes (goodPage idA) = [idA] /\
  allHashesSet (snd (scrappe flakyWorld (oneWindow 1) (newSession true)))
    = [idA] /\
  failedPages (snd (scrappe flakyWorld (oneWindow 1) (newSession true))) = [] /\
  fst (scrappe flakyWorld (oneWindow 1) (newSession true)) = Some [].
Proof. repeat split; vm_compute; reflexivity. Qed.

(** C2 (amended). The retry pass first starts a task for every page of
    [failedPages], in one go, and logs no further start and no pacing event
    (window cooldown, inter-wave wait) afterwards.  For each of these pages
    it calls [scrapePageSafe] once, which navigates once when that first
    navigation returns content the validation accepts, and twice
    ([maxRetries]) otherwise, whatever the number of navigations made for
    the page during the waves. *)
Theorem C2_retry_pass_attempts (w : World) (cfg : Config) (page : Z)
        (st : Session) :
  NoDup (failedPages st) ->
  In page (failedPages st) ->
  exists evs,
    emitted (retryFailedPages w cfg) st =
      map (fun p => TaskStart p (windowIndex cfg p)) (failedPages st) ++ evs /\
    filter isPacingOrStart evs = [] /\
    navigations page (emitted (retryFailedPages w cfg) st) =
      attemptsMade w page (Z.to_nat options.(maxRetries)) (st.(fetched) page) /\
    (1 <= navigations page (emitted (retryFailedPages w cfg) st) <= 2)%nat /\
    (navigations page (emitted (retryFailedPages w cfg) st) = 1%nat <->
     accepted (classify (w.(render) page (st.(fetched) page))) = true).
Proof.
  intros Hnd Hin.
  set (l := failedPages st).
  pose proof (launch_trace cfg l st) as HL. cbn zeta in HL.
  set (st0 := snd (forEach _ l st)) in HL.
  destruct HL as (T0 & F0 & Fa0 & _).
  destruct (retryPages_trace w cfg l st0) as (evs & T & P & _ & Hnav).
  assert (HT : trace (snd (retryFailedPages w cfg st)) =
               trace st ++ map (fun p => TaskStart p (windowIndex cfg p)) l ++ evs).
  { unfold retryFailedPages. rewrite !bind_run. cbn [gets fst snd].
    fold l. fold st0. rewrite T, T0, <- app_assoc. reflexivity. }
  rewrite (emitted_extends _ _ _ HT).
  assert (Hn : navigations page
                 (map (fun p => TaskStart p (windowIndex cfg p)) l ++ evs)
               = attemptsMade w page (Z.to_nat options.(maxRetries))
                              (st.(fetched) page)).
  { rewrite navigations_app, (Hnav page Hin Hnd), F0.
    unfold navigations. clear. induction l; cbn; auto. }
  exists evs. rewrite Hn.
  pose proof (attemptsMade_bounds w page (fetched st page)) as [B1 B2].
  auto.
Qed.

(** The witness of C2: the same session. *)
Lemma C2_witness :
  (1 <= navigations 1 (emitted (retryFailedPages shortWorld (oneWindow 1))
                               (atRetry shortWorld (oneWindow 1))) <= 2)%nat.
Proof.
  destruct (C2_retry_pass_attempts shortWorld (oneWindow 1) 1
              (atRetry shortWorld (oneWindow 1))) as (evs & _ & _ & _ & H & _).
  - vm_compute. repeat constructor. intros [].
  - vm_compute. left. reflexivity.
  - exact H.
Defined.

(** C2, as stated, fails: page 1 is in [failedPages] when the retry pass
    begins, and the retry pass navigates to it twice. *)
Lemma C2_counterexample :
  failedPages (atRetry shortWorld (oneWindow 1)) = [1] /\
  navigations 1 (emitted (retryFailedPages shortWorld (oneWindow 1))
                         (atRetry shortWorld (oneWindow 1))) = 2%nat.
Proof. split; vm_compute; reflexivity. Qed.

(** C3 fails on the code.  No page of this session of two pages and one
    window ever renders enough content: both pages are in [failedPages]
    when the retry pass begins, the retry pass starts both on window 0
    before either settles, and two page tasks are running on window 0 at
    that instant.  Up to the retry pass at most one was, as in the waves
    of every session ([waves_exclusive]). *)
Theorem C3_retry_pass_shares_window :
  failedPages (atRetry shortWorld (oneWindow 2)) = [1; 2] /\
  peakInFlight 0 [] (trace (atRetry shortWorld (oneWindow 2))) = 1 /\
  emitted (retryFailedPages shortWorld (oneWindow 2))
          (atRetry shortWorld (oneWindow 2)) =
    [TaskStart 1 0; TaskStart 2 0;
     Navigate 1 0; Backoff 1 500; Navigate 1 0; TaskEnd 1 0;
     Navigate 2 0; Backoff 2 500; Navigate 2 0; TaskEnd 2 0] /\
  peakInFlight 0 []
    (trace (snd (scrappe shortWorld (oneWindow 2) (newSession true)))) = 2.
Proof. repeat split; vm_compute; reflexivity. Qed.

(** C4 (amended). When a wave is followed by another wave, the loop goes on
    into the next wave from the state the wave left, after a wait that is a
    function of the number of rejected races of that wave alone: 2000 ms for
    6 errors or more, 800 ms for 3 to 5 errors, and no wait at all for 2
    errors or fewer.  For 2 errors or fewer the delay computed is the base
    delay of 100 ms, which the test [delay > batchDelay] then discards. *)
Theorem C4_inter_wave_wait (w : World) (cfg : Config) (fuel : nat)
        (actual batchStart errorCount : Z) (st : Session) :
  batchStart <= actual ->
  Z.min (batchStart + cfg.(maxWindows) - 1) actual + 1 <= actual ->
  let batchEnd := Z.min (batchStart + cfg.(maxWindows) - 1) actual in
  let batch := runBatch w cfg (pageRange batchStart batchEnd) st in
  let batchErrors := countRejected (fst batch) in
  exists st',
    waveLoop w cfg (S fuel) actual batchStart errorCount st =
      waveLoop w cfg fuel actual (batchEnd + 1) (errorCount + batchErrors) st' /\
    sameData (snd batch) st' /\
    trace st' = trace (snd batch) ++
      (if 6 <=? batchErrors then [WaveDelay 2000]
       else if 3 <=? batchErrors then [WaveDelay 800]
       else []) /\
    adaptiveDelay batchErrors =
      (if 6 <=? batchErrors then 2000
       else if 3 <=? batchErrors then 800
       else 100).
Proof.
  intros Hle Hnext. cbn zeta.
  set (batchEnd := Z.min (batchStart + maxWindows cfg - 1) actual) in *.
  set (batch := runBatch w cfg (pageRange batchStart batchEnd) st).
  set (batchErrors := countRejected (fst batch)).
  exists (snd (interWaveWait batchErrors (snd batch))).
  destruct (interWaveWait_run batchErrors (snd batch)) as [Hsame Htrace].
  split; [|split; [exact Hsame|split]].
  - rewrite waveLoop_step by exact Hle. fold batchEnd batch batchErrors.
    destruct (Z.leb_spec (batchEnd + 1) actual); [reflexivity|lia].
  - rewrite Htrace, tierWait_tiers. reflexivity.
  - unfold adaptiveDelay. cbn [batchDelay options].
    destruct (Z.gtb_spec batchErrors 5), (Z.leb_spec 6 batchErrors); try lia;
      try reflexivity.
    destruct (Z.gtb_spec batchErrors 2), (Z.leb_spec 3 batchErrors); try lia;
      reflexivity.
Qed.

(** The witness of C4: the first of two waves, without an error. *)
Lemma C4_witness :
  exists st',
    waveLoop twoWaveWorld (oneWindow 2) 3 2 1 0 (newSession true) =
      waveLoop twoWaveWorld (oneWindow 2) 2 2 2 0 st'.
Proof.
  destruct (C4_inter_wave_wait twoWaveWorld (oneWindow 2) 2 2 1 0
              (newSession true)) as (st' & H & _).
  - lia.
  - vm_compute. discriminate.
  - exists st'. exact H.
Defined.

(** C4, as stated, fails: a session of two waves without an error computes
    the base delay of 100 ms and waits for no delay at all between its
    waves. *)
Lemma C4_counterexample :
  filter isScheduled
    (trace (snd (scrappe twoWaveWorld (oneWindow 2) (newSession true))))
    = [Scheduled 1 0; Scheduled 2 0] /\
  adaptiveDelay 0 = 100 /\
  filter isWaveDelay
    (trace (snd (scrappe twoWaveWorld (oneWindow 2) (newSession true)))) = [].
Proof. repeat split; vm_compute; reflexivity. Qed.

(** C5. The promise of a page task is always fulfilled: with the number of
    hashes of the content [scrapePageSafe] returned, and with zero hashes
    when it returned none; a rejection inside the chain is turned by the
    final [catch] into a value with zero hashes.  So the error count of a
    wave, the number of rejected races, is the number of its pages whose
    task lost the race against the batch timeout, whatever the windows
    rendered. *)
Theorem C5_wave_errors_are_timeouts (w : World) (cfg : Config) :
  (forall page st,
     fst (pagePromise w cfg page st) =
       Fulfilled (taskValue page
          (fst (scrapePageSafe w cfg page (afterCooldown cfg page st))))) /\
  (forall page,
     taskValue page {| prPage := page; htmlContent := None |}
       = {| trPage := page; hashCount := 0 |}) /\
  (forall page reason st,
     fst (catchP (ret (Rejected reason)) (processPageCatch page) st)
       = Fulfilled {| trPage := page; hashCount := 0 |}) /\
  (forall page st,
     isRejected (fst (raceBatchTimeout w cfg page st)) = w.(batchTimedOut) page) /\
  (forall pages st,
     countRejected (fst (runBatch w cfg pages st)) =
       Z.of_nat (List.length (filter w.(batchTimedOut) pages))).
Proof.
  split; [|split; [|split; [|split]]].
  - apply pagePromise_run.
  - reflexivity.
  - intros. apply catch_rejected.
  - apply race_rejected.
  - apply runBatch_errors.
Qed.

(** C6 (amended). A fetch whose content contains one of the failure
    patterns, compared in lower case, returns no content, is not accepted by
    the validation of the retry loop and leaves the hash set as it is.  When
    the content is at least 500 characters long, contains [cloudflare] and
    none of the seven patterns listed before it, the status file is gone
    after the fetch. *)
Theorem C6_blocked_content_fails (w : World) (cfg : Config) (page : Z)
        (st : Session) (html : jsstring) :
  w.(render) page (st.(fetched) page) = Rendered (Some html) ->
  (exists pattern, In pattern failurePatterns /\
     includes (toLowerCase html) (toLowerCase pattern) = true) ->
  htmlContent (fst (scrapePage w cfg page st)) = None /\
  validated (fst (scrapePage w cfg page st)) = false /\
  allHashesSet (snd (scrapePage w cfg page st)) = allHashesSet st /\
  (500 <= strlen html ->
   existsb (fun pattern => includes (toLowerCase html) (toLowerCase pattern))
           (firstn 7 failurePatterns) = false ->
   includes (toLowerCase html) (js "cloudflare") = true ->
   cloudflarePassed (snd (scrapePage w cfg page st)) = false).
Proof.
  intros Hr Hpat. apply detectedFailure_some in Hpat.
  rewrite scrapePage_run. cbn [fst snd htmlContent allHashesSet cloudflarePassed].
  rewrite Hr.
  assert (Hc : classify (Rendered (Some html)) = None).
  { unfold classify. destruct (insufficient (Some html)); [reflexivity|].
    destruct (detectedFailure html); [reflexivity|contradiction]. }
  rewrite validated_accepted, Hc.
  repeat split; try reflexivity.
  intros Hlen Hfirst Hinc.
  unfold challengeSeen. rewrite (detectedFailure_challenge html Hfirst Hinc).
  assert (Hi : insufficient (Some html) = false).
  { unfold insufficient. destruct html as [|c t]; [cbn in Hlen; lia|].
    apply Z.ltb_ge. exact Hlen. }
  rewrite Hi. cbn. apply andb_false_r.
Qed.

(** The witness of C6: a long page whose only signature is the challenge
    signature. *)
Lemma C6_witness :
  cloudflarePassed
    (snd (scrapePage (constantWorld noMarker challengePage) (oneWindow 1)
                     1 (newSession true))) = false.
Proof.
  apply (C6_blocked_content_fails
           (constantWorld noMarker challengePage) (oneWindow 1) 1
           (newSession true) challengePage).
  - reflexivity.
  - exists (js "cloudflare"). split; [|reflexivity].
    cbn. tauto.
  - vm_compute. discriminate.
  - reflexivity.
  - reflexivity.
Defined.

(** C6, as stated, fails: a short page carries the challenge signature, and
    the status file is still there after the fetch. *)
Lemma C6_counterexample :
  includes (toLowerCase challengeStub) (js "cloudflare") = true /\
  htmlContent
    (fst (scrapePage (constantWorld noMarker challengeStub) (oneWindow 1)
                     1 (newSession true))) = None /\
  cloudflarePassed
    (snd (scrapePage (constantWorld noMarker challengeStub) (oneWindow 1)
                     1 (newSession true))) = true.
Proof. repeat split; vm_compute; reflexivity. Qed.

(** A long page with the challenge signature and the captcha signature:
    [find] reports the captcha pattern, which comes first in the list, and
    the status file stays. *)
Example challenge_masked_by_captcha :
  detectedFailure challengeWithCaptcha = Some (js "captcha") /\
  cloudflarePassed
    (snd (scrapePage (constantWorld noMarker challengeWithCaptcha)
                     (oneWindow 1) 1 (newSession true))) = true.
Proof. split; vm_compute; reflexivity. Qed.

(** C7. A fetch whose content is absent or shorter than 500 characters
    returns no content and leaves the hash set as it is; when every attempt
    of the inline budget ([maxRetries] of them) is of that kind, the page
    task settles with zero hashes, adds nothing to the hash set and puts the
    page into [failedPages].  In a new session with a window such a page,
    when it is one of the pages scheduled, is in [failedPages] at the end of
    the waves. *)
Theorem C7_insufficient_content_fails (w : World) (cfg : Config) (page : Z)
        (st : Session) :
  (forall k, (k < Z.to_nat options.(maxRetries))%nat ->
     exists h, w.(render) page (st.(fetched) page + k)%nat = Rendered h /\
               insufficient h = true) ->
  (forall k st', (k < Z.to_nat options.(maxRetries))%nat ->
     st'.(fetched) page = (st.(fetched) page + k)%nat ->
     htmlContent (fst (scrapePage w cfg page st')) = None /\
     allHashesSet (snd (scrapePage w cfg page st')) = allHashesSet st') /\
  fst (pagePromise w cfg page st)
    = Fulfilled {| trPage := page; hashCount := 0 |} /\
  allHashesSet (snd (pagePromise w cfg page st)) = allHashesSet st /\
  In page (failedPages (snd (pagePromise w cfg page st))) /\
  (st.(fetched) page = O -> 1 <= cfg.(maxWindows) ->
   1 <= page <= actualTotalPages w cfg ->
   In page (failedPages (atRetry w cfg))).
Proof.
  intro H. split; [|rewrite <- !and_assoc; split; [rewrite !and_assoc|]].
  - intros k st' Hk Hst'. destruct (H k Hk) as (h & Hr & Hi).
    rewrite scrapePage_run. cbn [fst snd htmlContent allHashesSet].
    rewrite Hst', Hr, (insufficient_classify h Hi). auto.
  - apply task_without_content. apply safeContent_none.
    intros k Hk. destruct (H k Hk) as (h & Hr & Hi).
    rewrite Hr, (insufficient_classify h Hi). reflexivity.
  - intros Hf0 Hmw Hpage.
    apply (insufficient_page_is_failed w cfg Hmw page Hpage).
    intros k Hk. destruct (H k Hk) as (h & Hr & Hi).
    rewrite Hf0 in Hr. exists h. auto.
Qed.

(** The witness of C7: a world of short pages. *)
Lemma C7_witness :
  In 1 (failedPages
          (snd (pagePromise (constantWorld noMarker (js "short")) (oneWindow 1)
                            1 (newSession true)))).
Proof.
  destruct (C7_insufficient_content_fails
              (constantWorld noMarker (js "short")) (oneWindow 1) 1
              (newSession true)) as (_ & _ & _ & H & _).
  - intros k Hk. exists (Some (js "short")). split; reflexivity.
  - exact H.
Defined.

(** C8. With at least one window and a budget of at least one page,
    [scrappe] returns a list (a budget above the detected count is no
    error), and the pages for which it called [processPage] are the pages
    from 1 to the smaller of the budget and the detected count, each once:
    their number is that minimum.  When the detection page shows no page
    marker and no last-page link that match, the script counts 1 page, and a
    detected count of 1 makes page 1 the only page scheduled. *)
Theorem C8_pages_scheduled (w : World) (cfg : Config) (st : Session) :
  1 <= cfg.(maxWindows) ->
  1 <= cfg.(totalPages) ->
  (exists hashes, fst (scrappe w cfg st) = Some hashes) /\
  scheduledPages (emitted (scrappe w cfg) st)
    = pageRange 1 (Z.min cfg.(totalPages) (detectTotalPages w)) /\
  Z.of_nat (List.length (scheduledPages (emitted (scrappe w cfg) st)))
    = Z.min cfg.(totalPages) (detectTotalPages w) /\
  ((forall text, w.(detection).(pageInfoText) = Some text ->
                 strMatch text pageOfRegex = None) ->
   (forall href, w.(detection).(lastButtonHref) = Some href ->
                 strMatch href pParamRegex = None) ->
   detectTotalPages w = 1) /\
  (detectTotalPages w = 1 ->
   scheduledPages (emitted (scrappe w cfg) st) = [1]).
Proof.
  intros Hmw Htp.
  destruct (scrappe_scheduled w cfg st Hmw) as [Hret Hsched].
  pose proof (detectTotalPages_positive w) as Hdet.
  unfold actualTotalPages in Hsched. rewrite Z.min_comm in Hsched.
  split; [exact Hret|]. split; [exact Hsched|]. split; [|split].
  - rewrite Hsched, pageRange_length; lia.
  - intros Hinfo Hlast. unfold detectTotalPages.
    rewrite (detection_without_marker _ Hinfo Hlast).
    destruct (navigationOk (detection w)); reflexivity.
  - intro H1. rewrite Hsched, H1. replace (Z.min (totalPages cfg) 1) with 1 by lia.
    reflexivity.
Qed.

(** The witness of C8: 37 pages detected, 10 requested, 10 scheduled. *)
Lemma C8_witness :
  detectTotalPages world37 = 37 /\
  scheduledPages (emitted (scrappe world37 tenPages) (newSession true))
    = pageRange 1 (Z.min 10 (detectTotalPages world37)).
Proof.
  split; [reflexivity|].
  apply (C8_pages_scheduled world37 tenPages (newSession true)).
  - cbn. lia.
  - cbn. lia.
Defined.

(** C9 (amended).  Extraction returns, without duplicates and in the order
    of first occurrence, the identifiers of the first 10001 matches of the
    link pattern; the matches are the transaction-link occurrences of the
    content, an occurrence being an [href] attribute in double quotes whose
    value ends in [/tx/] and [0x] with 64 hexadecimal digits.  So a returned
    identifier always occurs in a transaction link, and when the content has
    at most 10001 matches every identifier that occurs in a transaction
    link is returned. In scenario A, two links to one identifier and one
    link to a second one give the list of the two identifiers. *)
Theorem C9_extraction (content : jsstring) :
  parseHTMLForHashes content =
    setAddAll str_eqb (firstn matchCap (allLinkMatches content)) [] /\
  NoDup (parseHTMLForHashes content) /\
  (forall id, In id (parseHTMLForHashes content) <->
              In id (firstn matchCap (allLinkMatches content))) /\
  (forall id, In id (allLinkMatches content) <-> LinkOccurs id content) /\
  (forall id, In id (parseHTMLForHashes content) -> LinkOccurs id content) /\
  ((List.length (allLinkMatches content) <= matchCap)%nat ->
   forall id, LinkOccurs id content -> In id (parseHTMLForHashes content)) /\
  parseHTMLForHashes scenarioA = [idA; idB].
Proof.
  assert (Hin : forall id, In id (parseHTMLForHashes content) <->
                           In id (firstn matchCap (allLinkMatches content))).
  { intro id. rewrite parseHTMLForHashes_matches, setAddAll_str_In.
    cbn [In]. tauto. }
  split; [apply parseHTMLForHashes_matches|].
  split; [rewrite parseHTMLForHashes_matches; apply setAddAll_str_NoDup;
          constructor|].
  split; [exact Hin|].
  split; [intro id; apply allLinkMatches_occurs|].
  split; [|split].
  - intros id H. apply allLinkMatches_occurs.
    apply Hin in H. rewrite <- (firstn_skipn matchCap). apply in_or_app. auto.
  - intros Hcap id H. apply Hin. rewrite firstn_all2 by exact Hcap.
    apply allLinkMatches_occurs, H.
  - vm_compute. reflexivity.
Qed.

(** C9, as stated, fails: the identifier [idB] occurs in a transaction link
    of this content, after 10001 links to [idA], and extraction returns
    [idA] alone. *)
Lemma C9_counterexample :
  LinkOccurs idB crowdedPage /\
  parseHTMLForHashes crowdedPage = [idA] /\
  ~ In idB (parseHTMLForHashes crowdedPage).
Proof.
  assert (H : parseHTMLForHashes crowdedPage = [idA])
    by (vm_compute; reflexivity).
  split; [|split; [exact H|]].
  - exists (List.concat (repeat (txLink idA) matchCap) ++ js "<a "),
      [], (js ">tx</a>").
    split; [|split].
    + unfold crowdedPage, txLink, linkText. rewrite <- !app_assoc. reflexivity.
    + reflexivity.
    + exists (repeat "B"%char 64). repeat split.
  - rewrite H. intros [E|[]]. discriminate E.
Qed.

(** C10. Content of exactly 500 characters passes the length check of
    [scrapePage] (which rejects lengths below 500) and fails the validation
    of [scrapePageSafe] (which accepts lengths above 500); when every
    attempt of the inline budget gets such content, [scrapePageSafe] makes
    all its [maxRetries] attempts and returns no content, and the page task
    settles with zero hashes and puts the page into [failedPages].  In a new
    session with a window such a page, when it is one of the pages
    scheduled, is in [failedPages] at the end of the waves. *)
Theorem C10_exactly_500_fails (w : World) (cfg : Config) (page : Z)
        (st : Session) :
  (forall k, (k < Z.to_nat options.(maxRetries))%nat ->
     exists html,
       w.(render) page (st.(fetched) page + k)%nat = Rendered (Some html) /\
       strlen html = 500) ->
  (forall k, (k < Z.to_nat options.(maxRetries))%nat ->
     exists html,
       w.(render) page (st.(fetched) page + k)%nat = Rendered (Some html) /\
       insufficient (Some html) = false /\
       validated {| prPage := page; htmlContent := Some html |} = false) /\
  htmlContent (fst (scrapePageSafe w cfg page st)) = None /\
  navigations page (emitted (scrapePageSafe w cfg page) st)
    = Z.to_nat options.(maxRetries) /\
  fst (pagePromise w cfg page st)
    = Fulfilled {| trPage := page; hashCount := 0 |} /\
  allHashesSet (snd (pagePromise w cfg page st)) = allHashesSet st /\
  In page (failedPages (snd (pagePromise w cfg page st))) /\
  (st.(fetched) page = O -> 1 <= cfg.(maxWindows) ->
   1 <= page <= actualTotalPages w cfg ->
   In page (failedPages (atRetry w cfg))).
Proof.
  intro H.
  assert (Hacc : forall k, (k < Z.to_nat options.(maxRetries))%nat ->
            accepted (classify (w.(render) page (st.(fetched) page + k)%nat))
              = false).
  { intros k Hk. destruct (H k Hk) as (html & Hr & Hl). rewrite Hr.
    apply exactly500_checks, Hl. }
  destruct (safeContent_none w page _ _ Hacc) as [Hnone Hmade].
  split; [|split; [|split]].
  - intros k Hk. destruct (H k Hk) as (html & Hr & Hl). exists html.
    destruct (exactly500_checks html Hl) as (A & B & _).
    rewrite validated_accepted. auto.
  - rewrite scrapePageSafe_result. exact Hnone.
  - rewrite scrapePageSafe_navigations. exact Hmade.
  - rewrite <- !and_assoc. split; [rewrite !and_assoc|].
    + apply task_without_content, Hnone.
    + intros Hf0 Hmw Hpage.
      apply (exactly500_page_is_failed w cfg Hmw page Hpage).
      intros k Hk. destruct (H k Hk) as (html & Hr & Hl).
      rewrite Hf0 in Hr. exists html. auto.
Qed.

(** The witness of C10: a world of pages of 500 characters. *)
Lemma C10_witness :
  In 1 (failedPages
          (snd (pagePromise (constantWorld noMarker page500) (oneWindow 1)
                            1 (newSession true)))).
Proof.
  destruct (C10_exactly_500_fails
              (constantWorld noMarker page500) (oneWindow 1) 1
              (newSession true)) as (_ & _ & _ & _ & _ & H & _).
  - intros k Hk. exists page500. split; reflexivity.
  - exact H.
Defined.

(** * Further properties of the code *)

(** X1. [detectedFailure] reports the first pattern of the list that the
    content carries, letter case apart on both sides, and nothing when the
    content carries none.  The pattern [CAPTCHA] is never reported: in
    lower case it is the pattern [captcha], which comes before it.  The
    letter case of the content makes no difference. *)
Theorem X1_first_pattern_reported (html : jsstring) :
  (forall pattern,
     detectedFailure html = Some pattern <->
     exists earlier later,
       failurePatterns = earlier ++ pattern :: later /\
       carries html pattern /\
       forall q, In q earlier -> ~ carries html q) /\
  (detectedFailure html = None <->
   forall q, In q failurePatterns -> ~ carries html q) /\
  detectedFailure html <> Some (js "CAPTCHA") /\
  detectedFailure (toLowerCase html) = detectedFailure html.
Proof.
  split; [intro pattern; apply detectedFailure_first|].
  split; [apply detectedFailure_none|]. split.
  - unfold detectedFailure, failurePatterns. cbn [find].
    change (toLowerCase (js "CAPTCHA")) with (toLowerCase (js "captcha")).
    repeat match goal with
           | |- context [if ?b then _ else _] => destruct b
           end; discriminate.
  - unfold detectedFailure. rewrite toLowerCase_idempotent. reflexivity.
Qed.

(** X2. [scrapePageSafe] returns content exactly when one of its (at most
    [maxRetries]) attempts is accepted, and then the content of the first
    such attempt: what the window rendered on that navigation, longer than
    500 characters and free of every failure pattern. *)
Theorem X2_safe_content_is_clean (w : World) (cfg : Config) (page : Z)
        (st : Session) (html : jsstring) :
  htmlContent (fst (scrapePageSafe w cfg page st)) = Some html <->
  exists k, (k < Z.to_nat options.(maxRetries))%nat /\
    w.(render) page (st.(fetched) page + k)%nat = Rendered (Some html) /\
    500 < strlen html /\
    (forall pattern, In pattern failurePatterns -> ~ carries html pattern) /\
    forall j, (j < k)%nat ->
      accepted (classify (w.(render) page (st.(fetched) page + j)%nat))
        = false.
Proof.
  rewrite scrapePageSafe_result. cbn [htmlContent].
  rewrite safeContent_first. split.
  - intros (k & Hk & Hc & Ha & Hbefore). exists k.
    destruct (proj1 (accepted_classify _ html) (conj Hc Ha)) as (Hr & Hl & Hd).
    split; [exact Hk|]. split; [exact Hr|]. split; [exact Hl|].
    split; [apply detectedFailure_none, Hd|exact Hbefore].
  - intros (k & Hk & Hr & Hl & Hd & Hbefore). exists k.
    apply detectedFailure_none in Hd.
    destruct (proj2 (accepted_classify _ html) (conj Hr (conj Hl Hd)))
      as [Hc Ha].
    auto.
Qed.

(** X3. With at least one window, the window that [scrapePage] and
    [processPage] pick for a page from 1 on is one of the windows that the
    constructor created; the pages of one wave get windows that differ; and
    a page shares its window with the page [maxWindows] further on. *)
Theorem X3_pages_have_windows (cfg : Config) :
  1 <= cfg.(maxWindows) ->
  (forall page, 1 <= page ->
     0 <= windowIndex cfg page < Z.of_nat (List.length (createWindows cfg)) /\
     windowAt (createWindows cfg) (windowIndex cfg page)
       = Some (windowIndex cfg page) /\
     windowIndex cfg (page + cfg.(maxWindows)) = windowIndex cfg page) /\
  (forall batchStart actual p q,
     1 <= batchStart ->
     let batchEnd := Z.min (batchStart + cfg.(maxWindows) - 1) actual in
     In p (pageRange batchStart batchEnd) ->
     In q (pageRange batchStart batchEnd) ->
     windowIndex cfg p = windowIndex cfg q -> p = q).
Proof.
  intro Hmw. split.
  - intros page Hp. pose proof (windowIndex_range cfg page Hmw Hp) as Hr.
    split; [|split].
    + unfold createWindows. rewrite length_map, length_seq. lia.
    + apply createWindows_lookup, Hr.
    + rewrite !windowIndex_mod by lia.
      replace (page + maxWindows cfg - 1)
        with (page - 1 + 1 * maxWindows cfg) by lia.
      apply Z_mod_plus_full.
  - intros batchStart actual p q Hbs batchEnd Hp Hq E.
    apply pageRange_In in Hp. apply pageRange_In in Hq.
    rewrite !windowIndex_mod in E by lia.
    assert (p - 1 = q - 1); [|lia].
    apply (same_residue_close (maxWindows cfg)); [lia|exact E|].
    unfold batchEnd in *. lia.
Qed.

(** The witness of X3: page 7 of a session with two windows. *)
Lemma X3_witness :
  windowAt (createWindows tenPages) (windowIndex tenPages 7) = Some 0.
Proof.
  destruct (X3_pages_have_windows tenPages) as [H _].
  - cbn. lia.
  - destruct (H 7) as (_ & E & _); [lia|]. exact E.
Defined.

(** X4. Without a window ([maxWindows] of 0 or less) and with a budget of
    at least one page, the wave loop of [scrappe] never ends: every wave is
    empty and leaves [batchStart] where it was or before, so that the loop
    runs for as many rounds as it is given, schedules no page and returns
    nothing, whatever the detection counts. *)
Theorem X4_no_window_no_return (w : World) (cfg : Config) (fuel : nat)
        (st : Session) :
  cfg.(maxWindows) <= 0 ->
  1 <= cfg.(totalPages) ->
  createWindows cfg = [] /\
  fst (scrappeWith w cfg fuel st) = None /\
  emitted (scrappeWith w cfg fuel) st = [].
Proof.
  intros Hmw Htp. split.
  - unfold createWindows. replace (Z.to_nat (maxWindows cfg)) with O by lia.
    reflexivity.
  - pose proof (detectTotalPages_positive w) as Hdet.
    assert (E : scrappeWith w cfg fuel st = (None, snd (setHashes [] st))).
    { unfold scrappeWith, runWaves. rewrite !bind_run.
      rewrite (waveLoop_idle w cfg _ Hmw)
        by (unfold actualTotalPages; lia).
      reflexivity. }
    unfold emitted. rewrite E. cbn [fst snd setHashes modify trace].
    split; [reflexivity|]. apply skipn_all.
Qed.

(** The witness of X4: no window, ten pages, ten rounds. *)
Lemma X4_witness :
  fst (scrappeWith world37 {| maxWindows := 0; totalPages := 10 |} 10
                   (newSession true)) = None.
Proof.
  apply (X4_no_window_no_return world37
           {| maxWindows := 0; totalPages := 10 |} 10 (newSession true)).
  - cbn. lia.
  - cbn. lia.
Defined.



(** X6. When the clock has not gone back, the time that [runScraper]
    reports is within half a second of the time elapsed, and the minutes
    and seconds of its summary add up to it, with fewer than 60 seconds. *)
Theorem X6_elapsed_time (totalStartTime totalEndTime : Z) :
  totalStartTime <= totalEndTime ->
  let seconds := totalSeconds totalStartTime totalEndTime in
  0 <= seconds /\
  1000 * seconds - 500 <= totalEndTime - totalStartTime < 1000 * seconds + 500 /\
  seconds = 60 * totalMinutes seconds + remainingSeconds seconds /\
  0 <= remainingSeconds seconds < 60.
Proof.
  intro Hle. cbn zeta. unfold totalSeconds, totalMinutes, remainingSeconds.
  set (d := totalEndTime - totalStartTime).
  pose proof (Z.div_mod (d + 500) 1000 ltac:(lia)) as H1.
  pose proof (Z.mod_pos_bound (d + 500) 1000 ltac:(lia)) as H2.
  assert (Hs : 0 <= (d + 500) / 1000) by (apply Z.div_pos; lia).
  rewrite Z.rem_mod_nonneg by lia.
  pose proof (Z.div_mod ((d + 500) / 1000) 60 ltac:(lia)) as H3.
  pose proof (Z.mod_pos_bound ((d + 500) / 1000) 60 ltac:(lia)) as H4.
  lia.
Qed.

(** The witness of X6: 61.5 seconds are reported as 62, 1 minute and 2
    seconds. *)
Lemma X6_witness :
  totalSeconds 1000 62500 = 62 /\
  62 = 60 * totalMinutes 62 + remainingSeconds 62.
Proof.
  destruct (X6_elapsed_time 1000 62500) as (_ & _ & H & _); [lia|].
  split; [reflexivity|exact H].
Defined.

(** X7. Over a whole session, waves and retry pass, [scrappe] never creates
    the status file.  The file is there at the end exactly when it was
    there at the start and no navigation of the session rendered a
    challenge page (content of at least 500 characters whose first failure
    pattern is [cloudflare]); it is removed at most once, and the events of
    the session hold one navigation for every call of [scrapePage]. *)
Theorem X7_status_file (w : World) (cfg : Config) (st : Session) :
  let st' := snd (scrappe w cfg st) in
  let evs := emitted (scrappe w cfg) st in
  (cloudflarePassed st' = true <->
   cloudflarePassed st = true /\
   forall p k, (fetched st p <= k < fetched st' p)%nat ->
               challengeSeen (w.(render) p k) = false) /\
  (cloudflarePassed st = false /\ cloudflarePassed st' = false
                               /\ clearings evs = O \/
   cloudflarePassed st = true /\
   clearings evs = if cloudflarePassed st' then O else 1%nat) /\
  (forall p, (navigations p evs + fetched st p = fetched st' p)%nat).
Proof.
  cbn zeta. destruct (audit_scrappeWith w cfg (enoughFuel w cfg) st)
    as (evs & T & N & P & C).
  fold (scrappe w cfg) in *. rewrite (emitted_extends _ _ _ T).
  split; [exact P|]. split; [|exact N].
  unfold fileCount in C.
  destruct (cloudflarePassed st), (cloudflarePassed (snd (scrappe w cfg st)));
    [right|right|exfalso|left]; repeat split; lia.
Qed.

(** X8. When the retry pass begins, every page from 1 to
    [actualTotalPages] has settled and is either a processed page (its
    [scrapePageSafe] returned content) or a failed page (it returned none),
    never both, whatever the windows render and whichever tasks lose the
    race against the batch timeout; no other page is in either set;
    [completedCount] is the number of processed pages, and together with
    the number of failed pages it makes up the number of pages. *)
Theorem X8_page_accounting (w : World) (cfg : Config) :
  1 <= cfg.(maxWindows) ->
  let st := atRetry w cfg in
  let total := actualTotalPages w cfg in
  pending st = [] /\
  (forall p, In p (processedPages st) <->
             1 <= p <= total /\ waveContent w (fun _ => O) p <> None) /\
  (forall p, In p (failedPages st) <->
             1 <= p <= total /\ waveContent w (fun _ => O) p = None) /\
  (forall p, 1 <= p <= total ->
             (In p (processedPages st) /\ ~ In p (failedPages st)) \/
             (In p (failedPages st) /\ ~ In p (processedPages st))) /\
  NoDup (processedPages st) /\ NoDup (failedPages st) /\
  completedCount st = Z.of_nat (List.length (processedPages st)) /\
  completedCount st + Z.of_nat (List.length (failedPages st)) = Z.max 0 total.
Proof.
  intro Hmw. cbn zeta.
  destruct (waves_books w cfg Hmw) as (_ & (NF & NP & CC & PP & _) & Hp & Hs).
  destruct (waves_summary w cfg Hmw) as (_ & _ & Hfail & _).
  assert (Hproc : forall p, In p (processedPages (atRetry w cfg)) <->
            1 <= p <= actualTotalPages w cfg /\
            waveContent w (fun _ => O) p <> None).
  { intro p. rewrite PP, (waves_settled w cfg Hmw). tauto. }
  assert (Hpart : forall p, 1 <= p <= actualTotalPages w cfg ->
            (In p (processedPages (atRetry w cfg)) /\
             ~ In p (failedPages (atRetry w cfg))) \/
            (In p (failedPages (atRetry w cfg)) /\
             ~ In p (processedPages (atRetry w cfg)))).
  { intros p Hr. rewrite Hproc, Hfail.
    destruct (waveContent w (fun _ => O) p).
    - left. split; [split; [exact Hr|discriminate]|].
      intros [_ H]. discriminate H.
    - right. split; [split; [exact Hr|reflexivity]|].
      intros [_ H]. apply H. reflexivity. }
  split; [exact Hp|]. split; [exact Hproc|]. split; [exact Hfail|].
  split; [exact Hpart|]. split; [exact NP|]. split; [exact NF|].
  split; [exact CC|].
  rewrite CC, <- Nat2Z.inj_add, <- length_app.
  replace (Z.max 0 (actualTotalPages w cfg))
    with (Z.of_nat (List.length (pageRange 1 (actualTotalPages w cfg))))
    by (unfold pageRange; rewrite length_map, length_seq; lia).
  f_equal. apply Nat.le_antisymm.
  - apply NoDup_incl_length.
    + apply NoDup_app; [exact NP|exact NF|].
      intros p H1 H2. apply Hproc in H1. apply Hfail in H2.
      destruct H1 as [_ H1]. destruct H2 as [_ H2]. contradiction.
    + intros p Hin. apply pageRange_In. apply in_app_or in Hin.
      destruct Hin as [Hin|Hin]; [apply Hproc in Hin|apply Hfail in Hin];
        tauto.
  - apply NoDup_incl_length; [apply pageRange_NoDup|].
    intros p Hin. apply pageRange_In in Hin. apply in_or_app.
    destruct (Hpart p Hin) as [[H _]|[H _]]; auto.
Qed.

(** The witness of X8: of the two pages of a session whose pages are all
    too short, none is processed and both have failed. *)
Lemma X8_witness :
  completedCount (atRetry shortWorld (oneWindow 2))
  + Z.of_nat (List.length (failedPages (atRetry shortWorld (oneWindow 2))))
  = Z.max 0 (actualTotalPages shortWorld (oneWindow 2)).
Proof.
  destruct (X8_page_accounting shortWorld (oneWindow 2))
    as (_ & _ & _ & _ & _ & _ & _ & H).
  - cbn. lia.
  - exact H.
Defined.

(** X9. The retry pass never adds a page to [failedPages]: it takes out
    the pages for which its [scrapePageSafe] returns content and keeps the
    others, in their order.  The hash set grows by the identifiers of the
    contents returned and loses none.  The pass touches neither the
    processed pages nor [completedCount]: a page that it recovers is not
    counted as processed. *)
Theorem X9_retry_pass_outcome (w : World) (cfg : Config) (st : Session) :
  NoDup (failedPages st) ->
  let st' := snd (retryFailedPages w cfg st) in
  failedPages st' =
    filter (fun p => negb (recovered w st p)) (failedPages st) /\
  (forall p, In p (failedPages st') <->
             In p (failedPages st) /\ retryContent w st p = None) /\
  (forall h, In h (allHashesSet st') <->
     In h (allHashesSet st) \/
     exists p html, In p (failedPages st) /\ retryContent w st p = Some html /\
                    In h (parseHTMLForHashes html)) /\
  processedPages st' = processedPages st /\
  completedCount st' = completedCount st.
Proof.
  intro Hnd. cbn zeta.
  destruct (retryFailedPages_state w cfg st Hnd) as (F & H & P & C & _).
  cbn zeta in F, H, P, C.
  split; [exact F|]. split; [|auto].
  intro p. rewrite F, filter_In. unfold recovered.
  destruct (retryContent w st p); cbn [negb]; split; intros [H1 H2];
    split; auto; discriminate.
Qed.

(** The witness of X9: the retry pass recovers the only page of the
    session, whose inline attempts had failed. *)
Lemma X9_witness :
  failedPages (snd (retryFailedPages flakyWorld (oneWindow 1)
                                     (atRetry flakyWorld (oneWindow 1))))
  = filter (fun p => negb (recovered flakyWorld
                             (atRetry flakyWorld (oneWindow 1)) p))
           (failedPages (atRetry flakyWorld (oneWindow 1))).
Proof.
  destruct (X9_retry_pass_outcome flakyWorld (oneWindow 1)
              (atRetry flakyWorld (oneWindow 1))) as (H & _).
  - vm_compute. repeat constructor. intros [].
  - exact H.
Defined.

(** X10. The state in which a new session with a window ends.  A page is
    left in [failedPages] exactly when it is one of the pages from 1 to
    [actualTotalPages] and none of the attempts of the session for it, the
    inline attempts of its task and those of the retry pass, was accepted.
    The hash set holds exactly the identifiers of the content of the first
    accepted attempt of each page, those that the retry pass extracted
    included; the list that [scrappe] returns is part of it.  The
    processed pages and their count are those of the waves. *)
Theorem X10_session_outcome (w : World) (cfg : Config) :
  1 <= cfg.(maxWindows) ->
  let total := actualTotalPages w cfg in
  (forall p, In p (failedPages (atEnd w cfg)) <->
     1 <= p <= total /\
     forall k, (k < sessionAttempts)%nat ->
               accepted (classify (w.(render) p k)) = false) /\
  (forall h, In h (allHashesSet (atEnd w cfg)) <->
     exists p html,
       1 <= p <= total /\
       safeContent w p sessionAttempts O = Some html /\
       In h (parseHTMLForHashes html)) /\
  (forall hashes, fst (scrappe w cfg (newSession true)) = Some hashes ->
                  incl hashes (allHashesSet (atEnd w cfg))) /\
  processedPages (atEnd w cfg) = processedPages (atRetry w cfg) /\
  completedCount (atEnd w cfg) = completedCount (atRetry w cfg).
Proof.
  intro Hmw. cbn zeta.
  destruct (waves_books w cfg Hmw) as (_ & (NF & _) & _).
  destruct (waves_summary w cfg Hmw) as (_ & _ & Hfail & Hhash).
  destruct (retryFailedPages_state w cfg (atRetry w cfg) NF)
    as (F & H & P & C & _).
  cbn zeta in F, H, P, C. rewrite <- (session_end w cfg Hmw) in F, H, P, C.
  assert (Hsplit : forall p,
            safeContent w p sessionAttempts O =
              match safeContent w p (Z.to_nat options.(maxRetries)) O with
              | Some html => Some html
              | None => safeContent w p (Z.to_nat options.(maxRetries))
                                    (Z.to_nat options.(maxRetries))
              end) by (intro p; apply safeContent_split).
  split; [|split; [|split; [|auto]]].
  - intro p. rewrite <- (safeContent_none_iff w p sessionAttempts O).
    rewrite F, filter_In, Hsplit. unfold recovered. split.
    + intros [Hin Hrec]. rewrite (failed_retryContent w cfg Hmw p Hin) in Hrec.
      apply Hfail in Hin. destruct Hin as [Hr Hc].
      rewrite (waveContent_safe w) in Hc. rewrite Hc. split; [exact Hr|].
      destruct (safeContent w p _ (Z.to_nat (maxRetries options)));
        [discriminate Hrec|reflexivity].
    + intros [Hr Hnone].
      destruct (safeContent w p (Z.to_nat (maxRetries options)) O) eqn:Hc;
        [discriminate Hnone|].
      assert (Hin : In p (failedPages (atRetry w cfg))).
      { apply Hfail. split; [exact Hr|]. rewrite (waveContent_safe w).
        exact Hc. }
      split; [exact Hin|]. rewrite (failed_retryContent w cfg Hmw p Hin), Hnone.
      reflexivity.
  - intro h. rewrite H, Hhash. split.
    + intros [(p & html & Hr & Hc & Hh)|(p & html & Hin & Hc & Hh)].
      * exists p, html. rewrite (waveContent_safe w) in Hc.
        rewrite Hsplit, Hc. auto.
      * rewrite (failed_retryContent w cfg Hmw p Hin) in Hc.
        apply Hfail in Hin. destruct Hin as [Hr Hn].
        rewrite (waveContent_safe w) in Hn.
        exists p, html. rewrite Hsplit, Hn. auto.
    + intros (p & html & Hr & Hc & Hh). rewrite Hsplit in Hc.
      destruct (safeContent w p (Z.to_nat (maxRetries options)) O) eqn:Hw.
      * left. exists p, html. rewrite (waveContent_safe w), Hw. auto.
      * right. exists p, html.
        assert (Hin : In p (failedPages (atRetry w cfg))).
        { apply Hfail. split; [exact Hr|]. rewrite (waveContent_safe w).
          exact Hw. }
        rewrite (failed_retryContent w cfg Hmw p Hin). auto.
  - intros hashes Hret h Hh. apply scrappe_returns_snapshot in Hret.
    fold (atRetry w cfg) in Hret. subst hashes. apply H. left. exact Hh.
Qed.

(** The witness of X10: the retry pass recovers the only page of the
    session; the hash set ends with the identifier of its content, and no
    page is left in [failedPages]. *)
Lemma X10_witness :
  (In idA (allHashesSet (atEnd flakyWorld (oneWindow 1))) <->
   exists p html,
     1 <= p <= actualTotalPages flakyWorld (oneWindow 1) /\
     safeContent flakyWorld p sessionAttempts O = Some html /\
     In idA (parseHTMLForHashes html)) /\
  failedPages (atEnd flakyWorld (oneWindow 1)) = [].
Proof.
  destruct (X10_session_outcome flakyWorld (oneWindow 1)) as (_ & H & _).
  - cbn. lia.
  - split; [apply H|]. vm_compute. reflexivity.
Defined.



(** X12. The batch timeout changes the pace of a session and not its
    outcome: two sessions whose detection pages and whose windows show the
    same, and which differ only in the tasks that lose the race against the
    45 s timer, begin their retry pass with the same failed pages, the same
    processed pages and the same identifiers, and return lists with the
    same identifiers.  A task that loses the race is not cancelled and its
    page is not marked as failed. *)
Theorem X12_timeouts_keep_outcome (w w' : World) (cfg : Config) :
  1 <= cfg.(maxWindows) ->
  detection w = detection w' ->
  (forall p k, w.(render) p k = w'.(render) p k) ->
  (forall p, In p (failedPages (atRetry w cfg)) <->
             In p (failedPages (atRetry w' cfg))) /\
  (forall p, In p (processedPages (atRetry w cfg)) <->
             In p (processedPages (atRetry w' cfg))) /\
  completedCount (atRetry w cfg) = completedCount (atRetry w' cfg) /\
  (forall h, In h (allHashesSet (atRetry w cfg)) <->
             In h (allHashesSet (atRetry w' cfg))) /\
  (forall hashes hashes',
     fst (scrappe w cfg (newSession true)) = Some hashes ->
     fst (scrappe w' cfg (newSession true)) = Some hashes' ->
     forall h, In h hashes <-> In h hashes').
Proof.
  intros Hmw Hdet Hren.
  assert (Hc : forall p, waveContent w (fun _ => O) p
                         = waveContent w' (fun _ => O) p).
  { intro p. unfold waveContent. f_equal. apply safeContent_ext, Hren. }
  pose proof (actualTotalPages_ext w w' cfg Hdet) as Ha.
  destruct (waves_summary w cfg Hmw) as (_ & _ & Hfail & Hhash).
  destruct (waves_summary w' cfg Hmw) as (_ & _ & Hfail' & Hhash').
  destruct (waves_books w cfg Hmw) as (_ & (_ & NP & CC & PP & _) & _).
  destruct (waves_books w' cfg Hmw) as (_ & (_ & NP' & CC' & PP' & _) & _).
  assert (Hproc : forall p, In p (processedPages (atRetry w cfg)) <->
                            In p (processedPages (atRetry w' cfg))).
  { intro p. rewrite PP, PP', !waves_settled, Ha, Hc by exact Hmw. tauto. }
  assert (Hset : forall h, In h (allHashesSet (atRetry w cfg)) <->
                           In h (allHashesSet (atRetry w' cfg))).
  { intro h. rewrite Hhash, Hhash'. rewrite Ha.
    split; intros (p & html & H1 & H2 & H3); exists p, html;
      rewrite ?Hc in *; auto. }
  split; [|split; [exact Hproc|split; [|split; [exact Hset|]]]].
  - intro p. rewrite Hfail, Hfail', Ha, Hc. tauto.
  - rewrite CC, CC'. f_equal. apply Nat.le_antisymm;
      (apply NoDup_incl_length; [assumption|]); intros p Hp; apply Hproc, Hp.
  - intros hashes hashes' R R' h.
    apply scrappe_returns_snapshot in R, R'. subst. apply Hset.
Qed.

(** The witness of X12: the session of two good pages, and the same
    session with the task of page 1 losing the race. *)
Lemma X12_witness :
  completedCount (atRetry twoWaveWorld (oneWindow 2))
  = completedCount
      (atRetry {| detection := detection twoWaveWorld;
                  render := render twoWaveWorld;
                  batchTimedOut := fun p => p =? 1 |} (oneWindow 2)).
Proof.
  destruct (X12_timeouts_keep_outcome twoWaveWorld
              {| detection := detection twoWaveWorld;
                 render := render twoWaveWorld;
                 batchTimedOut := fun p => p =? 1 |} (oneWindow 2))
    as (_ & _ & H & _).
  - cbn. lia.
  - reflexivity.
  - reflexivity.
  - exact H.
Defined.

(** X13. The adaptive wait between two waves needs timeouts, and
    timeouts need windows.  A session none of whose tasks loses the race
    against the batch timeout never waits between two waves; nor does any
    session with one or two windows, since a wave has no more errors than
    pages and no more pages than windows.  With five windows or fewer the
    wait of 2000 ms never occurs: every wait between two waves is the one
    of 800 ms. *)
Theorem X13_waits_need_timeouts (w : World) (cfg : Config) :
  1 <= cfg.(maxWindows) ->
  ((forall p, w.(batchTimedOut) p = false) ->
   filter isWaveDelay (trace (atEnd w cfg)) = []) /\
  (cfg.(maxWindows) <= 2 ->
   filter isWaveDelay (trace (atEnd w cfg)) = []) /\
  (cfg.(maxWindows) <= 5 ->
   forall ms, In (WaveDelay ms) (trace (atEnd w cfg)) -> ms = 800).
Proof.
  intro Hmw.
  assert (Hrun : forall ok bound,
            (forall e, notWaveDelay e = true -> ok e = true) ->
            (forall n, n <= bound -> forallb ok (tierWait n) = true) ->
            (forall pages, Z.of_nat (List.length pages) <= cfg.(maxWindows) ->
               Z.of_nat (List.length (filter w.(batchTimedOut) pages))
               <= bound) ->
            forallb ok (trace (atEnd w cfg)) = true).
  { intros ok bound H1 H2 H3.
    destruct (scrappe_waits w cfg ok bound Hmw H1 H2 H3 (enoughFuel w cfg)
                (newSession true)) as (evs & T & F).
    unfold atEnd, scrappe. rewrite T. exact F. }
  assert (Hsize : forall pages : list Z,
            Z.of_nat (List.length (filter w.(batchTimedOut) pages))
            <= Z.of_nat (List.length pages)).
  { intro pages. apply Nat2Z.inj_le, filter_length_le. }
  assert (Hnone : forall n, n <= 2 ->
            forallb notWaveDelay (tierWait n) = true).
  { intros n Hn. unfold tierWait.
    destruct (Z.ltb_spec 5 n); [lia|]. destruct (Z.ltb_spec 2 n); [lia|].
    reflexivity. }
  split; [|split].
  - intro Hquiet. apply filter_none.
    apply (Hrun notWaveDelay 0); [auto| |].
    + intros n Hn. apply Hnone. lia.
    + intros pages _.
      replace (filter w.(batchTimedOut) pages) with (@nil Z); [cbn; lia|].
      symmetry. apply filter_none, forallb_forall. intros p _.
      rewrite Hquiet. reflexivity.
  - intro Hfew. apply filter_none.
    apply (Hrun notWaveDelay 2); [auto|exact Hnone|].
    intros pages Hp. specialize (Hsize pages). lia.
  - intros Hfew ms Hin.
    assert (F : forallb moderateWait (trace (atEnd w cfg)) = true).
    { apply (Hrun moderateWait 5).
      - intros [] H; try reflexivity. discriminate H.
      - intros n Hn. unfold tierWait.
        destruct (Z.ltb_spec 5 n); [lia|]. destruct (2 <? n); reflexivity.
      - intros pages Hp. specialize (Hsize pages). lia. }
    rewrite forallb_forall in F. specialize (F _ Hin). cbn in F.
    apply Z.eqb_eq, F.
Qed.

(** The witness of X13: the session of two good pages on one window. *)
Lemma X13_witness :
  filter isWaveDelay (trace (atEnd twoWaveWorld (oneWindow 2))) = [].
Proof.
  destruct (X13_waits_need_timeouts twoWaveWorld (oneWindow 2)) as (_ & H & _).
  - cbn. lia.
  - apply H. cbn. lia.
Defined.

(** X14. The page tasks running on a window over a whole session.  When
    no page of the window has failed in the waves, no more than one task
    runs on it at any instant of the session.  When pages of the window
    have failed, the retry pass starts them all at once: the largest
    number of tasks that run on the window at one instant is the number of
    its failed pages.  When [scrappe] returns, no task is running. *)
Theorem X14_tasks_on_a_window (w : World) (cfg : Config) (slot : Z) :
  1 <= cfg.(maxWindows) ->
  let failedOn :=
    Z.of_nat (List.length (chainOf cfg slot (failedPages (atRetry w cfg)))) in
  (failedOn = 0 -> peakInFlight slot [] (trace (atEnd w cfg)) <= 1) /\
  (1 <= failedOn -> peakInFlight slot [] (trace (atEnd w cfg)) = failedOn) /\
  inFlight slot (trace (atEnd w cfg)) = 0.
Proof.
  intro Hmw. cbn zeta.
  destruct (waves_summary w cfg Hmw) as ((_ & Hex & Hfl) & Hpend & _).
  assert (H0 : inFlight slot (trace (atRetry w cfg)) = 0).
  { rewrite Hfl, Hpend. reflexivity. }
  destruct (retryFailedPages_flight w cfg slot (atRetry w cfg))
    as (evs & T & S & E).
  rewrite <- (session_end w cfg Hmw) in T.
  destruct (starts_on cfg slot (failedPages (atRetry w cfg))) as [S1 E1].
  set (starts := map (fun q => TaskStart q (windowIndex cfg q))
                     (failedPages (atRetry w cfg))) in *.
  set (failedOn := List.length (chainOf cfg slot (failedPages (atRetry w cfg))))
    in *.
  assert (Hstarts : inFlight slot starts = Z.of_nat failedOn).
  { unfold inFlight. rewrite S1, E1. cbn. lia. }
  assert (Hend : inFlight slot (trace (atEnd w cfg)) = 0).
  { rewrite T, !inFlight_app, H0, Hstarts. unfold inFlight at 1.
    rewrite S, E. cbn [List.length]. lia. }
  assert (Hup : forall n,
            inFlight slot (firstn n (trace (atEnd w cfg)))
            <= Z.max 1 (Z.of_nat failedOn)).
  { intro n. rewrite T.
    destruct (Nat.le_gt_cases n (List.length (trace (atRetry w cfg))))
      as [Hn|Hn].
    - rewrite firstn_app. replace (n - _)%nat with O by lia.
      cbn [firstn]. rewrite app_nil_r. specialize (Hex slot n). lia.
    - rewrite firstn_app, firstn_all2 by lia. rewrite inFlight_app, H0.
      set (k := (n - List.length (trace (atRetry w cfg)))%nat).
      unfold inFlight.
      pose proof (filter_firstn_le (startsOn slot) (starts ++ evs) k) as Hle.
      rewrite (filter_app _ starts evs), S, app_nil_r, S1 in Hle. lia. }
  split; [|split; [|exact Hend]].
  - intro Hz. apply peak_bound. intro n. cbn [app].
    specialize (Hup n). lia.
  - intro Hpos. apply Z.le_antisymm.
    + apply peak_bound. intro n. cbn [app]. specialize (Hup n). lia.
    + pose proof (peak_reached slot (trace (atEnd w cfg)) []
                    (List.length (trace (atRetry w cfg) ++ starts))) as Hr.
      cbn [app] in Hr. rewrite T in Hr at 1.
      rewrite app_assoc, firstn_app, firstn_all, Nat.sub_diag in Hr.
      cbn [firstn] in Hr. rewrite app_nil_r, inFlight_app, H0, Hstarts in Hr.
      lia.
Qed.

(** The witness of X14: of the two pages of a session with one window,
    both fail in the waves, and the retry pass runs both at once. *)
Lemma X14_witness :
  peakInFlight 0 [] (trace (atEnd shortWorld (oneWindow 2))) = 2.
Proof.
  destruct (X14_tasks_on_a_window shortWorld (oneWindow 2) 0) as (_ & H & _).
  - cbn. lia.
  - apply H. vm_compute. discriminate.
Defined.

(** X15. [parseHTMLForHashes] returns at most 10001 identifiers, and no
    more than one for every 77 characters of the content: a link to a
    transaction takes that many characters at least. *)
Theorem X15_identifier_count (content : jsstring) :
  (List.length (parseHTMLForHashes content) <= matchCap)%nat /\
  77 * Z.of_nat (List.length (parseHTMLForHashes content)) <= strlen content.
Proof.
  rewrite parseHTMLForHashes_matches.
  pose proof (setAddAll_length (firstn matchCap (allLinkMatches content)) [])
    as H.
  cbn [List.length Nat.add] in H.
  pose proof (length_firstn matchCap (allLinkMatches content)) as H1.
  pose proof (linkMatches_length (S (List.length content)) content) as H3.
  fold (allLinkMatches content) in H3. unfold strlen. lia.
Qed.





(** X18. The waits of a session have fixed lengths, whatever the windows
    render: the cooldown of a window is of 300 ms, the wait between two
    attempts is of 500 ms (no attempt follows the second one, so that the
    longer waits of the retry loop are never taken), and a wait between two
    waves is of 800 ms or of 2000 ms, never the base delay of 100 ms.
    Every navigation goes to the window of its page. *)
Theorem X18_lengths_of_the_waits (w : World) (cfg : Config) (st : Session) :
  let evs := emitted (scrappe w cfg) st in
  forallb (regular cfg) evs = true /\
  (forall slot ms, In (Cooldown slot ms) evs -> ms = 300) /\
  (forall page ms, In (Backoff page ms) evs -> ms = 500) /\
  (forall ms, In (WaveDelay ms) evs -> ms = 800 \/ ms = 2000) /\
  (forall page slot, In (Navigate page slot) evs ->
                     slot = windowIndex cfg page).
Proof.
  cbn zeta.
  destruct (regular_scrappe w cfg (enoughFuel w cfg) st) as (evs & T & F).
  fold (scrappe w cfg) in T. rewrite (emitted_extends _ _ _ T).
  split; [exact F|]. rewrite forallb_forall in F.
  split; [|split; [|split]].
  - intros slot ms H. apply F in H. apply Z.eqb_eq, H.
  - intros page ms H. apply F in H. apply Z.eqb_eq, H.
  - intros ms H. apply F in H. cbn in H. apply orb_true_iff in H.
    destruct H as [H|H]; apply Z.eqb_eq in H; auto.
  - intros page slot H. apply F in H. apply Z.eqb_eq, H.
Qed.

(** X19. The list that a new session with a window returns has no
    duplicates, and each of its elements is a transaction identifier, [0x]
    and 64 hexadecimal digits, that occurs in a transaction link of the
    content that the task of one of the pages from 1 to [actualTotalPages]
    got during the waves: content of more than 500 characters that carries
    no failure pattern. *)
Theorem X19_list_returned (w : World) (cfg : Config)
        (hashes : list jsstring) :
  1 <= cfg.(maxWindows) ->
  fst (scrappe w cfg (newSession true)) = Some hashes ->
  NoDup hashes /\
  forall h, In h hashes ->
    isIdentifier h /\
    exists p html,
      1 <= p <= actualTotalPages w cfg /\
      htmlContent (fst (scrapePageSafe w cfg p (newSession true)))
        = Some html /\
      500 < strlen html /\
      (forall pattern, In pattern failurePatterns -> ~ carries html pattern) /\
      LinkOccurs h html.
Proof.
  intros Hmw Hret. pose proof Hret as Hsnap.
  apply scrappe_returns_snapshot in Hsnap. fold (atRetry w cfg) in Hsnap.
  split; [rewrite Hsnap; apply (waves_unique w cfg Hmw)|].
  intros h Hh.
  apply (scrappe_returns_waves w cfg Hmw hashes Hret) in Hh.
  destruct Hh as (p & html & Hr & Hc & Hin).
  assert (Hocc : LinkOccurs h html).
  { apply allLinkMatches_occurs.
    rewrite parseHTMLForHashes_matches, setAddAll_str_In in Hin.
    destruct Hin as [Hin|[]].
    rewrite <- (firstn_skipn matchCap). apply in_or_app. auto. }
  split; [destruct Hocc as (_ & _ & _ & _ & _ & Hid); exact Hid|].
  exists p, html. rewrite (waveContent_safe w) in Hc.
  rewrite scrapePageSafe_result. cbn [htmlContent fetched newSession].
  split; [exact Hr|]. split; [exact Hc|].
  apply safeContent_first in Hc. destruct Hc as (k & _ & Hk & Ha & _).
  destruct (proj1 (accepted_classify _ html) (conj Hk Ha)) as (_ & Hl & Hd).
  split; [exact Hl|]. split; [apply detectedFailure_none, Hd|exact Hocc].
Qed.

(** The witness of X19: the session of two good pages. *)
Lemma X19_witness :
  NoDup [idA] /\
  fst (scrappe twoWaveWorld (oneWindow 2) (newSession true)) = Some [idA].
Proof.
  assert (H : fst (scrappe twoWaveWorld (oneWindow 2) (newSession true))
              = Some [idA]) by (vm_compute; reflexivity).
  destruct (X19_list_returned twoWaveWorld (oneWindow 2) [idA]) as [Hn _].
  - cbn. lia.
  - exact H.
  - split; [exact Hn|exact H].
Defined.

(** X20. Detection never counts less than one page: whatever the detection
    page shows, [detectTotalPages] returns a number from 1 on, and 1 when
    the page could not be loaded.  The number of pages of a session is at
    most the budget and at most the count detected, and with a budget of
    one page or more it is at least 1. *)
Theorem X20_page_count (w : World) (cfg : Config) :
  1 <= detectTotalPages w /\
  0 <= detectionScript (detection w) /\
  (navigationOk (detection w) = false -> detectTotalPages w = 1) /\
  (detectionScript (detection w) = 0 -> detectTotalPages w = 1) /\
  actualTotalPages w cfg <= cfg.(totalPages) /\
  actualTotalPages w cfg <= detectTotalPages w /\
  (1 <= cfg.(totalPages) -> 1 <= actualTotalPages w cfg).
Proof.
  pose proof (detectTotalPages_positive w) as H.
  pose proof (detectionScript_nonneg (detection w)) as H0.
  split; [exact H|]. split; [exact H0|]. unfold actualTotalPages.
  split; [|split; [|lia]].
  - unfold detectTotalPages. intros ->. reflexivity.
  - unfold detectTotalPages. intros ->.
    destruct (navigationOk (detection w)); reflexivity.
Qed.

(** X21. [parseHTMLAsync] always resolves, with the hashes that the page
    task of [scrappe] merges for the same result: a list without
    duplicates of identifiers that occur in transaction links of the
    content, and the empty list when the result has no content or empty
    content.  The number of hashes with which the page task settles is
    their number. *)
Theorem X21_async_parse_agrees (page : Z) (result : PageResult)
        (st : Session) :
  let parsed := parseHTMLAsync result in
  ppPage parsed = prPage result /\
  NoDup (hashes parsed) /\
  (forall h, In h (hashes parsed) ->
     exists html, htmlContent result = Some html /\ LinkOccurs h html) /\
  (htmlContent result = None \/ htmlContent result = Some [] ->
   hashes parsed = []) /\
  allHashesSet (snd (processPageMerge page result st))
    = setAddAll str_eqb (hashes parsed) (allHashesSet st) /\
  fst (processPageMerge page result st)
    = Fulfilled {| trPage := page;
                   hashCount := Z.of_nat (List.length (hashes parsed)) |}.
Proof.
  cbn zeta. unfold parseHTMLAsync, processPageMerge.
  destruct (htmlContent result) as [[|c t]|] eqn:E; cbn [truthy ppPage hashes].
  - split; [reflexivity|]. split; [constructor|]. split; [intros h []|].
    split; [reflexivity|]. unfold addFailed. run. split; reflexivity.
  - split; [reflexivity|]. split.
    + rewrite parseHTMLForHashes_matches. apply setAddAll_str_NoDup.
      constructor.
    + split.
      * intros h Hin. exists (c :: t). split; [reflexivity|].
        apply allLinkMatches_occurs.
        rewrite parseHTMLForHashes_matches, setAddAll_str_In in Hin.
        destruct Hin as [Hin|[]].
        rewrite <- (firstn_skipn matchCap). apply in_or_app. auto.
      * split; [intros [H|H]; discriminate H|]. unfold addHashes. run.
        destruct (negb _); split; reflexivity.
  - split; [reflexivity|]. split; [constructor|]. split; [intros h []|].
    split; [reflexivity|]. unfold addFailed. run. split; reflexivity.
Qed.

(** X22. The waves wait one cooldown for every page, also for the first
    page of a window, whose chain was empty: a new session with a window
    has waited as many cooldowns as it has pages when its retry pass
    begins, and the retry pass waits none. *)
Theorem X22_one_cooldown_per_page (w : World) (cfg : Config) :
  1 <= cfg.(maxWindows) ->
  Z.of_nat (cooldowns (trace (atRetry w cfg)))
    = Z.max 0 (actualTotalPages w cfg) /\
  cooldowns (trace (atEnd w cfg)) = cooldowns (trace (atRetry w cfg)).
Proof.
  intro Hmw. split.
  - destruct (waves_books w cfg Hmw) as (_ & _ & Hp & Hs).
    pose proof (waves_steps w cfg Hmw) as Hsteps.
    pose proof (newSession_inv w cfg true) as Hinv0.
    destruct (waveSteps_keep w cfg (fun _ => O) []
                (fun st => (cooldowns (trace st) + List.length (pending st)
                            = List.length (scheduledPages (trace st)))%nat)
                (cooldown_step w cfg (fun _ => O) [])
                _ _ Hsteps Hinv0 eq_refl) as [_ H].
    rewrite Hp, Hs in H. cbn [List.length] in H.
    unfold pageRange in H. rewrite length_map, length_seq in H. lia.
  - rewrite (session_end w cfg Hmw). apply retry_no_cooldown.
Qed.

(** The witness of X22: ten pages on two windows, ten cooldowns. *)
Lemma X22_witness :
  Z.of_nat (cooldowns (trace (atRetry world37 tenPages)))
    = Z.max 0 (actualTotalPages world37 tenPages).
Proof.
  apply (X22_one_cooldown_per_page world37 tenPages). cbn. lia.
Defined.

(** X23. The tasks of a window run in their turn: when the retry pass of a
    new session with a window begins, the starts and the ends of the page
    tasks on any window are those of the pages of this window in
    increasing order, every task ending before the next one starts. *)
Theorem X23_tasks_in_turn (w : World) (cfg : Config) (slot : Z) :
  1 <= cfg.(maxWindows) ->
  marksOn slot (trace (atRetry w cfg))
    = served slot (chainOf cfg slot (pageRange 1 (actualTotalPages w cfg))).
Proof.
  intro Hmw.
  destruct (waves_books w cfg Hmw) as (_ & _ & Hp & Hs).
  pose proof (waves_steps w cfg Hmw) as Hsteps.
  pose proof (newSession_inv w cfg true) as Hinv0.
  assert (H0 : inTurn cfg (snd (setHashes [] (newSession true))))
    by (intro s; exists []; split; reflexivity).
  destruct (waveSteps_keep w cfg (fun _ => O) [] (inTurn cfg)
              (turn_step w cfg (fun _ => O) [])
              _ _ Hsteps Hinv0 H0) as [_ H].
  destruct (H slot) as (done & Hc & Hm).
  rewrite Hp in Hc, Hm. rewrite Hs in Hc. cbn [chainOf filter] in Hc, Hm.
  rewrite app_nil_r in Hc, Hm. rewrite Hc. exact Hm.
Qed.

(** The witness of X23: ten pages on two windows. *)
Lemma X23_witness :
  marksOn 1 (trace (atRetry world37 tenPages))
    = served 1 (chainOf tenPages 1
                  (pageRange 1 (actualTotalPages world37 tenPages))).
Proof.
  apply (X23_tasks_in_turn world37 tenPages 1). cbn. lia.
Defined.
